(** * The continuous-listening pipeline of [src/components/speech.tsx]

    A shallow embedding of the offline speech-to-text component: the
    resampler, the text filter applied to the engine's answer, and the
    event-driven session (recorder callbacks, the voice-activity loop, the
    silence timer, [processAudio] with its three suspension points and
    [stopListening]).

    Conventions of the embedding.
    - A JavaScript [number] holding a sample, a rate or an amplitude is an
      exact rational ([Q]); IEEE-754 rounding and the special values are not
      represented.  Lengths, indices and [Date.now()] are integers.  The
      literal [0.005] of [processAudio] is the rational its double is.
    - The resampler is given twice: in exact arithmetic ([Resample]), where
      its reads, its range and its behaviour on whole ratios are studied,
      and in the arithmetic of the code ([ResampleDouble]: binary64
      operations, results stored as binary32), where its length and its
      samples are stated.
    - [Math.sqrt] is not part of the repository: it is a variable of the
      section that holds the session, and every statement holds for any
      function put in its place.
    - A JavaScript string is the list of its UTF-16 code units.
    - The browser is the environment: it chooses the next event (a recorder
      callback, an animation frame, a timer, the settlement of a promise,
      a click on Stop).  Every handler runs to its next [await] without
      interruption, as on the event loop; the continuation of an [await] on
      a settled promise runs before the next event.
    - A session is one run of [startListening]: it begins in the state that
      call leaves and goes through any sequence of events.  Unmounting
      ([cleanup]) and a second [startListening] are not events of the
      session; [cleanup] is given as a function on the states a session
      reaches.  The constructors of the platform ([Blob], [AudioContext])
      and [start]/[stop] on a recorder in the right state do not throw.
    - The history of what the handlers did to the outside is kept in the
      state ([trace], [nextUtterance]); no handler reads it. *)

From Stdlib Require Import String Ascii.
From Stdlib Require Import List Sorted ZArith NArith QArith Qround Lqa Lia Bool.
From Stdlib Require SpecFloat.
Import ListNotations.

Set Implicit Arguments.

(* ================================================================== *)
(** ** Strings as sequences of UTF-16 code units *)

Module Text.

Definition str := list N.

(** A literal of the source, written as a Rocq string of ASCII characters. *)
Definition lit (s : string) : str := map N_of_ascii (list_ascii_of_string s).

Arguments lit s%_string.

(** ECMAScript [WhiteSpace] and [LineTerminator] code points: the set that
    both [String.prototype.trim] and the class escape [\s] use. *)
Definition whitespace_code_units : list N :=
  [9; 10; 11; 12; 13; 32; 160; 5760;
   8192; 8193; 8194; 8195; 8196; 8197; 8198; 8199; 8200; 8201; 8202;
   8232; 8233; 8239; 8287; 12288; 65279]%N.

Definition isWhiteSpace (c : N) : bool := existsb (N.eqb c) whitespace_code_units.

Fixpoint trimStart (s : str) : str :=
  match s with
  | [] => []
  | c :: s' => if isWhiteSpace c then trimStart s' else s
  end.

Definition trimEnd (s : str) : str := rev (trimStart (rev s)).

Definition trim (s : str) : str := trimEnd (trimStart s).

(** Truthiness of a string: the empty string is the only falsy one. *)
Definition truthy (s : str) : bool :=
  match s with [] => false | _ :: _ => true end.

(** Case folding of the [i] flag without the [u] flag, on the code units it
    can identify with an ASCII pattern character: a lower-case ASCII letter
    goes to its upper-case letter; a code unit of 128 or more is never
    identified with an ASCII one. *)
Definition canonicalize (c : N) : N :=
  if ((97 <=? c) && (c <=? 122))%N then (c - 32)%N else c.

Definition BLANK_AUDIO : str := lit "[BLANK_AUDIO]".

(** [matchesAt pat s]: the pattern characters match a prefix of [s],
    ignoring case. *)
Fixpoint matchesAt (pat s : str) : bool :=
  match pat, s with
  | [], _ => true
  | _ :: _, [] => false
  | p :: pat', c :: s' => N.eqb (canonicalize c) (canonicalize p) && matchesAt pat' s'
  end.

(** [s.replace(/\[BLANK_AUDIO\]/gi, '')]: one pass from the left; a match
    is dropped and the scan resumes after it.  [skip] counts the code units
    of the current match that are still to be dropped. *)
Fixpoint replaceFrom (skip : nat) (s : str) : str :=
  match s with
  | [] => []
  | c :: s' =>
      match skip with
      | S k => replaceFrom k s'
      | O => if matchesAt BLANK_AUDIO s
             then replaceFrom (length BLANK_AUDIO - 1) s'
             else c :: replaceFrom 0 s'
      end
  end.

Definition replaceBlankAudio (s : str) : str := replaceFrom 0 s.

(** The character class [[\s\[\]()]]. *)
Definition inSpecialClass (c : N) : bool :=
  isWhiteSpace c || existsb (N.eqb c) (lit "[]()").

(** [/^[\s\[\]()]*$/.test(s)]. *)
Definition onlySpecialTokens (s : str) : bool := forallb inSpecialClass s.

(** [hay.includes(needle)]. *)
Fixpoint isPrefix (p s : str) : bool :=
  match p, s with
  | [], _ => true
  | _ :: _, [] => false
  | a :: p', c :: s' => N.eqb a c && isPrefix p' s'
  end.

Fixpoint includes (hay needle : str) : bool :=
  isPrefix needle hay ||
  match hay with
  | [] => false
  | _ :: hay' => includes hay' needle
  end.

(** The filter of [processAudio] on the engine's text (lines 452-455). *)
Definition cleanText (text : str) : str :=
  let newText := trim text in
  trim (replaceBlankAudio newText).

(** The condition of line 458. *)
Definition keepText (newText : str) : bool :=
  truthy newText && negb (onlySpecialTokens newText).

(** The updater handed to [setTranscript] (line 459). *)
Definition appendTranscript (newText prev : str) : str :=
  prev ++ (if truthy prev then lit " " else []) ++ newText.

(** The spec's wording of the filter: remove every token, then trim. *)
Definition cleanText_spec (text : str) : str := trim (replaceBlankAudio text).

End Text.

(* ================================================================== *)
(** ** resampleAudio (lines 493-510) *)

Module Resample.

Open Scope Q_scope.

Definition Float32Array := list Q.

(** [Math.round]: the nearest integer, a tie going up. *)
Definition Math_round (x : Q) : Z := Qfloor (x + (1 # 2)).

Definition Math_floor (x : Q) : Z := Qfloor x.

Definition len (a : Float32Array) : Z := Z.of_nat (length a).

(** [a[k]].  The reads of [resampleAudio] are shown to be in range; the
    value given to a read outside the array is never used. *)
Definition get (a : Float32Array) (k : Z) : Q := nth (Z.to_nat k) a 0.

Definition indexFloor (ratio : Q) (i : Z) : Z := Math_floor (inject_Z i * ratio).

Definition indexCeil (a : Float32Array) (ratio : Q) (i : Z) : Z :=
  Z.min (indexFloor ratio i + 1) (len a - 1).

(** The body of the loop: the value stored in [result[i]]. *)
Definition interpolate (a : Float32Array) (ratio : Q) (i : Z) : Q :=
  let index := inject_Z i * ratio in
  let iFloor := Math_floor index in
  let iCeil := Z.min (iFloor + 1) (len a - 1) in
  let fraction := index - inject_Z iFloor in
  get a iFloor * (1 - fraction) + get a iCeil * fraction.

Definition newLength (a : Float32Array) (ratio : Q) : Z :=
  Math_round (inject_Z (len a) / ratio).

Definition resampleAudio (audioData : Float32Array) (fromRate toRate : Q) : Float32Array :=
  if Qeq_bool fromRate toRate then audioData
  else
    let ratio := fromRate / toRate in
    map (fun i => interpolate audioData ratio (Z.of_nat i))
        (seq 0 (Z.to_nat (newLength audioData ratio))).


Definition inBounds (a : Float32Array) (k : Z) : Prop := (0 <= k <= len a - 1)%Z.

End Resample.

(* ================================================================== *)
(** ** Numbers as the code has them: IEEE 754 doubles *)

Module Double.
Import SpecFloat.

Open Scope Z_scope.

(** A JavaScript [number]: a binary64 value (53 bits of precision, largest
    exponent 1023), kept in the canonical form the operations return. *)
Definition number := spec_float.

Definition NaN : number := S754_nan.

(** The integer [z] as a number, rounded to nearest (exact up to 2^53). *)
Definition ofZ (z : Z) : number := binary_normalize 53 1024 z 0 false.

Definition one : number := ofZ 1.

Definition add : number -> number -> number := SFadd 53 1024.
Definition sub : number -> number -> number := SFsub 53 1024.
Definition mul : number -> number -> number := SFmul 53 1024.
Definition div : number -> number -> number := SFdiv 53 1024.

(** [x === y] on numbers: [NaN] equals nothing, the two zeros are equal. *)
Definition strictEq (x y : number) : bool := SFeqb x y.

(** The numerator of a finite number over the denominator [2 ^ (- e)],
    for [e < 0]. *)
Definition signed (s : bool) (m : positive) : Z := cond_Zopp s (Zpos m).

(** [Math.floor]: the largest integer not above [x]; zeros, infinities and
    [NaN] are returned as they are. *)
Definition Math_floor (x : number) : number :=
  match x with
  | S754_finite s m e =>
      if 0 <=? e then x
      else binary_normalize 53 1024 (signed s m / 2 ^ (- e)) 0 s
  | _ => x
  end.

(** [Math.round]: the nearest integer, a tie going up; a result of zero
    has the sign of [x]. *)
Definition Math_round (x : number) : number :=
  match x with
  | S754_finite s m e =>
      if 0 <=? e then x
      else binary_normalize 53 1024 ((2 * signed s m + 2 ^ (- e)) / (2 * 2 ^ (- e))) 0 s
  | _ => x
  end.

(** [Math.min] of two numbers: [NaN] if one is, and [-0] below [+0]. *)
Definition Math_min (x y : number) : number :=
  match SFcompare x y with
  | None => NaN
  | Some Lt => x
  | Some Gt => y
  | Some Eq => match x with S754_zero true => x | _ => y end
  end.

(** The integer a number is, if it is one; both zeros are 0. *)
Definition integerOf (x : number) : option Z :=
  match x with
  | S754_zero _ => Some 0
  | S754_finite s m e =>
      if 0 <=? e then Some (signed s m * 2 ^ e)
      else if signed s m mod 2 ^ (- e) =? 0 then Some (signed s m / 2 ^ (- e))
      else None
  | _ => None
  end.

(** The rational a finite number is. *)
Definition toQ (x : number) : option Q :=
  match x with
  | S754_zero _ => Some 0%Q
  | S754_finite s m e =>
      Some (if 0 <=? e then inject_Z (signed s m * 2 ^ e)
            else (signed s m # Z.to_pos (2 ^ (- e)))%Q)
  | _ => None
  end.

(** The value a [Float32Array] keeps of a number: the nearest binary32
    value (24 bits of precision, largest exponent 127), ties to even, read
    back as a number. *)
Definition fround (x : number) : number :=
  match x with
  | S754_finite s m e =>
      match binary_round 24 128 s m e with
      | S754_finite s' m' e' => binary_round 53 1024 s' m' e'
      | y => y
      end
  | _ => x
  end.

End Double.

(* ================================================================== *)
(** ** resampleAudio in the arithmetic of the code (lines 493-510) *)

Module ResampleDouble.
Import SpecFloat Double.

Open Scope Z_scope.

(** The elements of a [Float32Array], read as numbers. *)
Definition Float32Array := list number.

Definition len (a : Float32Array) : Z := Z.of_nat (length a).

(** [a[k]] for a number [k]: the element when [k] is an integer index of
    the array ([-0] is index 0); otherwise [undefined], which the
    multiplications of the loop turn into [NaN]. *)
Definition get (a : Float32Array) (k : number) : number :=
  match integerOf k with
  | Some z =>
      if 0 <=? z
      then match nth_error a (Z.to_nat z) with Some x => x | None => NaN end
      else NaN
  | None => NaN
  end.

(** The length [new Float32Array(n)] gives: [NaN] and the zeros give 0, a
    fraction is cut off; a negative or infinite length, or one above
    [2^53 - 1], throws a [RangeError] ([None]).  The allocation itself is
    taken to succeed. *)
Definition arrayLength (n : number) : option nat :=
  match n with
  | S754_nan | S754_zero _ => Some 0%nat
  | S754_infinity _ => None
  | S754_finite s m e =>
      let z := if 0 <=? e then signed s m * 2 ^ e
               else Z.quot (signed s m) (2 ^ (- e)) in
      if (0 <=? z) && (z <=? 2 ^ 53 - 1) then Some (Z.to_nat z) else None
  end.

(** The body of the loop: the value stored in [result[i]]. *)
Definition interpolate (audioData : Float32Array) (ratio : number) (i : number) : number :=
  let index := mul i ratio in
  let indexFloor := Math_floor index in
  let indexCeil := Math_min (add indexFloor one) (sub (ofZ (len audioData)) one) in
  let fraction := sub index indexFloor in
  fround (add (mul (get audioData indexFloor) (sub one fraction))
              (mul (get audioData indexCeil) fraction)).

Definition newLength (audioData : Float32Array) (ratio : number) : number :=
  Math_round (div (ofZ (len audioData)) ratio).

(** [None] when the constructor of the result throws. *)
Definition resampleAudio (audioData : Float32Array) (fromRate toRate : number)
  : option Float32Array :=
  if strictEq fromRate toRate then Some audioData
  else
    let ratio := div fromRate toRate in
    match arrayLength (newLength audioData ratio) with
    | None => None
    | Some n =>
        Some (map (fun i => interpolate audioData ratio (ofZ (Z.of_nat i))) (seq 0 n))
    end.

End ResampleDouble.

(* ================================================================== *)
(** ** The session: state, events and handlers *)

Import Text Resample.

Open Scope Z_scope.

(** A [Blob] is the sequence of its bytes; [size] is its length. *)
Definition Blob := list N.

Definition size (b : Blob) : Z := Z.of_nat (length b).

(** [new Blob(chunks)]. *)
Definition newBlob (chunks : list Blob) : Blob := concat chunks.

(** [MediaRecorder.state]; the component never pauses the recorder. *)
Inductive RecordingState := inactive | recording.

(** The value a rejected promise carries: [message] is [None] when the
    property is absent. *)
Record JsError := { message : option str }.

Inductive Outcome (A : Type) :=
| Resolved (a : A)
| Rejected (e : JsError).

Arguments Resolved {A} a.
Arguments Rejected {A} e.

(** What [decodeAudioData] resolves with: the sample rate and channel 0. *)
Record AudioBuffer := { sampleRate : Q; channelData : Float32Array }.

(** The await a suspended call of [processAudio] is waiting at. *)
Inductive Stage :=
| AwaitArrayBuffer (audioBlob : Blob)   (* line 396 *)
| AwaitDecode                           (* line 409 *)
| AwaitTranscribe.                      (* line 445 *)

(** A suspended call of [processAudio].  [continueAfter] tells that the
    caller is [processAudioAndContinue], which awaits it and then restarts
    the recorder; [utt] numbers the calls that passed the guard. *)
Record Task := { utt : nat; continueAfter : bool; stage : Stage }.

(** What the handlers do to the outside, in the order they do it. *)
Inductive Obs :=
| O_speech                                 (* a frame above the threshold *)
| O_setTimeout (id : nat)                  (* line 283 *)
| O_clearTimeout (id : nat)
| O_boundary                               (* [stop()] by the silence timer, line 290 *)
| O_recorderStop                           (* [stop()] by [stopListening], line 202 *)
| O_recorderStart                          (* [start(100)], line 337 *)
| O_trackStop                              (* line 210 *)
| O_contextClose                           (* line 216 *)
| O_analyserRelease                        (* line 219 *)
| O_accept (u : nat) (chunks : list Blob)  (* [processAudio] passed its guard *)
| O_decode (u : nat) (bytes : Blob)        (* [decodeAudioData] called *)
| O_transcribe (u : nat) (pcm : Float32Array) (* the engine called *)
| O_append (u : nat) (newText : str)       (* [setTranscript], line 459 *)
| O_release (u : nat)                      (* the busy flag cleared *)
| O_setError (msg : str)
| O_warn (msg : str).

Record St := mkSt {
  mediaRecorderRef : option RecordingState;  (* [mediaRecorderRef.current]: the recorder's [state], [None] for [null] *)
  audioChunksRef : list Blob;
  streamRef : option bool;  (* [streamRef.current]: [Some a] for a stream whose [active] is [a] *)
  transcriberRef : bool;  (* the model is loaded *)
  isProcessingRef : bool;  (* the busy flag *)
  analyserRef : bool;
  audioContextRef : bool;
  silenceTimerRef : option nat;  (* a timer handle *)
  lastSpeechTimeRef : Z;
  hasRecordedSpeechRef : bool;  (* local to [startVoiceActivityDetection] *)
  isListening : bool;
  transcript : str;
  isProcessing : bool;
  error : option str;
  clock : Z;  (* what [Date.now()] returns *)
  timers : list nat;  (* timeouts armed and neither fired nor cleared *)
  nextTimer : nat;
  stopEvents : nat;  (* [stop] events of the recorder queued, not yet delivered *)
  frameRequested : bool;  (* an animation frame is requested *)
  tasks : list Task;  (* calls of [processAudio] suspended at an [await] *)
  nextUtterance : nat;  (* history: how many calls passed the guard *)
  trace : list Obs  (* history: what the handlers did, newest first *)
}.

Definition set_mediaRecorderRef (v : option RecordingState) (s : St) : St :=
  mkSt v (audioChunksRef s) (streamRef s) (transcriberRef s)
    (isProcessingRef s) (analyserRef s) (audioContextRef s)
    (silenceTimerRef s) (lastSpeechTimeRef s) (hasRecordedSpeechRef s)
    (isListening s) (transcript s) (isProcessing s) (error s) (clock s)
    (timers s) (nextTimer s) (stopEvents s) (frameRequested s) (tasks s)
    (nextUtterance s) (trace s).

Definition set_audioChunksRef (v : list Blob) (s : St) : St :=
  mkSt (mediaRecorderRef s) v (streamRef s) (transcriberRef s)
    (isProcessingRef s) (analyserRef s) (audioContextRef s)
    (silenceTimerRef s) (lastSpeechTimeRef s) (hasRecordedSpeechRef s)
    (isListening s) (transcript s) (isProcessing s) (error s) (clock s)
    (timers s) (nextTimer s) (stopEvents s) (frameRequested s) (tasks s)
    (nextUtterance s) (trace s).

Definition set_streamRef (v : option bool) (s : St) : St :=
  mkSt (mediaRecorderRef s) (audioChunksRef s) v (transcriberRef s)
    (isProcessingRef s) (analyserRef s) (audioContextRef s)
    (silenceTimerRef s) (lastSpeechTimeRef s) (hasRecordedSpeechRef s)
    (isListening s) (transcript s) (isProcessing s) (error s) (clock s)
    (timers s) (nextTimer s) (stopEvents s) (frameRequested s) (tasks s)
    (nextUtterance s) (trace s).

Definition set_transcriberRef (v : bool) (s : St) : St :=
  mkSt (mediaRecorderRef s) (audioChunksRef s) (streamRef s) v
    (isProcessingRef s) (analyserRef s) (audioContextRef s)
    (silenceTimerRef s) (lastSpeechTimeRef s) (hasRecordedSpeechRef s)
    (isListening s) (transcript s) (isProcessing s) (error s) (clock s)
    (timers s) (nextTimer s) (stopEvents s) (frameRequested s) (tasks s)
    (nextUtterance s) (trace s).

Definition set_isProcessingRef (v : bool) (s : St) : St :=
  mkSt (mediaRecorderRef s) (audioChunksRef s) (streamRef s)
    (transcriberRef s) v (analyserRef s) (audioContextRef s)
    (silenceTimerRef s) (lastSpeechTimeRef s) (hasRecordedSpeechRef s)
    (isListening s) (transcript s) (isProcessing s) (error s) (clock s)
    (timers s) (nextTimer s) (stopEvents s) (frameRequested s) (tasks s)
    (nextUtterance s) (trace s).

Definition set_analyserRef (v : bool) (s : St) : St :=
  mkSt (mediaRecorderRef s) (audioChunksRef s) (streamRef s)
    (transcriberRef s) (isProcessingRef s) v (audioContextRef s)
    (silenceTimerRef s) (lastSpeechTimeRef s) (hasRecordedSpeechRef s)
    (isListening s) (transcript s) (isProcessing s) (error s) (clock s)
    (timers s) (nextTimer s) (stopEvents s) (frameRequested s) (tasks s)
    (nextUtterance s) (trace s).

Definition set_audioContextRef (v : bool) (s : St) : St :=
  mkSt (mediaRecorderRef s) (audioChunksRef s) (streamRef s)
    (transcriberRef s) (isProcessingRef s) (analyserRef s) v
    (silenceTimerRef s) (lastSpeechTimeRef s) (hasRecordedSpeechRef s)
    (isListening s) (transcript s) (isProcessing s) (error s) (clock s)
    (timers s) (nextTimer s) (stopEvents s) (frameRequested s) (tasks s)
    (nextUtterance s) (trace s).

Definition set_silenceTimerRef (v : option nat) (s : St) : St :=
  mkSt (mediaRecorderRef s) (audioChunksRef s) (streamRef s)
    (transcriberRef s) (isProcessingRef s) (analyserRef s) (audioContextRef s)
    v (lastSpeechTimeRef s) (hasRecordedSpeechRef s) (isListening s)
    (transcript s) (isProcessing s) (error s) (clock s) (timers s)
    (nextTimer s) (stopEvents s) (frameRequested s) (tasks s)
    (nextUtterance s) (trace s).

Definition set_lastSpeechTimeRef (v : Z) (s : St) : St :=
  mkSt (mediaRecorderRef s) (audioChunksRef s) (streamRef s)
    (transcriberRef s) (isProcessingRef s) (analyserRef s) (audioContextRef s)
    (silenceTimerRef s) v (hasRecordedSpeechRef s) (isListening s)
    (transcript s) (isProcessing s) (error s) (clock s) (timers s)
    (nextTimer s) (stopEvents s) (frameRequested s) (tasks s)
    (nextUtterance s) (trace s).

Definition set_hasRecordedSpeechRef (v : bool) (s : St) : St :=
  mkSt (mediaRecorderRef s) (audioChunksRef s) (streamRef s)
    (transcriberRef s) (isProcessingRef s) (analyserRef s) (audioContextRef s)
    (silenceTimerRef s) (lastSpeechTimeRef s) v (isListening s) (transcript s)
    (isProcessing s) (error s) (clock s) (timers s) (nextTimer s)
    (stopEvents s) (frameRequested s) (tasks s) (nextUtterance s) (trace s).

Definition set_isListening (v : bool) (s : St) : St :=
  mkSt (mediaRecorderRef s) (audioChunksRef s) (streamRef s)
    (transcriberRef s) (isProcessingRef s) (analyserRef s) (audioContextRef s)
    (silenceTimerRef s) (lastSpeechTimeRef s) (hasRecordedSpeechRef s) v
    (transcript s) (isProcessing s) (error s) (clock s) (timers s)
    (nextTimer s) (stopEvents s) (frameRequested s) (tasks s)
    (nextUtterance s) (trace s).

Definition set_transcript (v : str) (s : St) : St :=
  mkSt (mediaRecorderRef s) (audioChunksRef s) (streamRef s)
    (transcriberRef s) (isProcessingRef s) (analyserRef s) (audioContextRef s)
    (silenceTimerRef s) (lastSpeechTimeRef s) (hasRecordedSpeechRef s)
    (isListening s) v (isProcessing s) (error s) (clock s) (timers s)
    (nextTimer s) (stopEvents s) (frameRequested s) (tasks s)
    (nextUtterance s) (trace s).

Definition set_isProcessing (v : bool) (s : St) : St :=
  mkSt (mediaRecorderRef s) (audioChunksRef s) (streamRef s)
    (transcriberRef s) (isProcessingRef s) (analyserRef s) (audioContextRef s)
    (silenceTimerRef s) (lastSpeechTimeRef s) (hasRecordedSpeechRef s)
    (isListening s) (transcript s) v (error s) (clock s) (timers s)
    (nextTimer s) (stopEvents s) (frameRequested s) (tasks s)
    (nextUtterance s) (trace s).

Definition set_error (v : option str) (s : St) : St :=
  mkSt (mediaRecorderRef s) (audioChunksRef s) (streamRef s)
    (transcriberRef s) (isProcessingRef s) (analyserRef s) (audioContextRef s)
    (silenceTimerRef s) (lastSpeechTimeRef s) (hasRecordedSpeechRef s)
    (isListening s) (transcript s) (isProcessing s) v (clock s) (timers s)
    (nextTimer s) (stopEvents s) (frameRequested s) (tasks s)
    (nextUtterance s) (trace s).

Definition set_clock (v : Z) (s : St) : St :=
  mkSt (mediaRecorderRef s) (audioChunksRef s) (streamRef s)
    (transcriberRef s) (isProcessingRef s) (analyserRef s) (audioContextRef s)
    (silenceTimerRef s) (lastSpeechTimeRef s) (hasRecordedSpeechRef s)
    (isListening s) (transcript s) (isProcessing s) (error s) v (timers s)
    (nextTimer s) (stopEvents s) (frameRequested s) (tasks s)
    (nextUtterance s) (trace s).

Definition set_timers (v : list nat) (s : St) : St :=
  mkSt (mediaRecorderRef s) (audioChunksRef s) (streamRef s)
    (transcriberRef s) (isProcessingRef s) (analyserRef s) (audioContextRef s)
    (silenceTimerRef s) (lastSpeechTimeRef s) (hasRecordedSpeechRef s)
    (isListening s) (transcript s) (isProcessing s) (error s) (clock s) v
    (nextTimer s) (stopEvents s) (frameRequested s) (tasks s)
    (nextUtterance s) (trace s).

Definition set_nextTimer (v : nat) (s : St) : St :=
  mkSt (mediaRecorderRef s) (audioChunksRef s) (streamRef s)
    (transcriberRef s) (isProcessingRef s) (analyserRef s) (audioContextRef s)
    (silenceTimerRef s) (lastSpeechTimeRef s) (hasRecordedSpeechRef s)
    (isListening s) (transcript s) (isProcessing s) (error s) (clock s)
    (timers s) v (stopEvents s) (frameRequested s) (tasks s) (nextUtterance s)
    (trace s).

Definition set_stopEvents (v : nat) (s : St) : St :=
  mkSt (mediaRecorderRef s) (audioChunksRef s) (streamRef s)
    (transcriberRef s) (isProcessingRef s) (analyserRef s) (audioContextRef s)
    (silenceTimerRef s) (lastSpeechTimeRef s) (hasRecordedSpeechRef s)
    (isListening s) (transcript s) (isProcessing s) (error s) (clock s)
    (timers s) (nextTimer s) v (frameRequested s) (tasks s) (nextUtterance s)
    (trace s).

Definition set_frameRequested (v : bool) (s : St) : St :=
  mkSt (mediaRecorderRef s) (audioChunksRef s) (streamRef s)
    (transcriberRef s) (isProcessingRef s) (analyserRef s) (audioContextRef s)
    (silenceTimerRef s) (lastSpeechTimeRef s) (hasRecordedSpeechRef s)
    (isListening s) (transcript s) (isProcessing s) (error s) (clock s)
    (timers s) (nextTimer s) (stopEvents s) v (tasks s) (nextUtterance s)
    (trace s).

Definition set_tasks (v : list Task) (s : St) : St :=
  mkSt (mediaRecorderRef s) (audioChunksRef s) (streamRef s)
    (transcriberRef s) (isProcessingRef s) (analyserRef s) (audioContextRef s)
    (silenceTimerRef s) (lastSpeechTimeRef s) (hasRecordedSpeechRef s)
    (isListening s) (transcript s) (isProcessing s) (error s) (clock s)
    (timers s) (nextTimer s) (stopEvents s) (frameRequested s) v
    (nextUtterance s) (trace s).

Definition set_nextUtterance (v : nat) (s : St) : St :=
  mkSt (mediaRecorderRef s) (audioChunksRef s) (streamRef s)
    (transcriberRef s) (isProcessingRef s) (analyserRef s) (audioContextRef s)
    (silenceTimerRef s) (lastSpeechTimeRef s) (hasRecordedSpeechRef s)
    (isListening s) (transcript s) (isProcessing s) (error s) (clock s)
    (timers s) (nextTimer s) (stopEvents s) (frameRequested s) (tasks s) v
    (trace s).

Definition set_trace (v : list Obs) (s : St) : St :=
  mkSt (mediaRecorderRef s) (audioChunksRef s) (streamRef s)
    (transcriberRef s) (isProcessingRef s) (analyserRef s) (audioContextRef s)
    (silenceTimerRef s) (lastSpeechTimeRef s) (hasRecordedSpeechRef s)
    (isListening s) (transcript s) (isProcessing s) (error s) (clock s)
    (timers s) (nextTimer s) (stopEvents s) (frameRequested s) (tasks s)
    (nextUtterance s) v.

Definition log (o : Obs) (s : St) : St := set_trace (o :: trace s) s.

Definition isNil {A : Type} (l : list A) : bool :=
  match l with [] => true | _ :: _ => false end.

Definition isSome {A : Type} (o : option A) : bool :=
  match o with Some _ => true | None => false end.

(** [streamRef.current && streamRef.current.active]. *)
Definition streamActive (s : St) : bool :=
  match streamRef s with Some a => a | None => false end.

(** [x > y] on numbers. *)
Definition Qgtb (x y : Q) : bool := negb (Qle_bool x y).

(** *** Timers and the recorder object *)

(** [if (silenceTimerRef.current) { clearTimeout(...); ... = null }]. *)
Definition clearSilenceTimer (s : St) : St :=
  match silenceTimerRef s with
  | Some id =>
      set_silenceTimerRef None
        (log (O_clearTimeout id)
           (set_timers (filter (fun j => negb (Nat.eqb j id)) (timers s)) s))
  | None => s
  end.

(** [silenceTimerRef.current = setTimeout(callback, 100)]. *)
Definition armSilenceTimer (s : St) : St :=
  let id := nextTimer s in
  set_silenceTimerRef (Some id)
    (log (O_setTimeout id)
       (set_nextTimer (S id) (set_timers (timers s ++ [id]) s))).

(** [mediaRecorderRef.current.stop()] on a recording recorder: the state
    becomes [inactive] at once and a [stop] event is queued. *)
Definition recorderStop (o : Obs) (s : St) : St :=
  log o (set_stopEvents (S (stopEvents s)) (set_mediaRecorderRef (Some inactive) s)).

(** *** processAudio (lines 356-490) *)

(** The busy flag and its mirror in the React state are cleared together on
    every exit of [processAudio]. *)
Definition release (u : nat) (s : St) : St :=
  log (O_release u) (set_isProcessing false (set_isProcessingRef false s)).

Definition setError (msg : str) (s : St) : St :=
  log (O_setError msg) (set_error (Some msg) s).

Definition suspend (t : Task) (s : St) : St := set_tasks (tasks s ++ [t]) s.

(** The synchronous start of [processAudio], up to [await
    audioBlob.arrayBuffer()].  The boolean tells whether the call returned
    ([true]) or is suspended ([false]). *)
Definition processAudio (fromContinue : bool) (s : St) : St * bool :=
  if isProcessingRef s || isNil (audioChunksRef s) || negb (transcriberRef s)
  then (s, true)
  else
    let u := nextUtterance s in
    let s := set_isProcessingRef true s in
    let s := set_isProcessing true s in
    let chunksToProcess := audioChunksRef s in
    let s := log (O_accept u chunksToProcess) (set_nextUtterance (S u) s) in
    let s := set_audioChunksRef [] s in
    if isNil chunksToProcess then (release u s, true)
    else
      let audioBlob := newBlob chunksToProcess in
      if size audioBlob =? 0 then (release u s, true)
      else
        (suspend {| utt := u; continueAfter := fromContinue;
                    stage := AwaitArrayBuffer audioBlob |} s, false).

(** The outer [catch] (lines 469-489). *)
Definition catchError (u : nat) (err : JsError) (s : St) : St :=
  let msg := match message err with Some m => m | None => [] end in
  let s :=
    if negb (truthy msg) || negb (includes msg (lit "decode"))
    then setError (lit "Transcription error: "
                     ++ (if truthy msg then msg else lit "Unknown error")) s
    else log (O_warn (lit "Audio decode error (skipping): " ++ msg)) s in
  release u s.

(** After [await audioBlob.arrayBuffer()] (lines 398-409). *)
Definition afterArrayBuffer (t : Task) (audioBlob : Blob) (r : Outcome unit) (s : St)
  : St * bool :=
  match r with
  | Rejected err => (catchError (utt t) err s, true)
  | Resolved _ =>
      let byteLength := size audioBlob in
      if byteLength =? 0 then (release (utt t) s, true)
      else
        (suspend {| utt := utt t; continueAfter := continueAfter t;
                    stage := AwaitDecode |}
           (log (O_decode (utt t) audioBlob) s), false)
  end.

Section Session.

(** [Math.sqrt], from the platform. *)
Variable Math_sqrt : Q -> Q.

(** The loop of [hasAudioContent] (lines 348-351). *)
Definition sumSquares (audioData : Float32Array) : Q :=
  fold_left (fun acc x => (acc + x * x)%Q) audioData 0%Q.

(** Line 352: the root-mean-square energy of the buffer. *)
Definition rmsOf (audioData : Float32Array) : Q :=
  Math_sqrt (sumSquares audioData / inject_Z (len audioData))%Q.

Definition hasAudioContent (audioData : Float32Array) (threshold : Q) : bool :=
  Qgtb (rmsOf audioData) threshold.

(** The literal [0.005] of line 432: the double nearest to 5/1000, which
    lies a little above it. *)
Definition audioFloor : Q :=
  Eval vm_compute in
    match Double.toQ (Double.div (Double.ofZ 5) (Double.ofZ 1000)) with
    | Some q => q
    | None => 0%Q
    end.

(** After [await audioContext.decodeAudioData(...)] (lines 408-449). *)
Definition afterDecode (t : Task) (r : Outcome AudioBuffer) (s : St) : St * bool :=
  match r with
  | Rejected decodeError =>
      let msg := match message decodeError with Some m => m | None => [] end in
      (release (utt t)
         (log (O_warn (lit "Failed to decode audio data, skipping this chunk: " ++ msg)) s),
       true)
  | Resolved audioBuffer =>
      let audioData := channelData audioBuffer in
      if len audioData <? 8000 then (release (utt t) s, true)
      else if negb (hasAudioContent audioData audioFloor) then (release (utt t) s, true)
      else
        let audioData :=
          if negb (Qeq_bool (sampleRate audioBuffer) 16000)
          then resampleAudio audioData (sampleRate audioBuffer) 16000
          else audioData in
        (suspend {| utt := utt t; continueAfter := continueAfter t;
                    stage := AwaitTranscribe |}
           (log (O_transcribe (utt t) audioData) s), false)
  end.

(** After [await transcriberRef.current(audioData, ...)] (lines 451-468).
    The engine's answer is [Some text] when [result.text] is a string and
    [None] when [result] or [result.text] is missing. *)
Definition afterTranscribe (t : Task) (r : Outcome (option str)) (s : St) : St * bool :=
  match r with
  | Rejected err => (catchError (utt t) err s, true)
  | Resolved result =>
      let s :=
        match result with
        | Some text =>
            if truthy text then
              let newText := cleanText text in
              if keepText newText
              then log (O_append (utt t) newText)
                     (set_transcript (appendTranscript newText (transcript s)) s)
              else s
            else s
        | None => s
        end in
      (release (utt t) s, true)
  end.

(** *** processAudioAndContinue (lines 315-343) *)

(** The part after [await processAudio()]. *)
Definition restartRecording (s : St) : St :=
  if streamActive s && isSome (mediaRecorderRef s) && negb (isProcessingRef s) then
    let s := set_audioChunksRef [] s in
    let s := set_lastSpeechTimeRef (clock s) s in
    match mediaRecorderRef s with
    | Some inactive => log O_recorderStart (set_mediaRecorderRef (Some recording) s)
    | _ => s
    end
  else s.

(** What runs when a call of [processAudio] has returned: its awaiting
    caller, if there is one. *)
Definition settled (fromContinue : bool) (r : St * bool) : St :=
  let (s, returned) := r in
  if returned && fromContinue then restartRecording s else s.

Definition processAudioAndContinue (s : St) : St :=
  let s := clearSilenceTimer s in
  settled true (processAudio true s).

(** *** Recorder callbacks (lines 142-156) *)

Definition ondataavailable (data : Blob) (s : St) : St :=
  if 0 <? size data then set_audioChunksRef (audioChunksRef s ++ [data]) s else s.

Definition onstop (s : St) : St :=
  if streamActive s && negb (isProcessingRef s) then processAudioAndContinue s else s.

(** *** stopListening (lines 190-227) *)

(** Lines 191-219: the timer, the recorder, the stream tracks, the audio
    context and the analysis node are let go, in this order. *)
Definition releaseCapture (s : St) : St :=
  let s := set_isListening false s in
  let s := clearSilenceTimer s in
  let s := match mediaRecorderRef s with
           | Some recording => recorderStop O_recorderStop s
           | _ => s
           end in
  let s := match streamRef s with
           | Some _ => set_streamRef None (log O_trackStop s)
           | None => s
           end in
  let s := if audioContextRef s
           then set_audioContextRef false (log O_contextClose s)
           else s in
  set_analyserRef false (log O_analyserRelease s).

(** Lines 221-226 follow: the remaining chunks are processed. *)
Definition stopListening (s : St) : St :=
  let s := releaseCapture s in
  if negb (isNil (audioChunksRef s)) && negb (isProcessingRef s)
  then settled false (processAudio false s)
  else s.

(** *** Voice activity detection (lines 230-312) *)

Definition bufferLength : Z := 2048.
Definition silenceThreshold : Q := 20.
Definition silenceDuration : Z := 1500.

(** Lines 249-255: the loudness of one frame of time-domain bytes. *)
Definition amplitudeOf (dataArray : list Z) : Q :=
  let sumSq :=
    fold_left (fun acc d =>
                 let normalized := ((inject_Z d - 128) / 128)%Q in
                 (acc + normalized * normalized)%Q) dataArray 0%Q in
  let rms := Math_sqrt (sumSq / inject_Z bufferLength)%Q in
  (rms * 255)%Q.

(** The callback of the silence timer (lines 283-299). *)
Definition silenceTimeout (s : St) : St :=
  match mediaRecorderRef s with
  | Some recording =>
      if streamActive s && negb (isProcessingRef s)
      then recorderStop O_boundary s
      else set_silenceTimerRef None s
  | _ => set_silenceTimerRef None s
  end.

Definition checkAudioLevel (dataArray : list Z) (s : St) : St :=
  if negb (analyserRef s) || negb (streamActive s) then s
  else
    let amplitude := amplitudeOf dataArray in
    let now := clock s in
    let s :=
      if Qgtb amplitude silenceThreshold then
        let s := set_lastSpeechTimeRef now s in
        let s := set_hasRecordedSpeechRef true (log O_speech s) in
        clearSilenceTimer s
      else
        let timeSinceLastSpeech := now - lastSpeechTimeRef s in
        if hasRecordedSpeechRef s
           && (silenceDuration <=? timeSinceLastSpeech)
           && negb (isNil (audioChunksRef s))
           && negb (isProcessingRef s)
           && negb (isSome (silenceTimerRef s))
           && match mediaRecorderRef s with Some recording => true | _ => false end
        then armSilenceTimer s
        else s in
    if streamActive s then set_frameRequested true s else s.

(** [clearTranscript] (lines 512-515). *)
Definition clearTranscript (s : St) : St := set_error None (set_transcript [] s).

(** *** The environment *)

Inductive Event :=
| EvClock (t : Z)                     (* time passes *)
| EvDataAvailable (data : Blob)       (* the recorder's [dataavailable] *)
| EvRecorderStop                      (* the recorder's [stop] *)
| EvFrame (dataArray : list Z)        (* an animation frame, with the 2048 bytes
                                         [getByteTimeDomainData] writes *)
| EvTimeout (id : nat)                (* a timeout fires *)
| EvStopListening                     (* the Stop button *)
| EvTrackEnded                        (* the capture device goes away *)
| EvClearTranscript                   (* the Clear button *)
| EvArrayBuffer (u : nat) (r : Outcome unit)        (* [arrayBuffer()] settles *)
| EvDecoded (u : nat) (r : Outcome AudioBuffer)     (* [decodeAudioData] settles *)
| EvTranscribed (u : nat) (r : Outcome (option str)). (* the engine settles *)

Definition findTask (u : nat) (s : St) : option Task :=
  find (fun t => Nat.eqb (utt t) u) (tasks s).

Definition dropTask (u : nat) (s : St) : St :=
  set_tasks (filter (fun t => negb (Nat.eqb (utt t) u)) (tasks s)) s.

(** When every track of the stream ends, the stream stops being active and
    a recording recorder stops by itself. *)
Definition trackEnded (s : St) : St :=
  match streamRef s with
  | Some _ =>
      let s := set_streamRef (Some false) s in
      match mediaRecorderRef s with
      | Some recording =>
          set_stopEvents (S (stopEvents s)) (set_mediaRecorderRef (Some inactive) s)
      | _ => s
      end
  | None => s
  end.

(** One turn of the event loop.  An event that cannot happen in [s] (a
    frame nobody requested, a timer that is not armed, the settlement of a
    promise nobody awaits) leaves the state as it is. *)
Definition step (s : St) (e : Event) : St :=
  match e with
  | EvClock t => if clock s <=? t then set_clock t s else s
  | EvDataAvailable data =>
      match mediaRecorderRef s, stopEvents s with
      | Some recording, _ | _, S _ => ondataavailable data s
      | _, _ => s
      end
  | EvRecorderStop =>
      match stopEvents s with
      | S n => onstop (set_stopEvents n s)
      | O => s
      end
  | EvFrame dataArray =>
      if frameRequested s
      then checkAudioLevel dataArray (set_frameRequested false s)
      else s
  | EvTimeout id =>
      if existsb (Nat.eqb id) (timers s)
      then silenceTimeout
             (set_timers (filter (fun j => negb (Nat.eqb j id)) (timers s)) s)
      else s
  | EvStopListening => stopListening s
  | EvTrackEnded => trackEnded s
  | EvClearTranscript => clearTranscript s
  | EvArrayBuffer u r =>
      match findTask u s with
      | Some t =>
          match stage t with
          | AwaitArrayBuffer audioBlob =>
              settled (continueAfter t) (afterArrayBuffer t audioBlob r (dropTask u s))
          | _ => s
          end
      | None => s
      end
  | EvDecoded u r =>
      match findTask u s with
      | Some t =>
          match stage t with
          | AwaitDecode =>
              settled (continueAfter t) (afterDecode t r (dropTask u s))
          | _ => s
          end
      | None => s
      end
  | EvTranscribed u r =>
      match findTask u s with
      | Some t =>
          match stage t with
          | AwaitTranscribe =>
              settled (continueAfter t) (afterTranscribe t r (dropTask u s))
          | _ => s
          end
      | None => s
      end
  end.

Definition run (s : St) (evs : list Event) : St := fold_left step evs s.

(** The state [startListening] leaves (lines 113-182) when the microphone
    is granted at time [t0], on a freshly mounted component whose model is
    loaded: the recorder records, the stream is active, the first frame of
    the detection loop is due. *)
Definition started (t0 : Z) : St :=
  {| mediaRecorderRef := Some recording; audioChunksRef := [];
     streamRef := Some true; transcriberRef := true; isProcessingRef := false;
     analyserRef := true; audioContextRef := true; silenceTimerRef := None;
     lastSpeechTimeRef := t0; hasRecordedSpeechRef := false;
     isListening := true; transcript := []; isProcessing := false;
     error := None; clock := t0; timers := []; nextTimer := 0%nat;
     stopEvents := 0%nat; frameRequested := true; tasks := [];
     nextUtterance := 0%nat; trace := [] |}.

(** *** Readings of the history *)

(** What the handlers did, oldest first. *)
Definition history (s : St) : list Obs := rev (trace s).

Definition isTranscribe (o : Obs) : bool :=
  match o with O_transcribe _ _ => true | _ => false end.

Definition isDecode (o : Obs) : bool :=
  match o with O_decode _ _ => true | _ => false end.

Definition isAccept (o : Obs) : bool :=
  match o with O_accept _ _ => true | _ => false end.

Definition isSetError (o : Obs) : bool :=
  match o with O_setError _ => true | _ => false end.

Definition isWarn (o : Obs) : bool :=
  match o with O_warn _ => true | _ => false end.

Definition isBoundary (o : Obs) : bool :=
  match o with O_boundary => true | _ => false end.

Definition isSpeech (o : Obs) : bool :=
  match o with O_speech => true | _ => false end.

Definition isAppend (o : Obs) : bool :=
  match o with O_append _ _ => true | _ => false end.

Definition isSetTimeout (o : Obs) : bool :=
  match o with O_setTimeout _ => true | _ => false end.

(** A release of the capture resources: the silence timer, the stream
    tracks, the audio context, the analysis node. *)
Definition isRelease (o : Obs) : bool :=
  match o with
  | O_clearTimeout _ | O_trackStop | O_contextClose | O_analyserRelease => true
  | _ => false
  end.

Definition count (p : Obs -> bool) (tr : list Obs) : nat := length (filter p tr).

Definition none (p : Obs -> bool) (tr : list Obs) : bool := forallb (fun o => negb (p o)) tr.

(** The utterance numbers of the appended segments of a history, in the
    order of the appends. *)
Definition appended (h : list Obs) : list nat :=
  flat_map (fun o => match o with O_append u _ => [u] | _ => [] end) h.

(** The suspended call, when there is one. *)
Definition inFlight (s : St) : option nat :=
  match tasks s with
  | t :: _ => Some (utt t)
  | [] => None
  end.

(** Serial processing, read off a trace: the pair is the utterance being
    processed, if any, and the number the next one will get.  A hand-off is
    accepted, a boundary fires and the recorder is restarted only while
    nothing is processed; the decoder, the engine and the transcript are
    used, and the flag released, only for the utterance being processed. *)
Definition serialStep (st : option (option nat * nat)) (o : Obs)
  : option (option nat * nat) :=
  match st with
  | None => None
  | Some (cur, next) =>
      let isCur (u : nat) :=
        match cur with Some v => Nat.eqb u v | None => false end in
      match o with
      | O_accept u _ =>
          if negb (isSome cur) && Nat.eqb u next then Some (Some u, S next) else None
      | O_decode u _ | O_transcribe u _ | O_append u _ =>
          if isCur u then st else None
      | O_release u => if isCur u then Some (None, next) else None
      | O_recorderStart | O_boundary => if isSome cur then None else st
      | _ => st
      end
  end.

Definition serialFrom (st : option (option nat * nat)) (tr : list Obs) :=
  fold_right (fun o acc => serialStep acc o) st tr.

Definition serial (tr : list Obs) : option (option nat * nat) :=
  serialFrom (Some (None, 0%nat)) tr.

(** The claim on the silence detector, read off a history: every boundary
    comes after a frame above the threshold that is later than the previous
    boundary.  [heard] tells whether such a frame has been seen. *)
Fixpoint speechBeforeEachBoundary (heard : bool) (h : list Obs) : bool :=
  match h with
  | [] => true
  | O_speech :: h' => speechBeforeEachBoundary true h'
  | O_boundary :: h' => heard && speechBeforeEachBoundary false h'
  | _ :: h' => speechBeforeEachBoundary heard h'
  end.

(** Every frame of the run is at or below the threshold. *)
Definition quiet (evs : list Event) : bool :=
  forallb (fun e => match e with
                    | EvFrame dataArray => negb (Qgtb (amplitudeOf dataArray) silenceThreshold)
                    | _ => true
                    end) evs.

(** The position of the first observation satisfying [p]. *)
Fixpoint firstIndex (p : Obs -> bool) (h : list Obs) : option nat :=
  match h with
  | [] => None
  | o :: h' => if p o then Some 0%nat else option_map S (firstIndex p h')
  end.

(** The claim on [stopListening], read off the history of the call: a
    hand-off is there and every release comes after it. *)
Definition handoffBeforeReleases (h : list Obs) : bool :=
  match firstIndex isAccept h with
  | Some i => none isRelease (firstn i h)
  | None => false
  end.

End Session.

(** *** Invariants of the event loop *)

(** The protocol state of a trace: [cur] is the utterance being processed,
    and the busy flag is set exactly when there is one. *)
Definition Proto (cur : option nat) (s : St) : Prop :=
  serial (trace s) = Some (cur, nextUtterance s)
  /\ isProcessingRef s = isSome cur.

(** Observations the serial reading lets pass in every state. *)
Definition neutral (o : Obs) : bool :=
  match o with
  | O_accept _ _ | O_decode _ _ | O_transcribe _ _ | O_append _ _
  | O_release _ | O_recorderStart | O_boundary => false
  | _ => true
  end.

(** [s'] comes from [s] by a handler that stays out of the processing:
    it leaves the flag, the suspended calls and the numbering alone and
    adds only neutral observations. *)
Definition Bystander (s s' : St) : Prop :=
  nextUtterance s' = nextUtterance s
  /\ isProcessingRef s' = isProcessingRef s
  /\ tasks s' = tasks s
  /\ exists l, trace s' = l ++ trace s /\ forallb neutral l = true.

(** What holds between two turns of the event loop: the trace is serial up
    to the call in flight, and at most one call is suspended. *)
Definition Serial (s : St) : Prop :=
  Proto (inFlight s) s /\ (length (tasks s) <= 1)%nat.

(** What holds when a call of [processAudio] returns or suspends again,
    given that it was the only one: either it returned, the flag is clear
    and nothing is suspended, or it is the one suspended call. *)
Definition CallPost (r : St * bool) : Prop :=
  if snd r
  then Proto None (fst r) /\ tasks (fst r) = []
  else exists t, tasks (fst r) = [t] /\ Proto (Some (utt t)) (fst r).

(** [s'] comes from [s] by a handler that leaves the detector alone: the
    has-speech flag is kept, no timer is armed and no boundary fires. *)
Definition Calm (s s' : St) : Prop :=
  hasRecordedSpeechRef s' = hasRecordedSpeechRef s
  /\ (timers s = [] -> timers s' = [])
  /\ count isSetTimeout (trace s') = count isSetTimeout (trace s)
  /\ count isBoundary (trace s') = count isBoundary (trace s).

(** What holds as long as no frame was above the threshold. *)
Definition NeverHeard (s : St) : Prop :=
  hasRecordedSpeechRef s = false
  /\ timers s = []
  /\ count isSetTimeout (trace s) = 0%nat
  /\ count isBoundary (trace s) = 0%nat.

(* ================================================================== *)
(** ** Concrete inputs used by the examples below *)

(** A square root that is exact on the squares of rationals with a
    denominator up to [2^40], rounded down otherwise. *)
Definition sqrtApprox (x : Q) : Q :=
  (Z.sqrt (Qnum x * 4 ^ 40 / Zpos (Qden x)) # 2 ^ 40)%Q.

(** Two frames of the analyser: full-scale bytes and the mid-point 128
    (no signal). *)
Definition loudFrame : list Z := repeat 255 2048.
Definition silentFrame : list Z := repeat 128 2048.

Definition someChunk : Blob := [26; 69; 223; 163]%N.

Definition decodeFailure : JsError :=
  {| message := Some (lit "Unable to decode audio data") |}.

(** Speech, then silence: the timer fires a boundary and the buffer is
    handed off and sent to the decoder. *)
Definition firstBoundary : list Event :=
  [ EvFrame loudFrame; EvDataAvailable someChunk;
    EvClock 1500; EvFrame silentFrame;
    EvClock 1600; EvTimeout 0; EvDataAvailable someChunk; EvRecorderStop;
    EvArrayBuffer 0 (Resolved tt) ].

(** The buffer then fails to decode and the recorder is restarted; silence
    goes on and the timer fires again. *)
Definition silenceGoesOn : list Event :=
  [ EvDecoded 0 (Rejected decodeFailure);
    EvDataAvailable someChunk;
    EvClock 3100; EvFrame silentFrame;
    EvClock 3200; EvTimeout 1 ].

(** A session that has buffered one chunk and processes nothing. *)
Definition buffering : St :=
  Eval vm_compute in run sqrtApprox (started 0) [EvDataAvailable someChunk].

(** A session whose first utterance is at the decoder. *)
Definition awaitingDecode : St :=
  Eval vm_compute in run sqrtApprox (started 0) firstBoundary.

Definition shortBuffer : AudioBuffer :=
  {| sampleRate := 16000; channelData := [1 # 2; 1 # 2; 1 # 2]%Q |}.


Definition voicedBuffer : AudioBuffer :=
  {| sampleRate := 16000; channelData := repeat (1 # 2)%Q 8000 |}.

(** The same session once the decoder has answered with [voicedBuffer]:
    the utterance is at the engine. *)
Definition awaitingTranscribe : St :=
  Eval vm_compute in step sqrtApprox awaitingDecode (EvDecoded 0 (Resolved voicedBuffer)).

(** The suspended call of [awaitingDecode] and of [awaitingTranscribe]. *)
Definition decodingTask : Task :=
  {| utt := 0; continueAfter := true; stage := AwaitDecode |}.

Definition transcribingTask : Task :=
  {| utt := 0; continueAfter := true; stage := AwaitTranscribe |}.

Definition sixSamples : Float32Array := [1; 2; 3; 4; 5; 6]%Q.

(** Two arrays of the code's numbers. *)
Definition squareWave : ResampleDouble.Float32Array := map Double.ofZ [0; 1; 0; 1; 0; 1; 0].

Definition sevenSamples : ResampleDouble.Float32Array :=
  map Double.ofZ [1; 2; 3; 4; 5; 6; 7].

(* ================================================================== *)
(** ** More of the component *)

(** *** cleanup (lines 75-111) *)

(** What the effect of unmounting runs.  The recorder is stopped when it
    records and its ref is dropped; the buffer is emptied without a
    hand-off; the busy flag is cleared (the React state [isProcessing] is
    not touched). *)
Definition cleanup (s : St) : St :=
  let s := clearSilenceTimer s in
  let s := match mediaRecorderRef s with
           | Some recording => recorderStop O_recorderStop s
           | _ => s
           end in
  let s := set_mediaRecorderRef None s in
  let s := if audioContextRef s
           then set_audioContextRef false (log O_contextClose s)
           else s in
  let s := set_analyserRef false (log O_analyserRelease s) in
  let s := match streamRef s with
           | Some _ => set_streamRef None (log O_trackStop s)
           | None => s
           end in
  let s := set_audioChunksRef [] s in
  let s := set_isListening false s in
  let s := set_isProcessingRef false s in
  set_lastSpeechTimeRef 0 s.

(** *** More readings of the history *)

Definition isRecorderStart (o : Obs) : bool :=
  match o with O_recorderStart => true | _ => false end.

Definition isRelease_flag (o : Obs) : bool :=
  match o with O_release _ => true | _ => false end.

(** *** More invariants of the event loop *)

(** A string that is empty or has no white space at either end. *)
Definition edgeClean (x : str) : bool :=
  match x with
  | [] => true
  | c :: _ => negb (isWhiteSpace c) && negb (isWhiteSpace (last x c))
  end.

(** House-keeping facts of a session: the React mirror of the busy flag
    agrees with it, no buffered chunk is empty, at most one timeout is
    armed and the timer ref holds it, the recorder ref and the model are
    there, and the transcript has clean edges. *)
Definition Tidy (s : St) : Prop :=
  isProcessing s = isProcessingRef s
  /\ forallb (fun b => 0 <? size b) (audioChunksRef s) = true
  /\ (timers s = [] \/ exists id, timers s = [id] /\ silenceTimerRef s = Some id)
  /\ isSome (mediaRecorderRef s) = true
  /\ transcriberRef s = true
  /\ edgeClean (transcript s) = true.

(** [s'] comes from [s] by a handler that, once the stream is not active,
    keeps it so and neither hears speech, arms a timer, fires a boundary
    nor starts the recorder. *)
Definition Lull (s s' : St) : Prop :=
  streamActive s = false ->
  streamActive s' = false
  /\ count isSpeech (trace s') = count isSpeech (trace s)
  /\ count isSetTimeout (trace s') = count isSetTimeout (trace s)
  /\ count isBoundary (trace s') = count isBoundary (trace s)
  /\ count isRecorderStart (trace s') = count isRecorderStart (trace s).

(** The recorder as the trace tells it: [Some true] while it records.  A
    [stop()] needs a recording recorder, a [start()] a stopped one. *)
Definition recorderStep (st : option bool) (o : Obs) : option bool :=
  match st with
  | None => None
  | Some on =>
      match o with
      | O_boundary | O_recorderStop => if on then Some false else None
      | O_recorderStart => if on then None else Some true
      | _ => st
      end
  end.

Definition recorderLog (tr : list Obs) : option bool :=
  fold_right (fun o acc => recorderStep acc o) (Some true) tr.

(** The recorder of a session: the trace is a legal life of a recorder; a
    recorder that records is recording in the trace; where the two differ
    the tracks have ended. *)
Definition RecorderOk (s : St) : Prop :=
  exists on,
    recorderLog (trace s) = Some on
    /\ (mediaRecorderRef s = Some recording -> on = true)
    /\ (on = true -> mediaRecorderRef s <> Some recording -> streamActive s = false).

(** *** Readings of a settlement *)

(** A rejection that reaches the outer [catch]: of [arrayBuffer] or of the
    engine. *)
Definition reachesCatch (t : Task) (u : nat) (err : JsError) (e : Event) : Prop :=
  (stage t = AwaitTranscribe /\ e = EvTranscribed u (Rejected err))
  \/ (exists audioBlob, stage t = AwaitArrayBuffer audioBlob
                        /\ e = EvArrayBuffer u (Rejected err)).

(** [err.message], the empty string when there is none. *)
Definition messageOf (err : JsError) : str :=
  match message err with Some m => m | None => [] end.

(** How a settlement ends: the call returns through [release], or it is
    suspended again, one stage further. *)
Definition Returns (t : Task) (s0 : St) (r : St * bool) : Prop :=
  snd r = true
  /\ exists s1, fst r = release (utt t) s1
                /\ tasks s1 = tasks s0
                /\ count isRelease_flag (trace s1) = count isRelease_flag (trace s0).

Definition Suspends (t : Task) (next : Stage) (s0 : St) (r : St * bool) : Prop :=
  snd r = false
  /\ exists s1, fst r = suspend {| utt := utt t; continueAfter := continueAfter t;
                                   stage := next |} s1
                /\ tasks s1 = tasks s0
                /\ count isRelease_flag (trace s1) = count isRelease_flag (trace s0).

(** Observations that are no call on the recorder. *)
Definition plainRec (o : Obs) : bool :=
  match o with
  | O_boundary | O_recorderStop | O_recorderStart => false
  | _ => true
  end.

(** A history in which two stops of the recorder (by the silence timer or
    by Stop) are never adjacent: between two of them there is a start.
    [stopped] tells whether the last call was a stop. *)
Fixpoint stopsApart (stopped : bool) (h : list Obs) : bool :=
  match h with
  | [] => true
  | O_boundary :: h' | O_recorderStop :: h' => negb stopped && stopsApart true h'
  | O_recorderStart :: h' => stopsApart false h'
  | _ :: h' => stopsApart stopped h'
  end.

(** *** A reading of sample arrays *)

(** Every sample lies between [lo] and [hi]. *)
Definition within (lo hi : Q) (a : Float32Array) : Prop :=
  Forall (fun x => (lo <= x <= hi)%Q) a.

(** *** More concrete inputs *)

(** [buffering] after Stop: the buffer was handed off and the call waits
    for [arrayBuffer]; everything is released. *)
Definition flushing : St := Eval vm_compute in stopListening buffering.

(** The suspended call of [flushing]. *)
Definition flushingTask : Task :=
  {| utt := 0; continueAfter := false; stage := AwaitArrayBuffer someChunk |}.

Definition engineFailure : JsError :=
  {| message := Some (lit "Network request failed") |}.


(** What can still arrive after Stop: the timeout that was pending, a frame
    of the analyser, the recorder's [stop] event. *)
Definition lateEvents : list Event :=
  [EvTimeout 0; EvFrame silentFrame; EvRecorderStop].

(** [mediaRecorderRef.current && mediaRecorderRef.current.state === 'recording']. *)
Definition isRecording (s : St) : bool :=
  match mediaRecorderRef s with Some recording => true | _ => false end.

(** While a timeout is pending, what the detector checked when it armed it
    still holds: nothing is processed, the silence has lasted, something is
    buffered and speech was heard. *)
Definition Patient (s : St) : Prop :=
  timers s = []
  \/ (isProcessingRef s = false
      /\ silenceDuration <= clock s - lastSpeechTimeRef s
      /\ isNil (audioChunksRef s) = false
      /\ hasRecordedSpeechRef s = true).

(* ================================================================== *)
(** * Properties *)

Unset Implicit Arguments.

(** ** The text filter *)

Module TextFacts.
Import Text.

Definition allWhiteSpace (w : str) : Prop := forallb isWhiteSpace w = true.

(** White space is no character of the token, in any case. *)
Lemma whitespace_not_in_token (c p : N) :
  isWhiteSpace c = true -> In p BLANK_AUDIO ->
  N.eqb (canonicalize c) (canonicalize p) = false.
Proof.
  unfold isWhiteSpace, whitespace_code_units. simpl. intros Hc Hp.
  repeat (apply orb_prop in Hc; destruct Hc as [ Hc | Hc ]);
    try discriminate;
    apply N.eqb_eq in Hc; subst c;
    repeat (destruct Hp as [ <- | Hp ]; [ reflexivity | ]); destruct Hp.
Qed.

Lemma matchesAt_length (pat s : str) :
  matchesAt pat s = true -> (length pat <= length s)%nat.
Proof.
  revert s. induction pat as [ | p pat IH ]; simpl; intros s H; [ lia | ].
  destruct s as [ | c s ]; [ discriminate | ].
  apply andb_prop in H. destruct H as [_ H]. apply IH in H. simpl. lia.
Qed.

(** White space after the text changes no match. *)
Lemma matchesAt_app_ws (pat x w : str) :
  incl pat BLANK_AUDIO -> allWhiteSpace w ->
  matchesAt pat (x ++ w) = matchesAt pat x.
Proof.
  unfold allWhiteSpace.
  revert x. induction pat as [ | p pat IH ]; simpl; intros x Hp Hw; [ reflexivity | ].
  assert (Hpat : incl pat BLANK_AUDIO) by (intros q Hq; apply Hp; now right).
  destruct x as [ | c x ]; simpl.
  - destruct w as [ | c w ]; [ reflexivity | ].
    simpl in Hw. apply andb_prop in Hw. destruct Hw as [Hc _].
    rewrite (whitespace_not_in_token c p Hc); [ reflexivity | ].
    apply Hp. now left.
  - now rewrite IH.
Qed.

Lemma replaceFrom_ws_head (c : N) (s : str) :
  isWhiteSpace c = true -> replaceFrom 0 (c :: s) = c :: replaceFrom 0 s.
Proof.
  intros Hc. simpl.
  replace (N.eqb (canonicalize c) (canonicalize 91)) with false; [ reflexivity | ].
  symmetry. apply whitespace_not_in_token; [ exact Hc | now left ].
Qed.

Lemma replaceFrom_ws (w : str) : allWhiteSpace w -> replaceFrom 0 w = w.
Proof.
  unfold allWhiteSpace. induction w as [ | c w IH ]; [ reflexivity | ].
  intros H. simpl in H. apply andb_prop in H. destruct H as [Hc Hw].
  rewrite replaceFrom_ws_head by exact Hc. now rewrite IH.
Qed.

(** White space after the text stays where it is. *)
Lemma replaceFrom_app_ws (a w : str) (skip : nat) :
  (skip <= length a)%nat -> allWhiteSpace w ->
  replaceFrom skip (a ++ w) = replaceFrom skip a ++ w.
Proof.
  intros Hs Hw. revert skip Hs.
  induction a as [ | c a IH ]; intros skip Hs.
  - simpl in Hs. assert (skip = 0%nat) by lia. subst skip.
    simpl. now apply replaceFrom_ws.
  - destruct skip as [ | k ].
    + change (replaceFrom 0 ((c :: a) ++ w))
        with (if matchesAt BLANK_AUDIO ((c :: a) ++ w)
              then replaceFrom (length BLANK_AUDIO - 1) (a ++ w)
              else c :: replaceFrom 0 (a ++ w)).
      change (replaceFrom 0 (c :: a))
        with (if matchesAt BLANK_AUDIO (c :: a)
              then replaceFrom (length BLANK_AUDIO - 1) a
              else c :: replaceFrom 0 a).
      rewrite matchesAt_app_ws by (auto using incl_refl).
      destruct (matchesAt BLANK_AUDIO (c :: a)) eqn:E.
      * apply IH. apply matchesAt_length in E. simpl in *. lia.
      * simpl. f_equal. apply IH. lia.
    + simpl. apply IH. simpl in Hs. lia.
Qed.

Lemma trimStart_replace (t : str) :
  trimStart (replaceBlankAudio (trimStart t)) = trimStart (replaceBlankAudio t).
Proof.
  unfold replaceBlankAudio. induction t as [ | c t IH ]; [ reflexivity | ].
  cbn [trimStart]. destruct (isWhiteSpace c) eqn:Hc; [ | reflexivity ].
  rewrite (replaceFrom_ws_head c t Hc). cbn [trimStart]. now rewrite Hc.
Qed.

Lemma trimStart_app_ws (w y : str) : allWhiteSpace w -> trimStart (w ++ y) = trimStart y.
Proof.
  unfold allWhiteSpace. induction w as [ | c w IH ]; simpl; [ reflexivity | ].
  intros H. apply andb_prop in H. destruct H as [Hc Hw]. rewrite Hc. now apply IH.
Qed.

Lemma trimStart_split (y : str) : exists w, allWhiteSpace w /\ y = w ++ trimStart y.
Proof.
  unfold allWhiteSpace. induction y as [ | c y (w & Hw & E) ]; simpl.
  - exists []. auto.
  - destruct (isWhiteSpace c) eqn:Hc.
    + exists (c :: w). simpl. rewrite Hc, Hw. split; [ reflexivity | now f_equal ].
    + exists []. auto.
Qed.

Lemma allWhiteSpace_rev (w : str) : allWhiteSpace w -> allWhiteSpace (rev w).
Proof.
  unfold allWhiteSpace. rewrite !forallb_forall. intros H c Hc.
  apply H. now apply in_rev.
Qed.

Lemma trimEnd_app_ws (x w : str) : allWhiteSpace w -> trimEnd (x ++ w) = trimEnd x.
Proof.
  intros Hw. unfold trimEnd. rewrite rev_app_distr.
  now rewrite trimStart_app_ws by (now apply allWhiteSpace_rev).
Qed.

Lemma trimEnd_split (t : str) : exists w, allWhiteSpace w /\ t = trimEnd t ++ w.
Proof.
  destruct (trimStart_split (rev t)) as (w & Hw & E).
  exists (rev w). split; [ now apply allWhiteSpace_rev | ].
  unfold trimEnd. rewrite <- rev_app_distr, <- E. now rewrite rev_involutive.
Qed.

Lemma trim_app_ws (x w : str) : allWhiteSpace w -> trim (x ++ w) = trim x.
Proof.
  intros Hw. unfold trim. induction x as [ | c x IH ].
  - simpl. rewrite <- (app_nil_r w) at 1. now rewrite trimStart_app_ws.
  - simpl. destruct (isWhiteSpace c); [ exact IH | ].
    now apply (trimEnd_app_ws (c :: x)).
Qed.

(** The filter of the code (trim, remove, trim) is the filter of the spec
    (remove, then trim): the first [trim] changes nothing in the end. *)
Lemma cleanText_refines (text : str) : cleanText text = cleanText_spec text.
Proof.
  unfold cleanText, cleanText_spec. cbv zeta.
  transitivity (trim (replaceBlankAudio (trimStart text))).
  - unfold trim at 2.
    destruct (trimEnd_split (trimStart text)) as (w & Hw & E).
    rewrite E at 2. unfold replaceBlankAudio.
    rewrite replaceFrom_app_ws by (lia || exact Hw).
    now rewrite trim_app_ws.
  - unfold trim. now rewrite trimStart_replace.
Qed.

End TextFacts.

(** ** resampleAudio *)

Module ResampleFacts.
Import Resample.

Open Scope Q_scope.

Lemma Qfloor_lt_Z (x : Q) (n : Z) : x < inject_Z n -> (Qfloor x < n)%Z.
Proof.
  intros H. rewrite Zlt_Qlt.
  eapply Qle_lt_trans; [apply Qfloor_le | exact H].
Qed.

Lemma Qfloor_nonneg (x : Q) : 0 <= x -> (0 <= Qfloor x)%Z.
Proof.
  intros H. change 0%Z with (Qfloor 0).
  now apply Qfloor_resp_le.
Qed.

Lemma Math_round_le (x : Q) : inject_Z (Math_round x) <= x + (1 # 2).
Proof. unfold Math_round. apply Qfloor_le. Qed.

(** The length the code computes is the one the spec writes. *)
Lemma newLength_formula (a : Float32Array) (fromRate toRate : Q) :
  0 < fromRate -> 0 < toRate ->
  newLength a (fromRate / toRate)
  = Math_round (inject_Z (len a) * toRate / fromRate).
Proof.
  intros Hf Ht. unfold newLength, Math_round.
  apply Qfloor_comp.
  assert (~ fromRate == 0) by (intro E; rewrite E in Hf; discriminate).
  assert (~ toRate == 0) by (intro E; rewrite E in Ht; discriminate).
  field. split; assumption.
Qed.

(** Below the new length, the source position stays below the input
    length: [i * ratio <= length - ratio / 2]. *)
Lemma position_below_length (a : Float32Array) (ratio : Q) (i : Z) :
  0 < ratio -> (i < newLength a ratio)%Z ->
  inject_Z i * ratio < inject_Z (len a).
Proof.
  intros Hr Hi.
  assert (Hn : inject_Z (i + 1) <= inject_Z (len a) / ratio + (1 # 2)).
  { eapply Qle_trans; [ | apply Math_round_le ].
    rewrite <- Zle_Qle. unfold newLength in Hi. lia. }
  rewrite inject_Z_plus in Hn.
  assert (Hm : (inject_Z i + inject_Z 1) * ratio
               <= (inject_Z (len a) / ratio + (1 # 2)) * ratio).
  { apply Qmult_le_compat_r; [exact Hn | now apply Qlt_le_weak]. }
  assert (Hq : (inject_Z (len a) / ratio + (1 # 2)) * ratio
               == inject_Z (len a) + (1 # 2) * ratio).
  { field. intro E. rewrite E in Hr. discriminate. }
  rewrite Hq in Hm.
  assert (He : (inject_Z i + inject_Z 1) * ratio == inject_Z i * ratio + ratio)
    by (change (inject_Z 1) with 1; ring).
  rewrite He in Hm.
  lra.
Qed.

Lemma indexFloor_in_bounds (a : Float32Array) (ratio : Q) (i : Z) :
  0 < ratio -> (0 <= i < newLength a ratio)%Z -> inBounds a (indexFloor ratio i).
Proof.
  intros Hr [Hi0 Hi]. unfold inBounds, indexFloor, Math_floor. split.
  - apply Qfloor_nonneg. apply Qmult_le_0_compat.
    + change (inject_Z 0 <= inject_Z i). now rewrite <- Zle_Qle.
    + now apply Qlt_le_weak.
  - pose proof (Qfloor_lt_Z _ _ (position_below_length a ratio i Hr Hi)). lia.
Qed.

Lemma get_in_bounds (a : Float32Array) (k : Z) :
  inBounds a k -> nth_error a (Z.to_nat k) = Some (get a k).
Proof.
  unfold inBounds, get, len. intros H.
  apply nth_error_nth'. lia.
Qed.


End ResampleFacts.

(* ================================================================== *)
(** ** The resampler in the arithmetic of the code *)

Module ResampleDoubleFacts.
Import SpecFloat Double ResampleDouble.

Open Scope Z_scope.

(** The double of the literal [0.005] is the threshold of [processAudio]. *)
Lemma audioFloor_double :
  toQ (div (ofZ 5) (ofZ 1000)) = Some audioFloor
  /\ audioFloor = (5764607523034235 # 1152921504606846976)%Q
  /\ (5 # 1000 < audioFloor)%Q.
Proof. repeat split. Qed.

(** A read at an integer index of the array gives the element. *)
Lemma get_element (a : Float32Array) (k : number) (z : Z) (x : number) :
  integerOf k = Some z -> 0 <= z -> nth_error a (Z.to_nat z) = Some x -> get a k = x.
Proof.
  intros Hk Hz Hx. unfold get. rewrite Hk.
  destruct (0 <=? z) eqn:E; [ now rewrite Hx | apply Z.leb_gt in E; lia ].
Qed.

(** C9, as amended.  [resampleAudio] returns its input, the same array,
    when the two rates are equal as numbers.  Otherwise the result has
    [Math.round(length / (fromRate / toRate))] elements, the two divisions
    rounded to doubles, whenever that is a length an array can have; and
    the element at [i] is the linear interpolation
    [x * (1 - frac) + y * frac] of the input elements [x] at [floor(i * r)]
    and [y] at [min(floor(i * r) + 1, length - 1)], with [r = fromRate /
    toRate] and [frac = i * r - floor(i * r)], every operation rounded to a
    double and the sum rounded to a binary32 value when it is stored. *)
Theorem resampleAudio_rounded_interpolation
    (audioData : Float32Array) (fromRate toRate : number) :
  (strictEq fromRate toRate = true ->
   resampleAudio audioData fromRate toRate = Some audioData)
  /\ (strictEq fromRate toRate = false ->
      let r := div fromRate toRate in
      forall n : nat,
        arrayLength (Math_round (div (ofZ (len audioData)) r)) = Some n ->
        exists out,
          resampleAudio audioData fromRate toRate = Some out
          /\ length out = n
          /\ forall (i : nat) (kFloor kCeil : Z) (x y : number),
               (i < n)%nat ->
               let index := mul (ofZ (Z.of_nat i)) r in
               let frac := sub index (Math_floor index) in
               integerOf (Math_floor index) = Some kFloor ->
               integerOf (Math_min (add (Math_floor index) one)
                                   (sub (ofZ (len audioData)) one)) = Some kCeil ->
               0 <= kFloor -> nth_error audioData (Z.to_nat kFloor) = Some x ->
               0 <= kCeil -> nth_error audioData (Z.to_nat kCeil) = Some y ->
               nth_error out i
               = Some (fround (add (mul x (sub one frac)) (mul y frac)))).
Proof.
  unfold resampleAudio. split.
  - now intros ->.
  - intros -> n Hn. unfold newLength. rewrite Hn.
    eexists. split; [ reflexivity | ].
    split; [ now rewrite length_map, length_seq | ].
    intros i kFloor kCeil x y Hi HkF HkC HF Hx HC Hy.
    rewrite nth_error_map, nth_error_seq.
    apply Nat.ltb_lt in Hi. rewrite Hi. simpl option_map.
    unfold interpolate. cbv zeta.
    rewrite (get_element audioData _ kFloor x HkF HF Hx).
    rewrite (get_element audioData _ kCeil y HkC HC Hy).
    reflexivity.
Qed.

End ResampleDoubleFacts.

(** ** The session *)

(** *** The trace of one handler *)

Lemma Proto_same (cur : option nat) (s s' : St) :
  trace s' = trace s -> nextUtterance s' = nextUtterance s ->
  isProcessingRef s' = isProcessingRef s -> Proto cur s -> Proto cur s'.
Proof. unfold Proto. intros -> -> ->. auto. Qed.

Lemma Serial_same (s s' : St) :
  trace s' = trace s -> nextUtterance s' = nextUtterance s ->
  isProcessingRef s' = isProcessingRef s -> tasks s' = tasks s ->
  Serial s -> Serial s'.
Proof.
  unfold Serial, inFlight. intros Ht Hn Hf Hk [HP HL]. rewrite Hk.
  split; [ | exact HL ]. eapply Proto_same; eauto.
Qed.

Lemma Proto_log (cur : option nat) (o : Obs) (s : St) :
  neutral o = true -> Proto cur s -> Proto cur (log o s).
Proof.
  unfold Proto, serial. simpl. intros Hn [-> Hf].
  destruct o; try discriminate; simpl; auto.
Qed.

Lemma Proto_log_idle (o : Obs) (s : St) :
  o = O_recorderStart \/ o = O_boundary -> Proto None s -> Proto None (log o s).
Proof.
  unfold Proto, serial. simpl. intros Ho [-> Hf].
  destruct Ho; subst o; simpl; auto.
Qed.

Lemma Serial_idle (s : St) :
  Serial s -> isProcessingRef s = false -> Proto None s /\ tasks s = [].
Proof.
  unfold Serial, inFlight, Proto. intros [[Ht Hf] _] Hflag.
  destruct (tasks s); simpl in *; [ auto | congruence ].
Qed.

Lemma Serial_of_idle (s : St) : Proto None s -> tasks s = [] -> Serial s.
Proof.
  unfold Serial, inFlight. intros HP ->. simpl. auto.
Qed.

Lemma Serial_of_CallPost_idle (c : bool) (s : St) :
  Proto None s -> tasks s = [] -> Serial (restartRecording s).
Proof.
  intros HP Hk. unfold restartRecording.
  destruct (streamActive s && isSome (mediaRecorderRef s) && negb (isProcessingRef s));
    [ | now apply Serial_of_idle ].
  cbv zeta. simpl.
  destruct (mediaRecorderRef s) as [ [ | ] | ]; simpl.
  - apply Serial_of_idle; [ | exact Hk ].
    apply Proto_log_idle; [ now left | ].
    eapply Proto_same; [ | | | exact HP ]; reflexivity.
  - apply Serial_of_idle; [ | exact Hk ].
    eapply Proto_same; [ | | | exact HP ]; reflexivity.
  - apply Serial_of_idle; [ | exact Hk ].
    eapply Proto_same; [ | | | exact HP ]; reflexivity.
Qed.

Lemma settled_Serial (c : bool) (r : St * bool) : CallPost r -> Serial (settled c r).
Proof.
  destruct r as [s b]. unfold CallPost, settled. simpl.
  destruct b; simpl.
  - intros [HP Hk]. destruct c.
    + now apply (Serial_of_CallPost_idle true).
    + now apply Serial_of_idle.
  - intros (t & Hk & HP). unfold Serial, inFlight. rewrite Hk. simpl. auto.
Qed.

Lemma processAudio_CallPost (c : bool) (s : St) :
  Proto None s -> tasks s = [] -> CallPost (processAudio c s).
Proof.
  intros [Htr Hf] Hk. unfold processAudio.
  destruct (isProcessingRef s || isNil (audioChunksRef s) || negb (transcriberRef s)).
  - unfold CallPost, Proto. simpl. auto.
  - cbv zeta. simpl.
    assert (Hrel : forall s1, trace s1 = O_accept (nextUtterance s) (audioChunksRef s) :: trace s ->
                     nextUtterance s1 = S (nextUtterance s) -> tasks s1 = [] ->
                     CallPost (release (nextUtterance s) s1, true)).
    { intros s1 H1 H2 H3. unfold CallPost, Proto, serial, release. simpl.
      rewrite H1. simpl. fold (serial (trace s)). rewrite Htr. simpl.
      repeat (rewrite Nat.eqb_refl; simpl). rewrite H2. auto. }
    destruct (isNil (audioChunksRef s)); [ now apply Hrel | ].
    destruct (size (newBlob (audioChunksRef s)) =? 0); [ now apply Hrel | ].
    unfold CallPost, Proto, serial, suspend. simpl. rewrite Hk. simpl.
    eexists. split; [ reflexivity | ]. simpl.
    fold (serial (trace s)). rewrite Htr. simpl. rewrite Nat.eqb_refl. auto.
Qed.

Ltac proto_compute H :=
  unfold CallPost, Proto, serial, release, setError, suspend, log in *; simpl;
  rewrite ?H; simpl;
  repeat (rewrite Nat.eqb_refl; simpl).

Lemma catchError_CallPost (u : nat) (err : JsError) (s : St) :
  Proto (Some u) s -> tasks s = [] -> CallPost (catchError u err s, true).
Proof.
  intros [Htr Hf] Hk. unfold catchError.
  destruct (negb (truthy match message err with Some m => m | None => [] end)
            || negb (includes match message err with Some m => m | None => [] end
                       (lit "decode")));
    proto_compute Htr; auto.
Qed.

Lemma afterArrayBuffer_CallPost (t : Task) (audioBlob : Blob) (r : Outcome unit) (s : St) :
  Proto (Some (utt t)) s -> tasks s = [] ->
  CallPost (afterArrayBuffer t audioBlob r s).
Proof.
  intros HP Hk. unfold afterArrayBuffer.
  destruct r as [ [] | err ]; [ | now apply catchError_CallPost ].
  destruct HP as [Htr Hf].
  destruct (size audioBlob =? 0); proto_compute Htr; auto.
  rewrite Hk. simpl. eexists. split; [ reflexivity | ]. simpl. auto.
Qed.

Section SessionFacts.

Variable Math_sqrt : Q -> Q.

Lemma afterDecode_CallPost (t : Task) (r : Outcome AudioBuffer) (s : St) :
  Proto (Some (utt t)) s -> tasks s = [] ->
  CallPost (afterDecode Math_sqrt t r s).
Proof.
  intros [Htr Hf] Hk. unfold afterDecode.
  destruct r as [ audioBuffer | err ]; [ | proto_compute Htr; auto ].
  destruct (len (channelData audioBuffer) <? 8000); [ proto_compute Htr; auto | ].
  destruct (negb (hasAudioContent Math_sqrt (channelData audioBuffer) audioFloor));
    [ proto_compute Htr; auto | ].
  proto_compute Htr.
  rewrite Hk. simpl. eexists. split; [ reflexivity | ]. simpl. auto.
Qed.

Lemma afterTranscribe_CallPost (t : Task) (r : Outcome (option str)) (s : St) :
  Proto (Some (utt t)) s -> tasks s = [] ->
  CallPost (afterTranscribe t r s).
Proof.
  intros HP Hk. unfold afterTranscribe.
  destruct r as [ result | err ]; [ | now apply catchError_CallPost ].
  destruct HP as [Htr Hf].
  destruct result as [ text | ]; [ | proto_compute Htr; auto ].
  destruct (truthy text); [ | proto_compute Htr; auto ].
  destruct (keepText (cleanText text)); proto_compute Htr; auto.
Qed.

(** The one suspended call is the one a settlement finds. *)
Lemma dropTask_Proto (u : nat) (t : Task) (s : St) :
  Serial s -> findTask u s = Some t ->
  Proto (Some (utt t)) (dropTask u s) /\ tasks (dropTask u s) = [].
Proof.
  unfold Serial, inFlight, findTask, dropTask. intros [HP HL] Hfind.
  destruct (tasks s) as [ | t0 [ | t1 k ] ] eqn:Hk; simpl in *; try discriminate; try lia.
  destruct (Nat.eqb (utt t0) u) eqn:E; [ | discriminate ].
  injection Hfind as <-. simpl. split; [ | reflexivity ].
  eapply Proto_same; [ | | | exact HP ]; reflexivity.
Qed.

Lemma clearSilenceTimer_same (s : St) :
  let s' := clearSilenceTimer s in
  nextUtterance s' = nextUtterance s /\ isProcessingRef s' = isProcessingRef s
  /\ tasks s' = tasks s /\ audioChunksRef s' = audioChunksRef s
  /\ transcriberRef s' = transcriberRef s
  /\ exists l, trace s' = l ++ trace s /\ forallb neutral l = true.
Proof.
  unfold clearSilenceTimer. destruct (silenceTimerRef s); simpl.
  - repeat split. exists [O_clearTimeout n]. auto.
  - repeat split. exists []. auto.
Qed.

Lemma Proto_neutral (cur : option nat) (l : list Obs) (s s' : St) :
  trace s' = l ++ trace s -> forallb neutral l = true ->
  nextUtterance s' = nextUtterance s -> isProcessingRef s' = isProcessingRef s ->
  Proto cur s -> Proto cur s'.
Proof.
  unfold Proto, serial, serialFrom. intros Ht Hl -> -> [Htr Hf].
  split; [ | exact Hf ].
  rewrite Ht. clear Ht. induction l as [ | o l IH ]; simpl in *; [ exact Htr | ].
  apply andb_prop in Hl. destruct Hl as [Ho Hl].
  rewrite (IH Hl).
  destruct o; try discriminate; reflexivity.
Qed.

Lemma Serial_neutral (l : list Obs) (s s' : St) :
  trace s' = l ++ trace s -> forallb neutral l = true ->
  nextUtterance s' = nextUtterance s -> isProcessingRef s' = isProcessingRef s ->
  tasks s' = tasks s -> Serial s -> Serial s'.
Proof.
  unfold Serial, inFlight. intros Ht Hl Hn Hf Hk [HP HL]. rewrite Hk.
  split; [ | exact HL ]. eapply Proto_neutral; eauto.
Qed.

Lemma processAudioAndContinue_Serial (s : St) :
  Serial s -> isProcessingRef s = false -> Serial (processAudioAndContinue s).
Proof.
  intros HS Hf. unfold processAudioAndContinue. cbv zeta.
  destruct (clearSilenceTimer_same s) as (Hn & Hp & Hk & _ & _ & l & Ht & Hl).
  apply settled_Serial.
  destruct (Serial_idle s HS Hf) as [HP Hk0].
  apply processAudio_CallPost.
  - eapply Proto_neutral; eauto.
  - congruence.
Qed.

Lemma onstop_Serial (s : St) : Serial s -> Serial (onstop s).
Proof.
  intros HS. unfold onstop.
  destruct (streamActive s); simpl; [ | exact HS ].
  destruct (isProcessingRef s) eqn:Hf; simpl; [ exact HS | ].
  now apply processAudioAndContinue_Serial.
Qed.

(** *** Handlers that stay out of the processing *)

Lemma neutral_nil (t : list Obs) :
  exists l, t = l ++ t /\ forallb neutral l = true.
Proof. exists []. auto. Qed.

Lemma neutral_cons (o : Obs) (tr t : list Obs) :
  neutral o = true ->
  (exists l, tr = l ++ t /\ forallb neutral l = true) ->
  exists l, o :: tr = l ++ t /\ forallb neutral l = true.
Proof.
  intros Ho (l & -> & Hl). exists (o :: l). simpl. rewrite Ho, Hl. auto.
Qed.

Ltac bystander :=
  unfold Bystander; simpl; repeat split;
  repeat (apply neutral_cons; [ reflexivity | ]); apply neutral_nil.

Lemma Bystander_refl (s : St) : Bystander s s.
Proof. bystander. Qed.

Lemma Bystander_trans (s1 s2 s3 : St) :
  Bystander s1 s2 -> Bystander s2 s3 -> Bystander s1 s3.
Proof.
  intros (Hn & Hf & Hk & l & Ht & Hl) (Hn' & Hf' & Hk' & l' & Ht' & Hl').
  repeat split; try congruence.
  exists (l' ++ l). rewrite Ht', Ht, app_assoc, forallb_app, Hl, Hl'. auto.
Qed.

Lemma Serial_Bystander (s s' : St) : Bystander s s' -> Serial s -> Serial s'.
Proof.
  intros (Hn & Hf & Hk & l & Ht & Hl). now apply Serial_neutral with (l := l).
Qed.

Lemma clearSilenceTimer_Bystander (s : St) : Bystander s (clearSilenceTimer s).
Proof. unfold clearSilenceTimer. destruct (silenceTimerRef s); bystander. Qed.

Lemma releaseCapture_Bystander (s : St) : Bystander s (releaseCapture s).
Proof.
  unfold releaseCapture, clearSilenceTimer, recorderStop, log.
  destruct s as [rec chunks stream tr flag an ctx timer last heard lis txt proc err
                   clk tms nt stops fr tks nu trc].
  simpl.
  destruct timer; simpl; destruct rec as [ [ | ] | ]; simpl;
    destruct stream; simpl; destruct ctx; simpl; bystander.
Qed.

Lemma checkAudioLevel_Bystander (dataArray : list Z) (s : St) :
  Bystander s (checkAudioLevel Math_sqrt dataArray s).
Proof.
  unfold checkAudioLevel, clearSilenceTimer.
  destruct s as [rec chunks stream tr flag an ctx timer last heard lis txt proc err
                   clk tms nt stops fr tks nu trc].
  simpl. unfold streamActive. simpl.
  destruct an; simpl; [ | bystander ].
  destruct stream as [ [ | ] | ]; simpl; try bystander.
  destruct (Qgtb (amplitudeOf Math_sqrt dataArray) silenceThreshold); simpl.
  - destruct timer; bystander.
  - match goal with
    | |- context [if ?c then armSilenceTimer _ else _] => destruct c
    end; bystander.
Qed.

Lemma trackEnded_Bystander (s : St) : Bystander s (trackEnded s).
Proof.
  unfold trackEnded. destruct (streamRef s); [ | bystander ].
  cbv zeta. simpl. destruct (mediaRecorderRef s) as [ [ | ] | ]; bystander.
Qed.

Lemma ondataavailable_Bystander (data : Blob) (s : St) :
  Bystander s (ondataavailable data s).
Proof. unfold ondataavailable. destruct (0 <? size data); bystander. Qed.

Lemma silenceTimeout_Serial (s : St) : Serial s -> Serial (silenceTimeout s).
Proof.
  intros HS. unfold silenceTimeout.
  assert (Hb : Serial (set_silenceTimerRef None s))
    by (apply (Serial_Bystander s); [ bystander | exact HS ]).
  destruct (mediaRecorderRef s) as [ [ | ] | ]; try exact Hb.
  destruct (streamActive s); simpl; try exact Hb.
  destruct (isProcessingRef s) eqn:Hf; simpl; try exact Hb.
  destruct (Serial_idle s HS Hf) as [HP Hk].
  apply Serial_of_idle; [ | exact Hk ].
  unfold recorderStop. apply Proto_log_idle; [ now right | ].
  eapply Proto_same; [ | | | exact HP ]; reflexivity.
Qed.

Lemma stopListening_Serial (s : St) : Serial s -> Serial (stopListening s).
Proof.
  intros HS. unfold stopListening. cbv zeta.
  pose proof (Serial_Bystander _ _ (releaseCapture_Bystander s) HS) as HS'.
  remember (releaseCapture s) as s1 eqn:Es1. clear Es1.
  destruct (negb (isNil (audioChunksRef s1))); simpl; [ | exact HS' ].
  destruct (isProcessingRef s1) eqn:Hf; simpl; [ exact HS' | ].
  destruct (Serial_idle _ HS' Hf) as [HP Hk].
  apply settled_Serial. now apply processAudio_CallPost.
Qed.

(** Every turn of the event loop keeps the processing serial. *)
Lemma Serial_step (s : St) (e : Event) : Serial s -> Serial (step Math_sqrt s e).
Proof.
  intros HS. destruct e; simpl.
  - destruct (clock s <=? t); [ | exact HS ].
    apply (Serial_Bystander s); [ bystander | exact HS ].
  - assert (Serial (ondataavailable data s))
      by (apply (Serial_Bystander s); [ apply ondataavailable_Bystander | exact HS ]).
    destruct (mediaRecorderRef s) as [ [ | ] | ]; destruct (stopEvents s); auto.
  - destruct (stopEvents s); [ exact HS | ].
    apply onstop_Serial. apply (Serial_Bystander s); [ bystander | exact HS ].
  - destruct (frameRequested s); [ | exact HS ].
    eapply Serial_Bystander; [ apply checkAudioLevel_Bystander | ].
    apply (Serial_Bystander s); [ bystander | exact HS ].
  - destruct (existsb (Nat.eqb id) (timers s)); [ | exact HS ].
    apply silenceTimeout_Serial.
    apply (Serial_Bystander s); [ bystander | exact HS ].
  - now apply stopListening_Serial.
  - apply (Serial_Bystander s); [ apply trackEnded_Bystander | exact HS ].
  - apply (Serial_Bystander s); [ bystander | exact HS ].
  - destruct (findTask u s) as [ t | ] eqn:Hfind; [ | exact HS ].
    destruct (stage t); try exact HS.
    destruct (dropTask_Proto u t s HS Hfind) as [HP Hk].
    apply settled_Serial. now apply afterArrayBuffer_CallPost.
  - destruct (findTask u s) as [ t | ] eqn:Hfind; [ | exact HS ].
    destruct (stage t); try exact HS.
    destruct (dropTask_Proto u t s HS Hfind) as [HP Hk].
    apply settled_Serial. now apply afterDecode_CallPost.
  - destruct (findTask u s) as [ t | ] eqn:Hfind; [ | exact HS ].
    destruct (stage t); try exact HS.
    destruct (dropTask_Proto u t s HS Hfind) as [HP Hk].
    apply settled_Serial. now apply afterTranscribe_CallPost.
Qed.

Lemma Serial_run (evs : list Event) (s : St) :
  Serial s -> Serial (run Math_sqrt s evs).
Proof.
  revert s. induction evs as [ | e evs IH ]; simpl; intros s HS; [ exact HS | ].
  apply IH. now apply Serial_step.
Qed.

(** *** Handlers that leave the detector alone *)

Ltac calm := unfold Calm, count; simpl; repeat split; auto.

Lemma Calm_refl (s : St) : Calm s s.
Proof. calm. Qed.

Lemma Calm_trans (s1 s2 s3 : St) : Calm s1 s2 -> Calm s2 s3 -> Calm s1 s3.
Proof.
  intros (H1 & H2 & H3 & H4) (H1' & H2' & H3' & H4').
  repeat split; try congruence. auto.
Qed.

Lemma clearSilenceTimer_Calm (s : St) : Calm s (clearSilenceTimer s).
Proof.
  unfold clearSilenceTimer. destruct (silenceTimerRef s); calm.
  intros ->. reflexivity.
Qed.

Lemma restartRecording_Calm (s : St) : Calm s (restartRecording s).
Proof.
  unfold restartRecording.
  destruct (streamActive s && isSome (mediaRecorderRef s) && negb (isProcessingRef s));
    [ | calm ].
  cbv zeta. simpl. destruct (mediaRecorderRef s) as [ [ | ] | ]; calm.
Qed.

Lemma settled_Calm (c : bool) (s : St) (r : St * bool) :
  Calm s (fst r) -> Calm s (settled c r).
Proof.
  destruct r as [s1 b]. simpl. intros H.
  destruct (b && c); [ | exact H ].
  eapply Calm_trans; [ exact H | apply restartRecording_Calm ].
Qed.

Lemma processAudio_Calm (c : bool) (s : St) : Calm s (fst (processAudio c s)).
Proof.
  unfold processAudio.
  destruct (isProcessingRef s || isNil (audioChunksRef s) || negb (transcriberRef s));
    [ calm | ].
  cbv zeta. simpl.
  destruct (isNil (audioChunksRef s)); [ calm | ].
  destruct (size (newBlob (audioChunksRef s)) =? 0); calm.
Qed.

Lemma catchError_Calm (u : nat) (err : JsError) (s : St) : Calm s (catchError u err s).
Proof.
  unfold catchError. cbv zeta.
  match goal with |- context [if ?c then _ else _] => destruct c end; calm.
Qed.

Lemma afterArrayBuffer_Calm (t : Task) (b : Blob) (r : Outcome unit) (s : St) :
  Calm s (fst (afterArrayBuffer t b r s)).
Proof.
  unfold afterArrayBuffer. destruct r as [ [] | err ]; simpl.
  - destruct (size b =? 0); calm.
  - apply catchError_Calm.
Qed.

Lemma afterDecode_Calm (t : Task) (r : Outcome AudioBuffer) (s : St) :
  Calm s (fst (afterDecode Math_sqrt t r s)).
Proof.
  unfold afterDecode. destruct r as [ audioBuffer | err ]; [ | calm ].
  destruct (len (channelData audioBuffer) <? 8000); [ calm | ].
  destruct (negb (hasAudioContent Math_sqrt (channelData audioBuffer) audioFloor)); calm.
Qed.

Lemma afterTranscribe_Calm (t : Task) (r : Outcome (option str)) (s : St) :
  Calm s (fst (afterTranscribe t r s)).
Proof.
  unfold afterTranscribe. destruct r as [ result | err ]; simpl;
    [ | apply catchError_Calm ].
  destruct result as [ text | ]; [ | calm ].
  destruct (truthy text); [ | calm ].
  destruct (keepText (cleanText text)); calm.
Qed.

Lemma dropTask_Calm (u : nat) (s : St) : Calm s (dropTask u s).
Proof. calm. Qed.

Lemma processAudioAndContinue_Calm (s : St) : Calm s (processAudioAndContinue s).
Proof.
  unfold processAudioAndContinue. cbv zeta. apply settled_Calm.
  eapply Calm_trans; [ apply clearSilenceTimer_Calm | apply processAudio_Calm ].
Qed.

Lemma onstop_Calm (s : St) : Calm s (onstop s).
Proof.
  unfold onstop. destruct (streamActive s && negb (isProcessingRef s));
    [ apply processAudioAndContinue_Calm | calm ].
Qed.

Lemma releaseCapture_Calm (s : St) : Calm s (releaseCapture s).
Proof.
  unfold releaseCapture, clearSilenceTimer, recorderStop, log.
  destruct s as [rec chunks stream tr flag an ctx timer last heard lis txt proc err
                   clk tms nt stops fr tks nu trc].
  simpl.
  destruct timer; simpl; destruct rec as [ [ | ] | ]; simpl;
    destruct stream; simpl; destruct ctx; simpl; calm;
    intros ->; reflexivity.
Qed.

Lemma stopListening_Calm (s : St) : Calm s (stopListening s).
Proof.
  unfold stopListening. cbv zeta.
  pose proof (releaseCapture_Calm s) as H.
  remember (releaseCapture s) as s1 eqn:Es1. clear Es1.
  destruct (negb (isNil (audioChunksRef s1)) && negb (isProcessingRef s1));
    [ | exact H ].
  apply settled_Calm. eapply Calm_trans; [ exact H | apply processAudio_Calm ].
Qed.

Lemma trackEnded_Calm (s : St) : Calm s (trackEnded s).
Proof.
  unfold trackEnded. destruct (streamRef s); [ | calm ].
  cbv zeta. simpl. destruct (mediaRecorderRef s) as [ [ | ] | ]; calm.
Qed.

Lemma ondataavailable_Calm (data : Blob) (s : St) : Calm s (ondataavailable data s).
Proof. unfold ondataavailable. destruct (0 <? size data); calm. Qed.

(** A frame at or below the threshold, before any speech: nothing is armed. *)
Lemma checkAudioLevel_quiet (dataArray : list Z) (s : St) :
  Qgtb (amplitudeOf Math_sqrt dataArray) silenceThreshold = false ->
  hasRecordedSpeechRef s = false ->
  Calm s (checkAudioLevel Math_sqrt dataArray s).
Proof.
  intros Hq Hh. unfold checkAudioLevel.
  destruct (negb (analyserRef s) || negb (streamActive s)); [ calm | ].
  cbv zeta. rewrite Hq, Hh. simpl.
  destruct (streamActive s); calm.
Qed.

Lemma Calm_settlement (c : bool) (u : nat) (s : St) (r : St * bool) :
  Calm (dropTask u s) (fst r) -> Calm s (settled c r).
Proof.
  intros H. apply settled_Calm.
  eapply Calm_trans; [ apply dropTask_Calm | exact H ].
Qed.

Lemma NeverHeard_Calm (s s' : St) : Calm s s' -> NeverHeard s -> NeverHeard s'.
Proof.
  intros (H1 & H2 & H3 & H4) (N1 & N2 & N3 & N4).
  repeat split; try congruence. auto.
Qed.

Lemma NeverHeard_step (s : St) (e : Event) :
  quiet Math_sqrt [e] = true -> NeverHeard s -> NeverHeard (step Math_sqrt s e).
Proof.
  intros Hq HN. destruct e; simpl.
  - destruct (clock s <=? t); [ | exact HN ].
    apply (NeverHeard_Calm s); [ calm | exact HN ].
  - assert (NeverHeard (ondataavailable data s))
      by (apply (NeverHeard_Calm s); [ apply ondataavailable_Calm | exact HN ]).
    destruct (mediaRecorderRef s) as [ [ | ] | ]; destruct (stopEvents s); auto.
  - destruct (stopEvents s); [ exact HN | ].
    apply (NeverHeard_Calm s); [ | exact HN ].
    eapply Calm_trans; [ | apply onstop_Calm ]. calm.
  - destruct (frameRequested s); [ | exact HN ].
    apply (NeverHeard_Calm s); [ | exact HN ].
    eapply Calm_trans; [ | apply checkAudioLevel_quiet ].
    + calm.
    + simpl in Hq. rewrite andb_true_r in Hq. now apply negb_true_iff in Hq.
    + simpl. apply HN.
  - destruct HN as (N1 & N2 & N3 & N4). rewrite N2. simpl. repeat split; auto.
  - apply (NeverHeard_Calm s); [ apply stopListening_Calm | exact HN ].
  - apply (NeverHeard_Calm s); [ apply trackEnded_Calm | exact HN ].
  - apply (NeverHeard_Calm s); [ calm | exact HN ].
  - destruct (findTask u s) as [ t | ]; [ | exact HN ].
    destruct (stage t); try exact HN.
    apply (NeverHeard_Calm s); [ | exact HN ].
    apply Calm_settlement with (u := u). apply afterArrayBuffer_Calm.
  - destruct (findTask u s) as [ t | ]; [ | exact HN ].
    destruct (stage t); try exact HN.
    apply (NeverHeard_Calm s); [ | exact HN ].
    apply Calm_settlement with (u := u). apply afterDecode_Calm.
  - destruct (findTask u s) as [ t | ]; [ | exact HN ].
    destruct (stage t); try exact HN.
    apply (NeverHeard_Calm s); [ | exact HN ].
    apply Calm_settlement with (u := u). apply afterTranscribe_Calm.
Qed.

Lemma NeverHeard_run (evs : list Event) (s : St) :
  quiet Math_sqrt evs = true -> NeverHeard s -> NeverHeard (run Math_sqrt s evs).
Proof.
  revert s. induction evs as [ | e evs IH ]; simpl; intros s Hq HN; [ exact HN | ].
  apply andb_prop in Hq. destruct Hq as [He Hq].
  apply IH; [ exact Hq | ].
  apply NeverHeard_step; [ | exact HN ].
  simpl. now rewrite He.
Qed.

(** The has-speech flag, once set, stays set: no handler clears it. *)
Lemma hasRecordedSpeech_kept (s : St) (e : Event) :
  hasRecordedSpeechRef s = true -> hasRecordedSpeechRef (step Math_sqrt s e) = true.
Proof.
  intros Hh.
  assert (HC : forall s', Calm s s' -> hasRecordedSpeechRef s' = true)
    by (intros s' (H1 & _); congruence).
  destruct e; simpl.
  - destruct (clock s <=? t); auto.
  - assert (hasRecordedSpeechRef (ondataavailable data s) = true)
      by (apply HC, ondataavailable_Calm).
    destruct (mediaRecorderRef s) as [ [ | ] | ]; destruct (stopEvents s); auto.
  - destruct (stopEvents s); [ exact Hh | ].
    apply HC. eapply Calm_trans; [ | apply onstop_Calm ]. calm.
  - destruct (frameRequested s); [ | exact Hh ].
    unfold checkAudioLevel. simpl.
    destruct (negb (analyserRef s) || negb (streamActive _)); [ exact Hh | ].
    destruct (Qgtb (amplitudeOf Math_sqrt dataArray) silenceThreshold).
    + match goal with
      | |- context [clearSilenceTimer ?x] =>
          destruct (clearSilenceTimer_Calm x) as (E & _); simpl in E
      end.
      destruct (streamActive _); simpl; rewrite E; reflexivity.
    + match goal with
      | |- context [if ?c then armSilenceTimer _ else _] => destruct c
      end; destruct (streamActive _); simpl; exact Hh.
  - destruct (existsb (Nat.eqb id) (timers s)); [ | exact Hh ].
    unfold silenceTimeout. simpl.
    destruct (mediaRecorderRef s) as [ [ | ] | ]; simpl; auto.
    destruct (streamActive _ && negb (isProcessingRef s)); simpl; auto.
  - apply HC, stopListening_Calm.
  - apply HC, trackEnded_Calm.
  - exact Hh.
  - destruct (findTask u s) as [ t | ]; [ | exact Hh ].
    destruct (stage t); try exact Hh.
    apply HC, Calm_settlement with (u := u), afterArrayBuffer_Calm.
  - destruct (findTask u s) as [ t | ]; [ | exact Hh ].
    destruct (stage t); try exact Hh.
    apply HC, Calm_settlement with (u := u), afterDecode_Calm.
  - destruct (findTask u s) as [ t | ]; [ | exact Hh ].
    destruct (stage t); try exact Hh.
    apply HC, Calm_settlement with (u := u), afterTranscribe_Calm.
Qed.

(** *** The order of the appended segments *)

Lemma StronglySorted_snoc (l : list nat) (u : nat) :
  StronglySorted le l -> Forall (fun i => (i <= u)%nat) l ->
  StronglySorted le (l ++ [u]).
Proof.
  induction l as [ | a l IH ]; simpl; intros HS HF.
  - repeat constructor.
  - inversion HS; subst. inversion HF; subst.
    constructor; [ now apply IH | ].
    apply Forall_app. split; [ assumption | repeat constructor; assumption ].
Qed.

(** What a serial trace says about its appends: they are sorted, below the
    next number, and at most the number of the utterance in flight. *)
Lemma serial_appended (tr : list Obs) (cur : option nat) (next : nat) :
  serial tr = Some (cur, next) ->
  StronglySorted le (appended (rev tr))
  /\ Forall (fun i => (i < next)%nat) (appended (rev tr))
  /\ match cur with
     | Some u => (u < next)%nat /\ Forall (fun i => (i <= u)%nat) (appended (rev tr))
     | None => True
     end.
Proof.
  unfold serial, serialFrom, appended.
  revert cur next. induction tr as [ | o tr IH ]; simpl; intros cur next H;
    [ injection H as <- <-; repeat constructor | ].
    destruct (fold_right (fun o acc => serialStep acc o) (Some (None, 0%nat)) tr)
      as [ [cur0 next0] | ] eqn:E; [ | discriminate ].
    destruct (IH cur0 next0 eq_refl) as (HS & HF & HC). clear IH.
    rewrite flat_map_app. simpl.
    destruct o as [ | id | id | | | | | | | u chunks | u bytes | u pcm | u newText | u
                  | msg | msg ]; simpl in H;
      try (injection H as <- <-; rewrite !app_nil_r; auto; fail).
    - (* boundary *)
      destruct cur0; simpl in H; [ discriminate | ].
      injection H as <- <-. rewrite !app_nil_r. auto.
    - (* recorder start *)
      destruct cur0; simpl in H; [ discriminate | ].
      injection H as <- <-. rewrite !app_nil_r. auto.
    - (* accept *)
      destruct cur0; simpl in H; [ discriminate | ].
      destruct (Nat.eqb u next0) eqn:Eu; [ | discriminate ].
      apply Nat.eqb_eq in Eu. subst u. injection H as <- <-.
      rewrite !app_nil_r. repeat split; auto.
      + eapply Forall_impl; [ | exact HF ]. simpl. intros; lia.
      + eapply Forall_impl; [ | exact HF ]. simpl. intros; lia.
    - (* decode *)
      destruct cur0 as [ v | ]; simpl in H; [ | discriminate ].
      destruct (Nat.eqb u v); [ | discriminate ].
      injection H as <- <-. rewrite !app_nil_r. auto.
    - (* transcribe *)
      destruct cur0 as [ v | ]; simpl in H; [ | discriminate ].
      destruct (Nat.eqb u v); [ | discriminate ].
      injection H as <- <-. rewrite !app_nil_r. auto.
    - (* append *)
      destruct cur0 as [ v | ]; simpl in H; [ | discriminate ].
      destruct (Nat.eqb u v) eqn:Eu; [ | discriminate ].
      apply Nat.eqb_eq in Eu. subst v. injection H as <- <-.
      destruct HC as [Hu HC]. repeat split.
      + now apply StronglySorted_snoc.
      + apply Forall_app. split; [ exact HF | repeat constructor; exact Hu ].
      + exact Hu.
      + apply Forall_app. split; [ exact HC | repeat constructor ].
    - (* release *)
      destruct cur0 as [ v | ]; simpl in H; [ | discriminate ].
      destruct (Nat.eqb u v); [ | discriminate ].
      injection H as <- <-. rewrite !app_nil_r. auto.
Qed.

(** *** The claims on the event loop *)

Lemma Serial_started (t0 : Z) : Serial (started t0).
Proof. repeat split; simpl; auto. Qed.

(** C1. In every state a session reaches, whatever the order of frames,
    timers, recorder events, Stop requests and settlements of the decoder
    and of the engine, at most one call of [processAudio] is suspended, and
    the busy flag is set exactly while one is.  A call made while the flag
    is set returns at once and changes nothing (so it reaches neither the
    decoder nor the engine); a call that reaches an [await] has set the
    flag, which was clear when the call was made. *)
Theorem single_flight (t0 : Z) (evs : list Event) :
  let s := run Math_sqrt (started t0) evs in
  (length (tasks s) <= 1)%nat
  /\ isProcessingRef s = isSome (inFlight s)
  /\ (forall (c : bool) (s0 : St),
        isProcessingRef s0 = true -> processAudio c s0 = (s0, true))
  /\ (forall (c : bool) (s0 s1 : St),
        processAudio c s0 = (s1, false) ->
        isProcessingRef s0 = false /\ isProcessingRef s1 = true
        /\ tasks s1 = tasks s0 ++ [ {| utt := nextUtterance s0; continueAfter := c;
                                       stage := AwaitArrayBuffer (newBlob (audioChunksRef s0)) |} ]).
Proof.
  cbv zeta.
  destruct (Serial_run evs (started t0) (Serial_started t0)) as [[_ Hf] Hl].
  repeat split; try assumption.
  - intros c s0 H. unfold processAudio. now rewrite H.
  - unfold processAudio in H.
    destruct (isProcessingRef s0); [ discriminate | reflexivity ].
  - unfold processAudio in H.
    destruct (isProcessingRef s0 || isNil (audioChunksRef s0) || negb (transcriberRef s0));
      [ discriminate | ].
    cbv zeta in H. simpl in H.
    destruct (isNil (audioChunksRef s0)); [ discriminate | ].
    destruct (size (newBlob (audioChunksRef s0)) =? 0); [ discriminate | ].
    injection H as <-. reflexivity.
  - unfold processAudio in H.
    destruct (isProcessingRef s0 || isNil (audioChunksRef s0) || negb (transcriberRef s0));
      [ discriminate | ].
    cbv zeta in H. simpl in H.
    destruct (isNil (audioChunksRef s0)); [ discriminate | ].
    destruct (size (newBlob (audioChunksRef s0)) =? 0); [ discriminate | ].
    injection H as <-. reflexivity.
Qed.

(** C2. In every state a session reaches, the trace is serial: hand-offs
    are accepted in the order 0, 1, 2, ...; while utterance [n] is being
    processed no other hand-off is accepted, no boundary fires and the
    recorder is not restarted; the decoder, the engine and the transcript
    are used for utterance [n] only, until its call gives the flag back.
    So the segments are appended in the order of the utterance numbers,
    however long each settlement takes. *)
Theorem appended_in_handoff_order (t0 : Z) (evs : list Event) :
  let s := run Math_sqrt (started t0) evs in
  serial (trace s) = Some (inFlight s, nextUtterance s)
  /\ StronglySorted le (appended (history s))
  /\ Forall (fun u => (u < nextUtterance s)%nat) (appended (history s)).
Proof.
  cbv zeta.
  destruct (Serial_run evs (started t0) (Serial_started t0)) as [[Htr _] _].
  split; [ exact Htr | ].
  destruct (serial_appended _ _ _ Htr) as (HS & HF & _). auto.
Qed.

(** C3, as amended.  As long as no frame has been above the threshold since
    the session started, no silence timer is armed and no boundary fires:
    pure silence from the start gives no boundary.  The has-speech flag is
    never cleared, whatever the event: after the first speech it stays set,
    boundary or not. *)
Theorem no_boundary_before_first_speech (t0 : Z) (evs : list Event) :
  quiet Math_sqrt evs = true ->
  let s := run Math_sqrt (started t0) evs in
  count isBoundary (trace s) = 0%nat
  /\ count isSetTimeout (trace s) = 0%nat
  /\ hasRecordedSpeechRef s = false
  /\ (forall (s0 : St) (e : Event),
        hasRecordedSpeechRef s0 = true ->
        hasRecordedSpeechRef (step Math_sqrt s0 e) = true).
Proof.
  intros Hq. cbv zeta.
  assert (H0 : NeverHeard (started t0)) by (repeat split).
  destruct (NeverHeard_run evs (started t0) Hq H0) as (N1 & N2 & N3 & N4).
  repeat split; auto. apply hasRecordedSpeech_kept.
Qed.

(** *** What a returning call leaves behind *)

Lemma count_cons (p : Obs -> bool) (o : Obs) (tr : list Obs) :
  count p (o :: tr) = if p o then S (count p tr) else count p tr.
Proof. unfold count. simpl. now destruct (p o). Qed.

(** The call gives the flag back and its caller, if it waits, restarts the
    recorder.  Nothing else changes. *)
Lemma released_returned (c : bool) (u : nat) (s0 : St) :
  let s' := settled c (release u s0, true) in
  (forall p : Obs -> bool,
      p (O_release u) = false -> p O_recorderStart = false ->
      count p (trace s') = count p (trace s0))
  /\ error s' = error s0
  /\ transcript s' = transcript s0
  /\ isProcessingRef s' = false
  /\ isProcessing s' = false
  /\ tasks s' = tasks s0
  /\ (c = true -> streamActive s0 = true -> isSome (mediaRecorderRef s0) = true ->
      mediaRecorderRef s' = Some recording
      /\ audioChunksRef s' = []
      /\ lastSpeechTimeRef s' = clock s0).
Proof.
  unfold settled, release, restartRecording, streamActive, log.
  destruct s0 as [rec chunks stream tr flag an ctx timer last heard lis txt proc err
                    clk tms nt stops fr tks nu trc].
  simpl. destruct c; simpl.
  - destruct stream as [ [ | ] | ]; simpl;
      destruct rec as [ [ | ] | ]; simpl;
      repeat split; auto; try discriminate;
      intros p H1 H2; rewrite ?count_cons, ?H1, ?H2; reflexivity.
  - repeat split; auto; try discriminate.
    intros p H1 H2. now rewrite count_cons, H1.
Qed.

Lemma findTask_dropTask (u : nat) (s s' : St) :
  tasks s' = tasks (dropTask u s) -> findTask u s' = None.
Proof.
  unfold findTask, dropTask. simpl. intros ->.
  induction (tasks s) as [ | t k IH ]; simpl; [ reflexivity | ].
  destruct (Nat.eqb (utt t) u) eqn:E; simpl; [ exact IH | ].
  now rewrite E.
Qed.

Lemma Qgtb_false_lt (x y : Q) : (x < y)%Q -> Qgtb x y = false.
Proof.
  intros H. unfold Qgtb. apply negb_false_iff. apply Qle_bool_iff.
  now apply Qlt_le_weak.
Qed.

(** What is below 5/1000 is below the double of [0.005]. *)
Lemma below_audioFloor (x : Q) : (x < 5 # 1000)%Q -> (x < audioFloor)%Q.
Proof. intros H. eapply Qlt_trans; [ exact H | reflexivity ]. Qed.

(** The two ways a decoded buffer is dropped. *)
Lemma afterDecode_dropped (t : Task) (audioBuffer : AudioBuffer) (s : St) :
  len (channelData audioBuffer) < 8000
  \/ (rmsOf Math_sqrt (channelData audioBuffer) < 5 # 1000)%Q ->
  afterDecode Math_sqrt t (Resolved audioBuffer) s = (release (utt t) s, true).
Proof.
  intros H. unfold afterDecode.
  destruct (len (channelData audioBuffer) <? 8000) eqn:E; [ reflexivity | ].
  destruct H as [ H | H ]; [ apply Z.ltb_ge in E; lia | ].
  unfold hasAudioContent. now rewrite (Qgtb_false_lt _ _ (below_audioFloor _ H)).
Qed.

Lemma step_decoded (s : St) (u : nat) (t : Task) (r : Outcome AudioBuffer) :
  findTask u s = Some t -> stage t = AwaitDecode ->
  step Math_sqrt s (EvDecoded u r)
  = settled (continueAfter t) (afterDecode Math_sqrt t r (dropTask u s)).
Proof. intros H1 H2. simpl. now rewrite H1, H2. Qed.

Lemma findTask_utt (u : nat) (t : Task) (s : St) : findTask u s = Some t -> utt t = u.
Proof.
  unfold findTask. intros H. apply find_some in H. destruct H as [_ H].
  now apply Nat.eqb_eq.
Qed.

(** What the two drops have in common. *)
Lemma decoded_and_dropped (s : St) (u : nat) (t : Task) (audioBuffer : AudioBuffer) :
  findTask u s = Some t -> stage t = AwaitDecode ->
  len (channelData audioBuffer) < 8000
  \/ (rmsOf Math_sqrt (channelData audioBuffer) < 5 # 1000)%Q ->
  let s' := step Math_sqrt s (EvDecoded u (Resolved audioBuffer)) in
  count isTranscribe (trace s') = count isTranscribe (trace s)
  /\ count isSetError (trace s') = count isSetError (trace s)
  /\ count isAppend (trace s') = count isAppend (trace s)
  /\ error s' = error s
  /\ transcript s' = transcript s
  /\ isProcessingRef s' = false
  /\ findTask u s' = None.
Proof.
  intros Hfind Hstage Hdrop. cbv zeta.
  rewrite (step_decoded s u t _ Hfind Hstage), (afterDecode_dropped t _ _ Hdrop).
  destruct (released_returned (continueAfter t) (utt t) (dropTask u s))
    as (Hc & He & Ht & Hf & _ & Hk & _).
  repeat split; try assumption.
  - now rewrite Hc.
  - now rewrite Hc.
  - now rewrite Hc.
  - now apply findTask_dropTask with (s := s).
Qed.

(** C5. When the decoder answers with fewer than 8000 samples, the call of
    [processAudio] returns: the engine is not called, no error is set,
    nothing is appended and the transcript is as before; the flag is
    clear. *)
Theorem short_buffer_dropped
    (s : St) (u : nat) (t : Task) (audioBuffer : AudioBuffer) :
  findTask u s = Some t -> stage t = AwaitDecode ->
  len (channelData audioBuffer) < 8000 ->
  let s' := step Math_sqrt s (EvDecoded u (Resolved audioBuffer)) in
  count isTranscribe (trace s') = count isTranscribe (trace s)
  /\ count isSetError (trace s') = count isSetError (trace s)
  /\ count isAppend (trace s') = count isAppend (trace s)
  /\ error s' = error s
  /\ transcript s' = transcript s
  /\ isProcessingRef s' = false
  /\ findTask u s' = None.
Proof.
  intros Hfind Hstage Hlen. apply (decoded_and_dropped s u t); auto.
Qed.


(** C7. When the decoder rejects the buffer, the failure is logged with
    [console.warn] and goes no further: no error is set, the engine is not
    called, nothing is appended, the transcript is as before and the flag
    is clear.  The session goes on: when the call was awaited by
    [processAudioAndContinue] and the stream is still active, the recorder
    records again into an empty buffer. *)
Theorem decode_failure_swallowed
    (s : St) (u : nat) (t : Task) (decodeError : JsError) :
  findTask u s = Some t -> stage t = AwaitDecode ->
  let s' := step Math_sqrt s (EvDecoded u (Rejected decodeError)) in
  count isWarn (trace s') = S (count isWarn (trace s))
  /\ count isSetError (trace s') = count isSetError (trace s)
  /\ count isTranscribe (trace s') = count isTranscribe (trace s)
  /\ count isAppend (trace s') = count isAppend (trace s)
  /\ error s' = error s
  /\ transcript s' = transcript s
  /\ isProcessingRef s' = false
  /\ findTask u s' = None
  /\ (continueAfter t = true -> streamActive s = true ->
      isSome (mediaRecorderRef s) = true ->
      mediaRecorderRef s' = Some recording /\ audioChunksRef s' = []).
Proof.
  intros Hfind Hstage. cbv zeta.
  rewrite (step_decoded s u t _ Hfind Hstage). unfold afterDecode.
  match goal with
  | |- context [release ?v (log ?o ?s0)] =>
      destruct (released_returned (continueAfter t) v (log o s0))
        as (Hc & He & Ht & Hf & _ & Hk & Hgo)
  end.
  repeat split; try assumption.
  - now rewrite Hc.
  - now rewrite Hc.
  - now rewrite Hc.
  - now rewrite Hc.
  - now apply findTask_dropTask with (s := s).
  - now apply Hgo.
  - now apply Hgo.
Qed.

Lemma step_transcribed (s : St) (u : nat) (t : Task) (r : Outcome (option str)) :
  findTask u s = Some t -> stage t = AwaitTranscribe ->
  step Math_sqrt s (EvTranscribed u r)
  = settled (continueAfter t) (afterTranscribe t r (dropTask u s)).
Proof. intros H1 H2. simpl. now rewrite H1, H2. Qed.

Lemma none_count (p : Obs -> bool) (l : list Obs) :
  none p l = true -> count p l = 0%nat.
Proof.
  unfold none, count. induction l as [ | o l IH ]; simpl; [ reflexivity | ].
  intros H. apply andb_prop in H. destruct H as [Ho Hl].
  apply negb_true_iff in Ho. rewrite Ho. now apply IH.
Qed.

Lemma count_app (p : Obs -> bool) (l1 l2 : list Obs) :
  count p (l1 ++ l2) = (count p l1 + count p l2)%nat.
Proof. unfold count. now rewrite filter_app, length_app. Qed.

(** What [releaseCapture] adds to the trace: releases, no hand-off. *)
Lemma releaseCapture_trace (s : St) :
  let s1 := releaseCapture s in
  (exists l, trace s1 = l ++ trace s
             /\ none isAccept l = true
             /\ In O_analyserRelease l
             /\ (isSome (streamRef s) = true -> In O_trackStop l)
             /\ (forall id, silenceTimerRef s = Some id -> In (O_clearTimeout id) l))
  /\ streamRef s1 = None /\ analyserRef s1 = false /\ silenceTimerRef s1 = None
  /\ audioChunksRef s1 = audioChunksRef s
  /\ isProcessingRef s1 = isProcessingRef s
  /\ transcriberRef s1 = transcriberRef s
  /\ nextUtterance s1 = nextUtterance s
  /\ tasks s1 = tasks s.
Proof.
  unfold releaseCapture, clearSilenceTimer, recorderStop, log.
  destruct s as [rec chunks stream tr flag an ctx timer last heard lis txt proc err
                   clk tms nt stops fr tks nu trc].
  simpl.
  destruct timer; simpl; destruct rec as [ [ | ] | ]; simpl;
    destruct stream; simpl; destruct ctx; simpl;
    (split; [ | repeat split ]);
    match goal with
    | |- exists l, ?tr = l ++ ?t /\ _ =>
        let rec go x :=
          lazymatch x with
          | t => constr:(@nil Obs)
          | ?o :: ?x' => let r := go x' in constr:(o :: r)
          end in
        let l := go tr in exists l
    end;
    (split; [ reflexivity | ]);
    (split; [ reflexivity | ]);
    (split; [ simpl; tauto | ]);
    (split; [ simpl; intros; try discriminate; tauto | ]);
    intros id H; try discriminate; injection H as <-; simpl; tauto.
Qed.

(** What [releaseCapture] does, in full: the observations it adds, newest
    first, and the refs it leaves. *)
Lemma releaseCapture_history (s : St) :
  let s1 := releaseCapture s in
  trace s1
  = O_analyserRelease
    :: (if audioContextRef s then [O_contextClose] else [])
    ++ (if isSome (streamRef s) then [O_trackStop] else [])
    ++ match mediaRecorderRef s with Some recording => [O_recorderStop] | _ => [] end
    ++ match silenceTimerRef s with Some id => [O_clearTimeout id] | None => [] end
    ++ trace s
  /\ audioContextRef s1 = false
  /\ mediaRecorderRef s1
     = match mediaRecorderRef s with Some _ => Some inactive | None => None end.
Proof.
  unfold releaseCapture, clearSilenceTimer, recorderStop, log.
  destruct s as [rec chunks stream tr flag an ctx timer last heard lis txt proc err
                   clk tms nt stops fr tks nu trc].
  simpl.
  destruct timer; simpl; destruct rec as [ [ | ] | ]; simpl;
    destruct stream; simpl; destruct ctx; simpl; repeat split.
Qed.

(** C4, as amended.  When Stop is pressed while the buffer is not empty,
    nothing is being processed and the model is loaded, [stopListening]
    first clears the silence timer, stops the recorder if it records,
    stops the stream tracks, closes the audio context if it is open and
    releases the analysis node, in this order, and then hands the buffer
    off, once: the hand-off is the last thing it does before the call of
    [processAudio] suspends (or, for a buffer of no bytes, gives the flag
    back).  At the hand-off no recorder records, no context is open and
    the stream, analyser and timer refs are empty.  The recorder's [stop]
    event that follows starts nothing. *)
Theorem stop_flushes_once_after_release (s : St) :
  isNil (audioChunksRef s) = false ->
  isProcessingRef s = false ->
  transcriberRef s = true ->
  let s1 := releaseCapture s in
  let s' := stopListening s in
  let u := nextUtterance s in
  trace s1
  = O_analyserRelease
    :: (if audioContextRef s then [O_contextClose] else [])
    ++ (if isSome (streamRef s) then [O_trackStop] else [])
    ++ match mediaRecorderRef s with Some recording => [O_recorderStop] | _ => [] end
    ++ match silenceTimerRef s with Some id => [O_clearTimeout id] | None => [] end
    ++ trace s
  /\ trace s'
     = (if size (newBlob (audioChunksRef s)) =? 0 then [O_release u] else [])
       ++ O_accept u (audioChunksRef s) :: trace s1
  /\ count isAccept (trace s') = S (count isAccept (trace s))
  /\ tasks s'
     = tasks s
       ++ (if size (newBlob (audioChunksRef s)) =? 0 then []
           else [ {| utt := u; continueAfter := false;
                     stage := AwaitArrayBuffer (newBlob (audioChunksRef s)) |} ])
  /\ streamRef s' = None /\ analyserRef s' = false /\ silenceTimerRef s' = None
  /\ audioContextRef s' = false
  /\ mediaRecorderRef s'
     = match mediaRecorderRef s with Some _ => Some inactive | None => None end
  /\ onstop s' = s'.
Proof.
  intros Hchunks Hflag Hmodel. cbv zeta.
  destruct (releaseCapture_trace s)
    as (Htr & Hstream & Han & Htimer & Hc & Hf & Hm & Hn & Hk).
  destruct (releaseCapture_history s) as (Hh & Hctx & Hrec).
  split; [ exact Hh | ]. clear Hh.
  destruct Htr as (l & Htr & Hacc & _).
  unfold stopListening. cbv zeta.
  remember (releaseCapture s) as s1 eqn:Es1. clear Es1.
  rewrite Hc, Hf, Hchunks, Hflag. simpl.
  unfold processAudio. rewrite Hc, Hf, Hm, Hchunks, Hflag, Hmodel. simpl.
  rewrite ?Hc, ?Hn, ?Hchunks.
  assert (Hcount : count isAccept (O_accept (nextUtterance s) (audioChunksRef s) :: trace s1)
                   = S (count isAccept (trace s))).
  { rewrite count_cons. simpl. rewrite Htr, count_app, (none_count _ _ Hacc). reflexivity. }
  destruct (size (newBlob (audioChunksRef s)) =? 0); simpl.
  - rewrite Hk, app_nil_r.
    repeat split; try assumption.
    unfold onstop, streamActive. simpl. now rewrite Hstream.
  - rewrite Hk. repeat split; try assumption.
    unfold onstop, streamActive. simpl. now rewrite Hstream.
Qed.

(** C8. When the engine answers with a text, every [[BLANK_AUDIO]] in it
    (in any case) is removed and the rest is trimmed.  What is left is
    appended to the transcript, after one space if the transcript is not
    empty, exactly when it is not empty and not made of white space, square
    brackets and parentheses only; otherwise the transcript is as before.
    An answer without a text changes nothing. *)
Theorem engine_text_appended
    (s : St) (u : nat) (t : Task) (result : option str) :
  findTask u s = Some t -> stage t = AwaitTranscribe ->
  let s' := step Math_sqrt s (EvTranscribed u (Resolved result)) in
  transcript s'
  = match result with
    | Some text =>
        let rest := trim (replaceBlankAudio text) in
        if truthy rest
           && negb (forallb (fun c => isWhiteSpace c || existsb (N.eqb c) (lit "[]()"))
                      rest)
        then transcript s ++ (if truthy (transcript s) then lit " " else []) ++ rest
        else transcript s
    | None => transcript s
    end.
Proof.
  intros Hfind Hstage. cbv zeta.
  rewrite (step_transcribed s u t _ Hfind Hstage). unfold afterTranscribe.
  match goal with
  | |- context [release ?v ?s0] =>
      destruct (released_returned (continueAfter t) v s0) as (_ & _ & Ht & _)
  end.
  rewrite Ht. clear Ht.
  destruct result as [ text | ]; [ | reflexivity ].
  change (trim (replaceBlankAudio text)) with (cleanText_spec text).
  rewrite <- TextFacts.cleanText_refines.
  change (forallb (fun c => isWhiteSpace c || existsb (N.eqb c) (lit "[]()")) (cleanText text))
    with (onlySpecialTokens (cleanText text)).
  fold (keepText (cleanText text)).
  destruct (truthy text) eqn:Etext.
  - destruct (keepText (cleanText text)); reflexivity.
  - destruct text; [ reflexivity | discriminate ].
Qed.

End SessionFacts.

(* ================================================================== *)
(** * The claims at concrete inputs *)


(** C3 as stated fails.  After the first boundary the buffer fails to
    decode and the recorder is restarted; 1.5 s of silence later the timer
    is armed and a second boundary fires, with no frame above the threshold
    since the first one. *)
Lemma boundary_without_new_speech :
  let s := run sqrtApprox awaitingDecode silenceGoesOn in
  filter (fun o => isSpeech o || isBoundary o || isSetTimeout o) (history s)
     = [O_speech; O_setTimeout 0; O_boundary; O_setTimeout 1; O_boundary]
  /\ speechBeforeEachBoundary false (history s) = false
  /\ hasRecordedSpeechRef s = true.
Proof. vm_compute. repeat split. Qed.

Lemma no_boundary_before_first_speech_witness :
  let evs := [EvDataAvailable someChunk; EvClock 5000; EvFrame silentFrame] in
  let s := run sqrtApprox (started 0) evs in
  quiet sqrtApprox evs = true
  /\ count isBoundary (trace s) = 0%nat
  /\ count isSetTimeout (trace s) = 0%nat.
Proof.
  cbv zeta.
  assert (Hq : quiet sqrtApprox [EvDataAvailable someChunk; EvClock 5000; EvFrame silentFrame]
               = true) by (vm_compute; reflexivity).
  destruct (no_boundary_before_first_speech sqrtApprox 0 _ Hq) as (H1 & H2 & _).
  exact (conj Hq (conj H1 H2)).
Defined.

(** C4 as stated fails.  Stop with one buffered chunk: the recorder is
    stopped, the tracks are stopped, the context is closed and the
    analysis node released, and only then is the buffer handed off. *)
Lemma handoff_after_release :
  history buffering = []
  /\ history (stopListening buffering)
     = [O_recorderStop; O_trackStop; O_contextClose; O_analyserRelease;
        O_accept 0 [someChunk]]
  /\ handoffBeforeReleases (history (stopListening buffering)) = false.
Proof. vm_compute. repeat split. Qed.

Lemma stop_flushes_once_after_release_witness :
  isNil (audioChunksRef buffering) = false
  /\ isProcessingRef buffering = false
  /\ transcriberRef buffering = true
  /\ trace (releaseCapture buffering)
     = [O_analyserRelease; O_contextClose; O_trackStop; O_recorderStop]
  /\ trace (stopListening buffering)
     = O_accept 0 [someChunk] :: trace (releaseCapture buffering)
  /\ count isAccept (trace (stopListening buffering)) = 1%nat
  /\ audioContextRef (stopListening buffering) = false
  /\ mediaRecorderRef (stopListening buffering) = Some inactive
  /\ onstop (stopListening buffering) = stopListening buffering.
Proof.
  destruct (stop_flushes_once_after_release buffering eq_refl eq_refl eq_refl)
    as (Hr & Ht & Hc & _ & _ & _ & _ & Hx & Hm & Ho).
  exact (conj eq_refl (conj eq_refl (conj eq_refl
           (conj Hr (conj Ht (conj Hc (conj Hx (conj Hm Ho)))))))).
Defined.

Lemma short_buffer_dropped_witness :
  let s' := step sqrtApprox awaitingDecode (EvDecoded 0 (Resolved shortBuffer)) in
  findTask 0 awaitingDecode = Some decodingTask
  /\ len (channelData shortBuffer) < 8000
  /\ count isTranscribe (trace s') = count isTranscribe (trace awaitingDecode)
  /\ error s' = error awaitingDecode
  /\ transcript s' = transcript awaitingDecode.
Proof.
  cbv zeta.
  destruct (short_buffer_dropped sqrtApprox awaitingDecode 0 decodingTask shortBuffer
              eq_refl eq_refl eq_refl)
    as (H1 & _ & _ & H4 & H5 & _).
  exact (conj eq_refl (conj eq_refl (conj H1 (conj H4 H5)))).
Defined.


Lemma decode_failure_swallowed_witness :
  let s' := step sqrtApprox awaitingDecode (EvDecoded 0 (Rejected decodeFailure)) in
  findTask 0 awaitingDecode = Some decodingTask
  /\ streamActive awaitingDecode = true
  /\ mediaRecorderRef awaitingDecode = Some inactive
  /\ count isWarn (trace s') = S (count isWarn (trace awaitingDecode))
  /\ error s' = error awaitingDecode
  /\ isProcessingRef s' = false
  /\ mediaRecorderRef s' = Some recording.
Proof.
  cbv zeta.
  destruct (decode_failure_swallowed sqrtApprox awaitingDecode 0 decodingTask decodeFailure
              eq_refl eq_refl)
    as (H1 & _ & _ & _ & H5 & _ & H7 & _ & H9).
  destruct (H9 eq_refl eq_refl eq_refl) as [Hrec _].
  exact (conj eq_refl (conj eq_refl (conj eq_refl (conj H1 (conj H5 (conj H7 Hrec)))))).
Defined.

Lemma engine_text_appended_witness :
  let answer := Some (lit "  [blank_audio] Hello [BLANK_AUDIO]world ") in
  let s' := step sqrtApprox awaitingTranscribe (EvTranscribed 0 (Resolved answer)) in
  findTask 0 awaitingTranscribe = Some transcribingTask
  /\ transcript awaitingTranscribe = []
  /\ transcript s' = lit "Hello world".
Proof.
  cbv zeta. split; [ reflexivity | ]. split; [ reflexivity | ].
  rewrite (engine_text_appended sqrtApprox awaitingTranscribe 0 transcribingTask _
             eq_refl eq_refl).
  reflexivity.
Defined.

(** C9 as stated fails.  Seven samples from 8960 Hz to 16000 Hz: the ratio
    is the double 0.56, [7 / 0.56] is the double 12.499999999999998 and the
    result has 12 elements, where [round(7 * 16000 / 8960)] is 13, in
    exact arithmetic and in doubles. *)
Lemma resampleAudio_length_below_formula :
  option_map (@length _)
    (ResampleDouble.resampleAudio sevenSamples (Double.ofZ 8960) (Double.ofZ 16000))
  = Some 12%nat
  /\ Double.toQ (Double.div (Double.ofZ 7)
                            (Double.div (Double.ofZ 8960) (Double.ofZ 16000)))
     = Some (7036874417766399 # 562949953421312)%Q
  /\ Resample.Math_round (7 * 16000 / 8960)%Q = 13
  /\ Double.Math_round (Double.div (Double.mul (Double.ofZ 7) (Double.ofZ 16000))
                                   (Double.ofZ 8960))
     = Double.ofZ 13.
Proof. vm_compute. repeat split. Qed.

Lemma resampleAudio_rounded_witness :
  Double.strictEq (Double.ofZ 44100) (Double.ofZ 16000) = false
  /\ ResampleDouble.arrayLength
       (Double.Math_round
          (Double.div (Double.ofZ (ResampleDouble.len squareWave))
                      (Double.div (Double.ofZ 44100) (Double.ofZ 16000))))
     = Some 3%nat
  /\ (exists out,
        ResampleDouble.resampleAudio squareWave (Double.ofZ 44100) (Double.ofZ 16000)
        = Some out
        /\ length out = 3%nat
        /\ nth_error out 1 = Some (SpecFloat.S754_finite false 6811694651146240 (-53)))
  /\ Double.div (Double.ofZ 6343885) (Double.ofZ 8388608)
     = SpecFloat.S754_finite false 6811694651146240 (-53)
  /\ ResampleDouble.resampleAudio squareWave (Double.ofZ 16000) (Double.ofZ 16000)
     = Some squareWave.
Proof.
  destruct (ResampleDoubleFacts.resampleAudio_rounded_interpolation
              squareWave (Double.ofZ 44100) (Double.ofZ 16000)) as [_ Hd].
  destruct (Hd eq_refl 3%nat eq_refl) as (out & Ho & Hl & Hs).
  destruct (ResampleDoubleFacts.resampleAudio_rounded_interpolation
              squareWave (Double.ofZ 16000) (Double.ofZ 16000)) as [Hi _].
  refine (conj eq_refl (conj eq_refl (conj _ (conj eq_refl (Hi eq_refl))))).
  exists out.
  refine (conj Ho (conj Hl _)).
  exact (Hs 1%nat 2 3 (Double.ofZ 0) (Double.ofZ 1)
            (le_S 2 2 (le_n 2)) eq_refl eq_refl (Z.le_0_2) eq_refl (Zle_0_pos 3) eq_refl).
Defined.


(* ================================================================== *)
(** * Further properties of the text filter *)

Module MoreTextFacts.
Import Text TextFacts.

Lemma trimStart_head (x y : str) (c : N) :
  trimStart x = c :: y -> isWhiteSpace c = false.
Proof.
  induction x as [ | a x IH ]; simpl; [ discriminate | ].
  destruct (isWhiteSpace a) eqn:Ha; [ exact IH | ].
  intros E. injection E as <- _. exact Ha.
Qed.

Lemma last_nonempty (x : str) (d d' : N) : x <> [] -> last x d = last x d'.
Proof.
  induction x as [ | a [ | b x ] IH ]; intros H; [ contradiction | reflexivity | ].
  change (last (b :: x) d = last (b :: x) d'). apply IH. discriminate.
Qed.

Lemma last_app_nonempty (x y : str) (d : N) : y <> [] -> last (x ++ y) d = last y d.
Proof.
  intros H. induction x as [ | a x IH ]; [ reflexivity | ].
  simpl app. destruct (x ++ y) eqn:E.
  - destruct x; [ simpl in E; contradiction | discriminate ].
  - exact IH.
Qed.

(** What [trim] returns is empty or has no white space at either end. *)
Lemma edgeClean_trim (x : str) : edgeClean (trim x) = true.
Proof.
  unfold trim, trimEnd.
  destruct (trimStart_split (rev (trimStart x))) as (w & Hw & E).
  destruct (trimStart (rev (trimStart x))) as [ | c z ] eqn:Ez; [ reflexivity | ].
  pose proof (trimStart_head _ _ _ Ez) as Hc.
  assert (Ey : trimStart x = rev (c :: z) ++ rev w).
  { rewrite <- rev_app_distr, <- E. now rewrite rev_involutive. }
  destruct (rev (c :: z)) as [ | d r ] eqn:Er.
  { apply (f_equal (@length N)) in Er. rewrite length_rev in Er. discriminate. }
  simpl in Ey. pose proof (trimStart_head _ _ _ Ey) as Hd.
  assert (Hlast : last (d :: r) d = c).
  { rewrite <- Er. simpl rev. apply last_last. }
  unfold edgeClean. now rewrite Hd, Hlast, Hc.
Qed.

Lemma edgeClean_cleanText (text : str) : edgeClean (cleanText text) = true.
Proof. unfold cleanText. apply edgeClean_trim. Qed.

(** Appending a kept segment keeps the edges of the transcript clean. *)
Lemma edgeClean_appendTranscript (newText prev : str) :
  edgeClean prev = true -> edgeClean newText = true -> truthy newText = true ->
  edgeClean (appendTranscript newText prev) = true.
Proof.
  unfold appendTranscript. intros Hp Hn Ht.
  destruct prev as [ | p ps ]; [ exact Hn | ].
  destruct newText as [ | n ns ]; [ discriminate | ].
  cbn [truthy].
  unfold edgeClean in Hp, Hn.
  apply andb_prop in Hp. destruct Hp as [Hp _].
  apply andb_prop in Hn. destruct Hn as [_ Hn].
  assert (Hlast : last ((p :: ps) ++ lit " " ++ n :: ns) p = last (n :: ns) n).
  { rewrite app_assoc, last_app_nonempty by discriminate.
    apply last_nonempty. discriminate. }
  change (edgeClean (p :: (ps ++ lit " " ++ n :: ns)) = true).
  unfold edgeClean.
  change (p :: ps ++ lit " " ++ n :: ns) with ((p :: ps) ++ lit " " ++ n :: ns).
  now rewrite Hlast, Hp, Hn.
Qed.

Lemma replaceBlankAudio_ws_prefix (w x : str) :
  allWhiteSpace w -> replaceBlankAudio (w ++ x) = w ++ replaceBlankAudio x.
Proof.
  unfold allWhiteSpace, replaceBlankAudio.
  induction w as [ | c w IH ]; [ reflexivity | ].
  intros H. simpl in H. apply andb_prop in H. destruct H as [Hc Hw].
  simpl app. rewrite replaceFrom_ws_head by exact Hc. now rewrite IH.
Qed.

Lemma replaceFrom_skip (x y : str) : replaceFrom (length x) (x ++ y) = replaceFrom 0 y.
Proof. induction x as [ | c x IH ]; [ reflexivity | exact IH ]. Qed.

Lemma trim_ws (w : str) : allWhiteSpace w -> trim w = [].
Proof.
  intros H. unfold trim.
  rewrite <- (app_nil_r w). now rewrite trimStart_app_ws.
Qed.

Lemma allWhiteSpace_app (w1 w2 : str) :
  allWhiteSpace w1 -> allWhiteSpace w2 -> allWhiteSpace (w1 ++ w2).
Proof. unfold allWhiteSpace. intros H1 H2. now rewrite forallb_app, H1, H2. Qed.

(** The token, in any case, between white space: nothing is left. *)
Lemma cleanText_blank (w1 tok w2 : str) :
  forallb isWhiteSpace w1 = true -> forallb isWhiteSpace w2 = true ->
  matchesAt BLANK_AUDIO tok = true -> length tok = length BLANK_AUDIO ->
  cleanText (w1 ++ tok ++ w2) = [].
Proof.
  intros Hw1 Hw2 Hm Hl. rewrite cleanText_refines. unfold cleanText_spec.
  rewrite replaceBlankAudio_ws_prefix by exact Hw1.
  assert (E : replaceBlankAudio (tok ++ w2) = w2).
  { unfold replaceBlankAudio.
    destruct tok as [ | c tok ]; [ discriminate | ].
    change (replaceFrom 0 ((c :: tok) ++ w2))
      with (if matchesAt BLANK_AUDIO ((c :: tok) ++ w2)
            then replaceFrom (length BLANK_AUDIO - 1) (tok ++ w2)
            else c :: replaceFrom 0 (tok ++ w2)).
    rewrite matchesAt_app_ws by (auto using incl_refl). rewrite Hm.
    replace (length BLANK_AUDIO - 1)%nat with (length tok)
      by (rewrite <- Hl; simpl; lia).
    rewrite replaceFrom_skip. now apply replaceFrom_ws. }
  rewrite E. apply trim_ws. now apply allWhiteSpace_app.
Qed.

End MoreTextFacts.

(* ================================================================== *)
(** ** More on the resampler *)

Module MoreResampleFacts.
Import Resample ResampleFacts.

Open Scope Q_scope.

Lemma fraction_range (x : Q) : 0 <= x - inject_Z (Qfloor x) < 1.
Proof.
  pose proof (Qfloor_le x) as H1. pose proof (Qlt_floor x) as H2.
  rewrite inject_Z_plus in H2. change (inject_Z 1) with 1 in H2.
  split; lra.
Qed.

Lemma mix_range (lo hi x y f : Q) :
  lo <= x <= hi -> lo <= y <= hi -> 0 <= f < 1 ->
  lo <= x * (1 - f) + y * f <= hi.
Proof.
  intros [Hx1 Hx2] [Hy1 Hy2] [Hf1 Hf2].
  assert (A1 : 0 <= (x - lo) * (1 - f)) by (apply Qmult_le_0_compat; lra).
  assert (A2 : 0 <= (y - lo) * f) by (apply Qmult_le_0_compat; lra).
  assert (B1 : 0 <= (hi - x) * (1 - f)) by (apply Qmult_le_0_compat; lra).
  assert (B2 : 0 <= (hi - y) * f) by (apply Qmult_le_0_compat; lra).
  assert (E1 : x * (1 - f) + y * f == lo + ((x - lo) * (1 - f) + (y - lo) * f)) by ring.
  assert (E2 : x * (1 - f) + y * f == hi - ((hi - x) * (1 - f) + (hi - y) * f)) by ring.
  split.
  - rewrite E1. lra.
  - rewrite E2. lra.
Qed.

Lemma get_within (lo hi : Q) (a : Float32Array) (k : Z) :
  within lo hi a -> inBounds a k -> lo <= get a k <= hi.
Proof.
  intros Ha Hk. unfold within in Ha. rewrite Forall_forall in Ha.
  apply Ha. eapply nth_error_In. now apply get_in_bounds.
Qed.

Lemma newLength_empty (ratio : Q) : newLength [] ratio = 0%Z.
Proof.
  unfold newLength, Math_round, len. simpl length.
  change (Qfloor (inject_Z 0 / ratio + (1 # 2)) = Qfloor (1 # 2)).
  apply Qfloor_comp. unfold Qdiv. change (inject_Z 0) with 0. ring.
Qed.

(** X11. Resampling never leaves the range of its input: when every sample
    of the input lies between [lo] and [hi], so does every sample of the
    output, for any two positive rates (no overshoot, so samples in
    [-1, 1] stay in [-1, 1]). *)
Theorem resampleAudio_within_range
    (audioData : Float32Array) (fromRate toRate lo hi : Q) :
  0 < fromRate -> 0 < toRate ->
  within lo hi audioData ->
  within lo hi (resampleAudio audioData fromRate toRate).
Proof.
  intros Hf Ht Ha. unfold resampleAudio.
  destruct (Qeq_bool fromRate toRate); [ exact Ha | ].
  cbv zeta.
  assert (Hr : 0 < fromRate / toRate).
  { apply Qlt_shift_div_l; [ exact Ht | lra ]. }
  unfold within. rewrite Forall_forall. intros x Hx.
  apply in_map_iff in Hx. destruct Hx as (i & <- & Hi).
  apply in_seq in Hi.
  assert (Hi' : (0 <= Z.of_nat i < newLength audioData (fromRate / toRate))%Z) by lia.
  pose proof (indexFloor_in_bounds audioData _ _ Hr Hi') as Hfl.
  unfold interpolate. cbv zeta.
  unfold indexFloor in Hfl.
  apply mix_range.
  - now apply get_within.
  - apply get_within; [ exact Ha | ].
    unfold inBounds in *. lia.
  - apply fraction_range.
Qed.

Lemma Qfloor_of_Z (x : Q) (n : Z) : x == inject_Z n -> Qfloor x = n.
Proof. intros E. rewrite (Qfloor_comp _ _ E). apply Qfloor_Z. Qed.

Lemma Math_round_Z (n : Z) : Math_round (inject_Z n) = n.
Proof.
  unfold Math_round.
  pose proof (Qfloor_le (inject_Z n + (1 # 2))) as L.
  pose proof (Qlt_floor (inject_Z n + (1 # 2))) as U.
  assert (A : inject_Z (Qfloor (inject_Z n + (1 # 2))) < inject_Z (n + 1)).
  { rewrite inject_Z_plus. change (inject_Z 1) with 1. lra. }
  assert (B : inject_Z n < inject_Z (Qfloor (inject_Z n + (1 # 2)) + 1)) by lra.
  rewrite <- Zlt_Qlt in A, B. lia.
Qed.

(** X12. Down-sampling by a whole factor keeps every [k]-th sample as it
    is: when [fromRate] is [k] times [toRate], output sample [i] is input
    sample [k * i], with nothing mixed in from its neighbour, and the
    output has [round(length / k)] samples. *)
Theorem resampleAudio_decimates
    (audioData : Float32Array) (fromRate toRate : Q) (k : Z) (i : nat) :
  0 < toRate -> (1 <= k)%Z -> fromRate == inject_Z k * toRate ->
  let out := resampleAudio audioData fromRate toRate in
  len out = Math_round (inject_Z (len audioData) / inject_Z k)
  /\ ((Z.of_nat i < len out)%Z -> nth i out 0 == get audioData (k * Z.of_nat i)).
Proof.
  intros Ht Hk E. cbv zeta.
  assert (Ht0 : ~ toRate == 0) by (intro E0; rewrite E0 in Ht; discriminate).
  assert (Er : fromRate / toRate == inject_Z k).
  { rewrite E. field. exact Ht0. }
  unfold resampleAudio.
  destruct (Qeq_bool fromRate toRate) eqn:Eb.
  - apply Qeq_bool_iff in Eb.
    assert (Ek : inject_Z k == 1).
    { rewrite <- Er, Eb. field. exact Ht0. }
    assert (k = 1)%Z as ->.
    { change 1 with (inject_Z 1) in Ek. rewrite inject_Z_injective in Ek. exact Ek. }
    split.
    + rewrite <- (Math_round_Z (len audioData)) at 1.
      unfold Math_round. apply Qfloor_comp. change (inject_Z 1) with 1. field.
    + intros _. unfold get. now rewrite Z.mul_1_l, Nat2Z.id.
  - cbv zeta. split.
    + unfold len. rewrite length_map, length_seq.
      assert (N : newLength audioData (fromRate / toRate)
                  = Math_round (inject_Z (len audioData) / inject_Z k)).
      { unfold newLength, Math_round. apply Qfloor_comp. now rewrite Er. }
      rewrite N. apply Z2Nat.id.
      unfold Math_round. apply Qfloor_nonneg.
      assert (0 <= inject_Z (len audioData) / inject_Z k).
      { apply Qle_shift_div_l.
        - change 0 with (inject_Z 0). rewrite <- Zlt_Qlt. lia.
        - rewrite Qmult_0_l. change 0 with (inject_Z 0). rewrite <- Zle_Qle.
          unfold len. lia. }
      unfold len in *.
      remember (inject_Z (Z.of_nat (length audioData)) / inject_Z k) as q. lra.
    + unfold len. rewrite length_map, length_seq. intros Hi.
      assert (Hi' : (i < Z.to_nat (newLength audioData (fromRate / toRate)))%nat) by lia.
      rewrite (nth_indep _ 0 (interpolate audioData (fromRate / toRate) (Z.of_nat 0)))
        by (rewrite length_map, length_seq; exact Hi').
      rewrite (map_nth (fun j => interpolate audioData (fromRate / toRate) (Z.of_nat j))).
      rewrite seq_nth by exact Hi'. simpl plus.
      unfold interpolate. cbv zeta. unfold Math_floor.
      assert (Ei : inject_Z (Z.of_nat i) * (fromRate / toRate)
                   == inject_Z (k * Z.of_nat i)).
      { rewrite Er, inject_Z_mult. ring. }
      rewrite (Qfloor_of_Z _ _ Ei). rewrite Ei. ring.
Qed.

End MoreResampleFacts.

(* ================================================================== *)
(** * Further properties of the component *)

Section MoreSessionFacts.

Variable Math_sqrt : Q -> Q.

(** ** The exits of processAudio *)

(** A returning call clears the flag once; its caller may restart the
    recorder. *)
Lemma settled_release (c : bool) (u : nat) (s1 : St) :
  let s' := settled c (release u s1, true) in
  isProcessingRef s' = false
  /\ tasks s' = tasks s1
  /\ count isRelease_flag (trace s') = S (count isRelease_flag (trace s1)).
Proof.
  unfold settled, release, restartRecording, streamActive, log.
  destruct s1 as [rec chunks stream tr flag an ctx timer last heard lis txt proc err
                    clk tms nt stops fr tks nu trc].
  simpl. destruct c; simpl; [ | auto ].
  destruct stream as [ [ | ] | ]; simpl; destruct rec as [ [ | ] | ]; simpl; auto.
Qed.

Lemma catchError_Returns (t : Task) (err : JsError) (s0 : St) :
  Returns t s0 (catchError (utt t) err s0, true).
Proof.
  unfold Returns, catchError. split; [ reflexivity | ]. cbv zeta.
  match goal with |- context [if ?c then _ else _] => destruct c end;
    eexists; (split; [ reflexivity | split; reflexivity ]).
Qed.

Lemma afterArrayBuffer_ends (t : Task) (b : Blob) (r : Outcome unit) (s0 : St) :
  Returns t s0 (afterArrayBuffer t b r s0)
  \/ Suspends t AwaitDecode s0 (afterArrayBuffer t b r s0).
Proof.
  unfold afterArrayBuffer. destruct r as [ [] | err ].
  - destruct (size b =? 0).
    + left. split; [ reflexivity | ]. exists s0. auto.
    + right. split; [ reflexivity | ]. eexists. split; [ reflexivity | ]. auto.
  - left. apply catchError_Returns.
Qed.

Lemma afterDecode_ends (t : Task) (r : Outcome AudioBuffer) (s0 : St) :
  Returns t s0 (afterDecode Math_sqrt t r s0)
  \/ Suspends t AwaitTranscribe s0 (afterDecode Math_sqrt t r s0).
Proof.
  unfold afterDecode. destruct r as [ audioBuffer | err ].
  - destruct (len (channelData audioBuffer) <? 8000).
    { left. split; [ reflexivity | ]. exists s0. auto. }
    destruct (negb (hasAudioContent Math_sqrt (channelData audioBuffer) audioFloor)).
    { left. split; [ reflexivity | ]. exists s0. auto. }
    right. split; [ reflexivity | ]. eexists. split; [ reflexivity | ]. auto.
  - left. split; [ reflexivity | ]. eexists. split; [ reflexivity | ]. auto.
Qed.

Lemma afterTranscribe_ends (t : Task) (r : Outcome (option str)) (s0 : St) :
  Returns t s0 (afterTranscribe t r s0).
Proof.
  unfold afterTranscribe. destruct r as [ result | err ];
    [ | apply catchError_Returns ].
  split; [ reflexivity | ]. eexists. split; [ reflexivity | ].
  destruct result as [ text | ]; [ | auto ].
  destruct (truthy text); [ | auto ].
  destruct (keepText (cleanText text)); auto.
Qed.

Lemma tasks_dropTask (u : nat) (s : St) :
  tasks (dropTask u s) = filter (fun t => negb (Nat.eqb (utt t) u)) (tasks s)
  /\ trace (dropTask u s) = trace s.
Proof. split; reflexivity. Qed.

Lemma find_dropped (u : nat) (k : list Task) :
  find (fun t => Nat.eqb (utt t) u) (filter (fun t => negb (Nat.eqb (utt t) u)) k) = None.
Proof.
  induction k as [ | t k IH ]; simpl; [ reflexivity | ].
  destruct (Nat.eqb (utt t) u) eqn:E; simpl; [ exact IH | ]. now rewrite E.
Qed.

Lemma find_resuspended (u : nat) (t' : Task) (k : list Task) :
  utt t' = u ->
  find (fun t => Nat.eqb (utt t) u)
       (filter (fun t => negb (Nat.eqb (utt t) u)) k ++ [t']) = Some t'.
Proof.
  intros E. induction k as [ | t k IH ]; simpl.
  - subst u. now rewrite Nat.eqb_refl.
  - destruct (Nat.eqb (utt t) u) eqn:Et; simpl; [ exact IH | ]. now rewrite Et.
Qed.

(** The state after a settlement, in the two cases. *)
Lemma settlement_returned (u : nat) (t : Task) (s : St) (r : St * bool) :
  Returns t (dropTask u s) r ->
  let s' := settled (continueAfter t) r in
  isProcessingRef s' = false
  /\ findTask u s' = None
  /\ count isRelease_flag (trace s') = S (count isRelease_flag (trace s)).
Proof.
  intros [Hb (s1 & E & Hk & Hc)]. destruct r as [s2 b]. cbn [fst snd] in *. subst b s2.
  destruct (settled_release (continueAfter t) (utt t) s1) as (Hf & Hk' & Hc').
  cbv zeta. repeat split; try assumption.
  - unfold findTask. rewrite Hk', Hk. apply find_dropped.
  - rewrite Hc', Hc. reflexivity.
Qed.

Lemma settlement_suspended (u : nat) (t : Task) (next : Stage) (s : St) (r : St * bool) :
  utt t = u ->
  Suspends t next (dropTask u s) r ->
  let s' := settled (continueAfter t) r in
  findTask u s' = Some {| utt := utt t; continueAfter := continueAfter t; stage := next |}
  /\ count isRelease_flag (trace s') = count isRelease_flag (trace s).
Proof.
  intros Eu [Hb (s1 & E & Hk & Hc)]. destruct r as [s2 b]. cbn [fst snd] in *. subst b s2.
  split.
  - unfold findTask, suspend. simpl. rewrite Hk. now apply find_resuspended.
  - unfold suspend. simpl. exact Hc.
Qed.

Lemma step_arrayBuffer (s : St) (u : nat) (t : Task) (b : Blob) (r : Outcome unit) :
  findTask u s = Some t -> stage t = AwaitArrayBuffer b ->
  step Math_sqrt s (EvArrayBuffer u r)
  = settled (continueAfter t) (afterArrayBuffer t b r (dropTask u s)).
Proof. intros H1 H2. simpl. now rewrite H1, H2. Qed.

Lemma step_no_task (s : St) (u : nat) :
  findTask u s = None ->
  (forall r, step Math_sqrt s (EvArrayBuffer u r) = s)
  /\ (forall r, step Math_sqrt s (EvDecoded u r) = s)
  /\ (forall r, step Math_sqrt s (EvTranscribed u r) = s).
Proof. intros H. repeat split; intros r; simpl; now rewrite H. Qed.

(** X1. Whatever the three promises of a call of [processAudio] settle
    with, the call clears the busy flag, and clears it once: after the
    settlements of [arrayBuffer], of the decoder and of the engine the
    flag is clear, the call is no longer suspended, and the trace has one
    more release than before. *)
Theorem flag_released_on_every_exit
    (s : St) (u : nat) (t : Task) (audioBlob : Blob)
    (r1 : Outcome unit) (r2 : Outcome AudioBuffer) (r3 : Outcome (option str)) :
  findTask u s = Some t -> stage t = AwaitArrayBuffer audioBlob ->
  let s' := run Math_sqrt s [EvArrayBuffer u r1; EvDecoded u r2; EvTranscribed u r3] in
  isProcessingRef s' = false
  /\ findTask u s' = None
  /\ count isRelease_flag (trace s') = S (count isRelease_flag (trace s)).
Proof.
  intros Hfind Hstage. cbv zeta. unfold run. cbn [fold_left].
  pose proof (findTask_utt u t s Hfind) as Eu.
  rewrite (step_arrayBuffer s u t audioBlob r1 Hfind Hstage).
  destruct (afterArrayBuffer_ends t audioBlob r1 (dropTask u s)) as [ H1 | H1 ].
  { destruct (settlement_returned u t s _ H1) as (Hf & Hn & Hc).
    destruct (step_no_task _ u Hn) as (_ & E2 & E3).
    rewrite E2, E3. auto. }
  destruct (settlement_suspended u t AwaitDecode s _ Eu H1) as (Hfind1 & Hc1).
  remember (settled (continueAfter t) (afterArrayBuffer t audioBlob r1 (dropTask u s)))
    as s1 eqn:Es1. clear Es1 H1.
  rewrite (step_decoded Math_sqrt s1 u _ r2 Hfind1 eq_refl). simpl utt. simpl continueAfter.
  match goal with
  | |- context [afterDecode Math_sqrt ?t1 r2 ?s0] =>
      destruct (afterDecode_ends t1 r2 s0) as [ H2 | H2 ];
      [ destruct (settlement_returned u t1 s1 _ H2) as (Hf & Hn & Hc);
        destruct (step_no_task _ u Hn) as (_ & _ & E3);
        simpl continueAfter in *; rewrite E3; rewrite Hc, Hc1; auto
      | destruct (settlement_suspended u t1 AwaitTranscribe s1 _ Eu H2) as (Hfind2 & Hc2) ]
  end.
  simpl utt in *. simpl continueAfter in *.
  match goal with
  | |- context [step Math_sqrt ?s2 (EvTranscribed u r3)] =>
      remember s2 as s2' eqn:Es2; clear Es2 H2
  end.
  rewrite (step_transcribed Math_sqrt s2' u _ r3 Hfind2 eq_refl).
  simpl continueAfter.
  match goal with
  | |- context [afterTranscribe ?t2 r3 ?s0] =>
      destruct (settlement_returned u t2 s2' _ (afterTranscribe_ends t2 r3 s0))
        as (Hf & Hn & Hc)
  end.
  simpl continueAfter in *. rewrite Hc, Hc2, Hc1. auto.
Qed.

(** ** The outer catch *)

Lemma step_reachesCatch (s : St) (u : nat) (t : Task) (err : JsError) (e : Event) :
  findTask u s = Some t -> reachesCatch t u err e ->
  step Math_sqrt s e = settled (continueAfter t) (catchError (utt t) err (dropTask u s), true).
Proof.
  intros Hfind [ [Hs ->] | (b & Hs & ->) ].
  - now rewrite (step_transcribed Math_sqrt s u t _ Hfind Hs).
  - now rewrite (step_arrayBuffer s u t b _ Hfind Hs).
Qed.

Lemma includes_nil (needle : str) : truthy needle = true -> includes [] needle = false.
Proof. destruct needle; [ discriminate | reflexivity ]. Qed.

(** X2. A failure of the engine (or of [arrayBuffer]) whose message does
    not contain "decode" is shown to the user: the error becomes
    "Transcription error: " followed by the message, or by "Unknown error"
    when there is none.  The transcript is as before, nothing is appended,
    the flag is clear, and an awaiting [processAudioAndContinue] restarts
    the recorder when the stream is still active. *)
Theorem engine_failure_reported
    (s : St) (u : nat) (t : Task) (err : JsError) (e : Event) :
  findTask u s = Some t -> reachesCatch t u err e ->
  includes (messageOf err) (lit "decode") = false ->
  let s' := step Math_sqrt s e in
  error s'
  = Some (lit "Transcription error: "
            ++ (if truthy (messageOf err) then messageOf err else lit "Unknown error"))
  /\ count isSetError (trace s') = S (count isSetError (trace s))
  /\ count isAppend (trace s') = count isAppend (trace s)
  /\ transcript s' = transcript s
  /\ isProcessingRef s' = false
  /\ findTask u s' = None
  /\ (continueAfter t = true -> streamActive s = true ->
      isSome (mediaRecorderRef s) = true ->
      mediaRecorderRef s' = Some recording /\ audioChunksRef s' = []).
Proof.
  intros Hfind He Hinc. cbv zeta.
  rewrite (step_reachesCatch s u t err e Hfind He).
  unfold catchError. cbv zeta. fold (messageOf err). rewrite Hinc.
  rewrite orb_true_r.
  match goal with
  | |- context [release ?v ?s0] =>
      destruct (released_returned (continueAfter t) v s0)
        as (Hc & Her & Ht & Hf & _ & Hk & Hgo)
  end.
  repeat split; try assumption.
  - now rewrite Hc.
  - now rewrite Hc.
  - now apply findTask_dropTask with (s := s).
  - now apply Hgo.
  - now apply Hgo.
Qed.

(** X3. A failure of the engine (or of [arrayBuffer]) whose message
    contains "decode" is taken for a decode error: it is logged with
    [console.warn] and not shown; the error state and the transcript are as
    before and the flag is clear. *)
Theorem decode_worded_failure_hidden
    (s : St) (u : nat) (t : Task) (err : JsError) (e : Event) :
  findTask u s = Some t -> reachesCatch t u err e ->
  includes (messageOf err) (lit "decode") = true ->
  let s' := step Math_sqrt s e in
  error s' = error s
  /\ count isSetError (trace s') = count isSetError (trace s)
  /\ count isWarn (trace s') = S (count isWarn (trace s))
  /\ count isAppend (trace s') = count isAppend (trace s)
  /\ transcript s' = transcript s
  /\ isProcessingRef s' = false
  /\ findTask u s' = None.
Proof.
  intros Hfind He Hinc. cbv zeta.
  rewrite (step_reachesCatch s u t err e Hfind He).
  unfold catchError. cbv zeta. fold (messageOf err). rewrite Hinc.
  assert (Htr : truthy (messageOf err) = true).
  { destruct (messageOf err); [ discriminate | reflexivity ]. }
  rewrite Htr. cbn [negb orb].
  match goal with
  | |- context [release ?v ?s0] =>
      destruct (released_returned (continueAfter t) v s0)
        as (Hc & Her & Ht & Hf & _ & Hk & _)
  end.
  repeat split; try assumption.
  - now rewrite Hc.
  - now rewrite Hc.
  - now rewrite Hc.
  - now apply findTask_dropTask with (s := s).
Qed.

(** ** House-keeping invariants *)

Lemma Tidy_same (s s' : St) :
  isProcessing s' = isProcessing s -> isProcessingRef s' = isProcessingRef s ->
  audioChunksRef s' = audioChunksRef s -> timers s' = timers s ->
  silenceTimerRef s' = silenceTimerRef s -> mediaRecorderRef s' = mediaRecorderRef s ->
  transcriberRef s' = transcriberRef s -> transcript s' = transcript s ->
  Tidy s -> Tidy s'.
Proof. unfold Tidy. intros -> -> -> -> -> -> -> ->. auto. Qed.

Ltac same s := apply (Tidy_same s); try reflexivity; try assumption.

Lemma Tidy_clearSilenceTimer (s : St) : Tidy s -> Tidy (clearSilenceTimer s).
Proof.
  intros H. unfold clearSilenceTimer.
  destruct (silenceTimerRef s) as [ id | ] eqn:E; [ | exact H ].
  destruct H as (H1 & H2 & H3 & H4 & H5 & H6).
  unfold Tidy. simpl. repeat split; try assumption.
  left. destruct H3 as [ -> | (id' & -> & E') ]; [ reflexivity | ].
  rewrite E in E'. injection E' as ->. simpl. now rewrite Nat.eqb_refl.
Qed.

Lemma Tidy_armSilenceTimer (s : St) :
  silenceTimerRef s = None -> Tidy s -> Tidy (armSilenceTimer s).
Proof.
  intros E (H1 & H2 & H3 & H4 & H5 & H6).
  unfold Tidy, armSilenceTimer. simpl. repeat split; try assumption.
  right. exists (nextTimer s). split; [ | reflexivity ].
  destruct H3 as [ -> | (id' & _ & E') ]; [ reflexivity | congruence ].
Qed.

Lemma Tidy_recorderStop (o : Obs) (s : St) : Tidy s -> Tidy (recorderStop o s).
Proof.
  intros (H1 & H2 & H3 & H4 & H5 & H6). unfold Tidy. simpl. auto 10.
Qed.

Lemma Tidy_release (u : nat) (s : St) : Tidy s -> Tidy (release u s).
Proof.
  intros (H1 & H2 & H3 & H4 & H5 & H6). unfold Tidy. simpl. auto 10.
Qed.

Lemma Tidy_restartRecording (s : St) : Tidy s -> Tidy (restartRecording s).
Proof.
  intros H. unfold restartRecording.
  destruct (streamActive s && isSome (mediaRecorderRef s) && negb (isProcessingRef s));
    [ | exact H ].
  cbv zeta. simpl.
  destruct H as (H1 & H2 & H3 & H4 & H5 & H6).
  destruct (mediaRecorderRef s) as [ [ | ] | ] eqn:E; try discriminate;
    unfold Tidy; simpl; rewrite ?E; auto 10.
Qed.

Lemma Tidy_settled (c : bool) (r : St * bool) : Tidy (fst r) -> Tidy (settled c r).
Proof.
  destruct r as [s b]. simpl. intros H.
  destruct (b && c); [ now apply Tidy_restartRecording | exact H ].
Qed.

Lemma Tidy_processAudio (c : bool) (s : St) : Tidy s -> Tidy (fst (processAudio c s)).
Proof.
  intros H. unfold processAudio.
  destruct (isProcessingRef s || isNil (audioChunksRef s) || negb (transcriberRef s));
    [ exact H | ].
  cbv zeta. simpl.
  assert (H' : Tidy (set_audioChunksRef []
                       (log (O_accept (nextUtterance s) (audioChunksRef s))
                          (set_nextUtterance (S (nextUtterance s))
                             (set_isProcessing true (set_isProcessingRef true s)))))).
  { destruct H as (H1 & H2 & H3 & H4 & H5 & H6). unfold Tidy. simpl. auto 10. }
  destruct (isNil (audioChunksRef s)); [ now apply Tidy_release | ].
  destruct (size (newBlob (audioChunksRef s)) =? 0); [ now apply Tidy_release | ].
  cbn [fst]. match goal with |- Tidy (suspend _ ?x) => same x end.
Qed.

Lemma Tidy_catchError (u : nat) (err : JsError) (s : St) :
  Tidy s -> Tidy (catchError u err s).
Proof.
  intros H. unfold catchError. cbv zeta. apply Tidy_release.
  match goal with |- context [if ?c then _ else _] => destruct c end; same s.
Qed.

Lemma Tidy_afterArrayBuffer (t : Task) (b : Blob) (r : Outcome unit) (s : St) :
  Tidy s -> Tidy (fst (afterArrayBuffer t b r s)).
Proof.
  intros H. unfold afterArrayBuffer. destruct r as [ [] | err ].
  - destruct (size b =? 0); cbn [fst]; [ now apply Tidy_release | same s ].
  - now apply Tidy_catchError.
Qed.

Lemma Tidy_afterDecode (t : Task) (r : Outcome AudioBuffer) (s : St) :
  Tidy s -> Tidy (fst (afterDecode Math_sqrt t r s)).
Proof.
  intros H. unfold afterDecode. destruct r as [ audioBuffer | err ].
  - destruct (len (channelData audioBuffer) <? 8000); [ now apply Tidy_release | ].
    destruct (negb (hasAudioContent Math_sqrt (channelData audioBuffer) audioFloor));
      [ now apply Tidy_release | ].
    cbn [fst]. same s.
  - cbn [fst]. apply Tidy_release. same s.
Qed.

Lemma Tidy_afterTranscribe (t : Task) (r : Outcome (option str)) (s : St) :
  Tidy s -> Tidy (fst (afterTranscribe t r s)).
Proof.
  intros H. unfold afterTranscribe. destruct r as [ result | err ];
    [ | now apply Tidy_catchError ].
  cbn [fst]. apply Tidy_release.
  destruct result as [ text | ]; [ | exact H ].
  destruct (truthy text); [ | exact H ].
  destruct (keepText (cleanText text)) eqn:Ek; [ | exact H ].
  destruct H as (H1 & H2 & H3 & H4 & H5 & H6).
  unfold Tidy. simpl. repeat split; try assumption.
  apply MoreTextFacts.edgeClean_appendTranscript; [ exact H6 | | ].
  - apply MoreTextFacts.edgeClean_cleanText.
  - unfold keepText in Ek. now apply andb_prop in Ek.
Qed.

Lemma Tidy_processAudioAndContinue (s : St) : Tidy s -> Tidy (processAudioAndContinue s).
Proof.
  intros H. unfold processAudioAndContinue. cbv zeta.
  apply Tidy_settled, Tidy_processAudio, Tidy_clearSilenceTimer, H.
Qed.

Lemma Tidy_onstop (s : St) : Tidy s -> Tidy (onstop s).
Proof.
  intros H. unfold onstop.
  destruct (streamActive s && negb (isProcessingRef s));
    [ now apply Tidy_processAudioAndContinue | exact H ].
Qed.

Lemma Tidy_ondataavailable (data : Blob) (s : St) : Tidy s -> Tidy (ondataavailable data s).
Proof.
  intros H. unfold ondataavailable. destruct (0 <? size data) eqn:E; [ | exact H ].
  destruct H as (H1 & H2 & H3 & H4 & H5 & H6).
  unfold Tidy. simpl. repeat split; try assumption.
  rewrite forallb_app, H2. simpl. now rewrite E.
Qed.

Lemma Tidy_releaseCapture (s : St) : Tidy s -> Tidy (releaseCapture s).
Proof.
  intros H. unfold releaseCapture.
  assert (H1 : Tidy (clearSilenceTimer (set_isListening false s)))
    by (apply Tidy_clearSilenceTimer; same s).
  remember (clearSilenceTimer (set_isListening false s)) as s1 eqn:E1. clear E1 H.
  cbv zeta.
  assert (H2 : Tidy match mediaRecorderRef s1 with
                    | Some recording => recorderStop O_recorderStop s1
                    | _ => s1
                    end).
  { destruct (mediaRecorderRef s1) as [ [ | ] | ]; auto using Tidy_recorderStop. }
  match type of H2 with Tidy ?x => remember x as s2 eqn:E2; clear E2 H1 end.
  assert (H3 : Tidy match streamRef s2 with
                    | Some _ => set_streamRef None (log O_trackStop s2)
                    | None => s2
                    end).
  { destruct (streamRef s2); [ same s2 | exact H2 ]. }
  match type of H3 with Tidy ?x => remember x as s3 eqn:E3; clear E3 H2 end.
  assert (H4 : Tidy (if audioContextRef s3
                     then set_audioContextRef false (log O_contextClose s3)
                     else s3)).
  { destruct (audioContextRef s3); [ same s3 | exact H3 ]. }
  match type of H4 with Tidy ?x => remember x as s4 eqn:E4; clear E4 H3 end.
  same s4.
Qed.

Lemma Tidy_stopListening (s : St) : Tidy s -> Tidy (stopListening s).
Proof.
  intros H. unfold stopListening. cbv zeta.
  pose proof (Tidy_releaseCapture s H) as H1.
  remember (releaseCapture s) as s1 eqn:E1. clear E1.
  destruct (negb (isNil (audioChunksRef s1)) && negb (isProcessingRef s1));
    [ | exact H1 ].
  now apply Tidy_settled, Tidy_processAudio.
Qed.

Lemma Tidy_checkAudioLevel (dataArray : list Z) (s : St) :
  Tidy s -> Tidy (checkAudioLevel Math_sqrt dataArray s).
Proof.
  intros H. unfold checkAudioLevel.
  destruct (negb (analyserRef s) || negb (streamActive s)); [ exact H | ].
  cbv zeta.
  assert (H' : Tidy (if Qgtb (amplitudeOf Math_sqrt dataArray) silenceThreshold
                     then clearSilenceTimer
                            (set_hasRecordedSpeechRef true
                               (log O_speech (set_lastSpeechTimeRef (clock s) s)))
                     else if hasRecordedSpeechRef s
                             && (silenceDuration <=? clock s - lastSpeechTimeRef s)
                             && negb (isNil (audioChunksRef s))
                             && negb (isProcessingRef s)
                             && negb (isSome (silenceTimerRef s))
                             && match mediaRecorderRef s with
                                | Some recording => true
                                | _ => false
                                end
                          then armSilenceTimer s
                          else s)).
  { destruct (Qgtb (amplitudeOf Math_sqrt dataArray) silenceThreshold).
    - apply Tidy_clearSilenceTimer. same s.
    - destruct (silenceTimerRef s) eqn:E; simpl.
      + now rewrite !andb_false_r.
      + match goal with |- context [if ?c then _ else _] => destruct c end;
          [ now apply Tidy_armSilenceTimer | exact H ]. }
  match type of H' with Tidy ?x => remember x as s1 eqn:E1; clear E1 end.
  destruct (streamActive s1); [ same s1 | exact H' ].
Qed.

Lemma Tidy_silenceTimeout (id : nat) (s : St) :
  existsb (Nat.eqb id) (timers s) = true -> Tidy s ->
  Tidy (silenceTimeout (set_timers (filter (fun j => negb (Nat.eqb j id)) (timers s)) s)).
Proof.
  intros Hin (H1 & H2 & H3 & H4 & H5 & H6).
  assert (Hf : filter (fun j => negb (Nat.eqb j id)) (timers s) = []).
  { destruct H3 as [ E | (id' & E & _) ]; rewrite E in *; [ reflexivity | ].
    simpl in Hin. rewrite orb_false_r in Hin. apply Nat.eqb_eq in Hin. subst id'.
    simpl. now rewrite Nat.eqb_refl. }
  rewrite Hf. unfold silenceTimeout. simpl.
  destruct (mediaRecorderRef s) as [ [ | ] | ] eqn:E; try discriminate.
  - unfold Tidy. simpl. rewrite E. auto 10.
  - destruct (streamActive _ && negb (isProcessingRef s)).
    + unfold Tidy. simpl. auto 10.
    + unfold Tidy. simpl. rewrite E. auto 10.
Qed.

Lemma Tidy_trackEnded (s : St) : Tidy s -> Tidy (trackEnded s).
Proof.
  intros H. unfold trackEnded. destruct (streamRef s); [ | exact H ].
  cbv zeta. simpl.
  destruct H as (H1 & H2 & H3 & H4 & H5 & H6).
  destruct (mediaRecorderRef s) as [ [ | ] | ] eqn:E; try discriminate;
    unfold Tidy; simpl; rewrite ?E; auto 10.
Qed.

Lemma Tidy_dropTask (u : nat) (s : St) : Tidy s -> Tidy (dropTask u s).
Proof. intros H. same s. Qed.

Lemma Tidy_step (s : St) (e : Event) : Tidy s -> Tidy (step Math_sqrt s e).
Proof.
  intros H. destruct e; simpl.
  - destruct (clock s <=? t); [ same s | exact H ].
  - pose proof (Tidy_ondataavailable data s H).
    destruct (mediaRecorderRef s) as [ [ | ] | ]; destruct (stopEvents s); auto.
  - destruct (stopEvents s); [ exact H | ]. apply Tidy_onstop. same s.
  - destruct (frameRequested s); [ | exact H ]. apply Tidy_checkAudioLevel. same s.
  - destruct (existsb (Nat.eqb id) (timers s)) eqn:E; [ | exact H ].
    now apply Tidy_silenceTimeout.
  - now apply Tidy_stopListening.
  - now apply Tidy_trackEnded.
  - destruct H as (H1 & H2 & H3 & H4 & H5 & H6). unfold Tidy. simpl. auto 10.
  - destruct (findTask u s) as [ t | ]; [ | exact H ].
    destruct (stage t); try exact H.
    apply Tidy_settled, Tidy_afterArrayBuffer, Tidy_dropTask, H.
  - destruct (findTask u s) as [ t | ]; [ | exact H ].
    destruct (stage t); try exact H.
    apply Tidy_settled, Tidy_afterDecode, Tidy_dropTask, H.
  - destruct (findTask u s) as [ t | ]; [ | exact H ].
    destruct (stage t); try exact H.
    apply Tidy_settled, Tidy_afterTranscribe, Tidy_dropTask, H.
Qed.

Lemma Tidy_run (evs : list Event) (s : St) : Tidy s -> Tidy (run Math_sqrt s evs).
Proof.
  revert s. induction evs as [ | e evs IH ]; simpl; intros s H; [ exact H | ].
  apply IH. now apply Tidy_step.
Qed.

Lemma Tidy_started (t0 : Z) : Tidy (started t0).
Proof. unfold Tidy. simpl. auto 10. Qed.

Lemma timers_cleared (s : St) : Tidy s -> timers (clearSilenceTimer s) = [].
Proof.
  intros (_ & _ & H3 & _). unfold clearSilenceTimer.
  destruct H3 as [ E | (id' & E & Href) ].
  - destruct (silenceTimerRef s); simpl; rewrite E; reflexivity.
  - rewrite Href. simpl. rewrite E. simpl. now rewrite Nat.eqb_refl.
Qed.

(** X4. At any time of a session at most one silence timeout is pending,
    and a pending timeout is the one [silenceTimerRef] holds: clearing the
    ref's timeout leaves none pending. *)
Theorem one_pending_timeout (t0 : Z) (evs : list Event) :
  let s := run Math_sqrt (started t0) evs in
  (length (timers s) <= 1)%nat
  /\ (forall id, In id (timers s) -> silenceTimerRef s = Some id)
  /\ timers (clearSilenceTimer s) = [].
Proof.
  cbv zeta.
  pose proof (Tidy_run evs (started t0) (Tidy_started t0)) as HT.
  remember (run Math_sqrt (started t0) evs) as s eqn:Es. clear Es.
  pose proof (timers_cleared s HT) as Hc.
  destruct HT as (_ & _ & H3 & _).
  repeat split; [ | | exact Hc ].
  - destruct H3 as [ -> | (id & -> & _) ]; simpl; lia.
  - intros id Hin. destruct H3 as [ E | (id' & E & Href) ]; rewrite E in Hin.
    + destruct Hin.
    + destruct Hin as [ <- | [] ]. exact Href.
Qed.

Lemma size_newBlob_pos (chunks : list Blob) :
  forallb (fun b => 0 <? size b) chunks = true -> isNil chunks = false ->
  0 < size (newBlob chunks).
Proof.
  unfold size, newBlob. destruct chunks as [ | b chunks ]; [ discriminate | ].
  simpl. intros H _. apply andb_prop in H. destruct H as [Hb _].
  apply Z.ltb_lt in Hb. rewrite length_app. lia.
Qed.

(** X5. No empty chunk is ever buffered, so a hand-off that passes the guard
    of [processAudio] always goes on to [arrayBuffer()]: in a session the
    two early exits for an empty chunk list and for a blob of size 0
    (lines 374-388) are never taken.  A call either returns at the guard,
    changing nothing, or is suspended. *)
Theorem empty_blob_exits_unreachable (t0 : Z) (evs : list Event) (c : bool) :
  let s := run Math_sqrt (started t0) evs in
  forallb (fun b => 0 <? size b) (audioChunksRef s) = true
  /\ (processAudio c s = (s, true)
      \/ (snd (processAudio c s) = false
          /\ 0 < size (newBlob (audioChunksRef s))
          /\ count isRelease_flag (trace (fst (processAudio c s)))
             = count isRelease_flag (trace s))).
Proof.
  cbv zeta.
  pose proof (Tidy_run evs (started t0) (Tidy_started t0)) as H.
  destruct H as (_ & H2 & _). split; [ exact H2 | ].
  remember (run Math_sqrt (started t0) evs) as s eqn:Es. clear Es.
  unfold processAudio.
  destruct (isProcessingRef s || isNil (audioChunksRef s) || negb (transcriberRef s)) eqn:G;
    [ now left | right ].
  apply orb_false_elim in G. destruct G as [G _].
  apply orb_false_elim in G. destruct G as [_ G].
  pose proof (size_newBlob_pos _ H2 G) as Hpos.
  cbv zeta. simpl. rewrite G.
  destruct (size (newBlob (audioChunksRef s)) =? 0) eqn:E;
    [ apply Z.eqb_eq in E; lia | ].
  simpl. auto.
Qed.

(** X6. The React state [isProcessing], which drives the "processing"
    indicator and disables the Start/Stop button, agrees with the busy
    flag between any two events, and both are set exactly while a call of
    [processAudio] is suspended. *)
Theorem processing_indicator_faithful (t0 : Z) (evs : list Event) :
  let s := run Math_sqrt (started t0) evs in
  isProcessing s = isProcessingRef s
  /\ isProcessing s = isSome (inFlight s).
Proof.
  cbv zeta.
  destruct (Tidy_run evs (started t0) (Tidy_started t0)) as (H1 & _).
  destruct (Serial_run Math_sqrt evs (started t0) (Serial_started t0)) as [[_ Hf] _].
  split; congruence.
Qed.

(** X7. The transcript of a session never begins or ends with white space:
    every segment is trimmed before it is appended, and the segments are
    joined by one space. *)
Theorem transcript_edges_clean (t0 : Z) (evs : list Event) :
  let s := run Math_sqrt (started t0) evs in
  edgeClean (transcript s) = true.
Proof.
  cbv zeta.
  now destruct (Tidy_run evs (started t0) (Tidy_started t0)) as (_ & _ & _ & _ & _ & H).
Qed.

(** ** After the stream has stopped *)

Ltac lull := unfold Lull, count, streamActive; simpl; intros; repeat split; auto.

Lemma Lull_refl (s : St) : Lull s s.
Proof. lull. Qed.

Lemma Lull_trans (s1 s2 s3 : St) : Lull s1 s2 -> Lull s2 s3 -> Lull s1 s3.
Proof.
  unfold Lull. intros H12 H23 H.
  destruct (H12 H) as (H1 & A1 & A2 & A3 & A4).
  destruct (H23 H1) as (H2 & B1 & B2 & B3 & B4).
  repeat split; congruence.
Qed.

Lemma Lull_clearSilenceTimer (s : St) : Lull s (clearSilenceTimer s).
Proof. unfold clearSilenceTimer. destruct (silenceTimerRef s); lull. Qed.

Lemma Lull_restartRecording (s : St) : Lull s (restartRecording s).
Proof.
  unfold Lull, restartRecording. intros H. rewrite H. simpl. auto.
Qed.

Lemma Lull_settled (c : bool) (s : St) (r : St * bool) :
  Lull s (fst r) -> Lull s (settled c r).
Proof.
  destruct r as [s1 b]. simpl. intros H.
  destruct (b && c); [ | exact H ].
  eapply Lull_trans; [ exact H | apply Lull_restartRecording ].
Qed.

Lemma Lull_processAudio (c : bool) (s : St) : Lull s (fst (processAudio c s)).
Proof.
  unfold processAudio.
  destruct (isProcessingRef s || isNil (audioChunksRef s) || negb (transcriberRef s));
    [ lull | ].
  cbv zeta. simpl.
  destruct (isNil (audioChunksRef s)); [ lull | ].
  destruct (size (newBlob (audioChunksRef s)) =? 0); lull.
Qed.

Lemma Lull_catchError (u : nat) (err : JsError) (s : St) : Lull s (catchError u err s).
Proof.
  unfold catchError. cbv zeta.
  match goal with |- context [if ?c then _ else _] => destruct c end; lull.
Qed.

Lemma Lull_afterArrayBuffer (t : Task) (b : Blob) (r : Outcome unit) (s : St) :
  Lull s (fst (afterArrayBuffer t b r s)).
Proof.
  unfold afterArrayBuffer. destruct r as [ [] | err ]; simpl.
  - destruct (size b =? 0); lull.
  - apply Lull_catchError.
Qed.

Lemma Lull_afterDecode (t : Task) (r : Outcome AudioBuffer) (s : St) :
  Lull s (fst (afterDecode Math_sqrt t r s)).
Proof.
  unfold afterDecode. destruct r as [ audioBuffer | err ]; [ | lull ].
  destruct (len (channelData audioBuffer) <? 8000); [ lull | ].
  destruct (negb (hasAudioContent Math_sqrt (channelData audioBuffer) audioFloor)); lull.
Qed.

Lemma Lull_afterTranscribe (t : Task) (r : Outcome (option str)) (s : St) :
  Lull s (fst (afterTranscribe t r s)).
Proof.
  unfold afterTranscribe. destruct r as [ result | err ]; simpl;
    [ | apply Lull_catchError ].
  destruct result as [ text | ]; [ | lull ].
  destruct (truthy text); [ | lull ].
  destruct (keepText (cleanText text)); lull.
Qed.

Lemma Lull_settlement (c : bool) (u : nat) (s : St) (r : St * bool) :
  Lull (dropTask u s) (fst r) -> Lull s (settled c r).
Proof.
  intros H. apply Lull_settled.
  eapply Lull_trans; [ | exact H ]. lull.
Qed.

Lemma Lull_onstop (s : St) : Lull s (onstop s).
Proof. unfold Lull, onstop. intros H. rewrite H. simpl. auto. Qed.

Lemma Lull_releaseCapture (s : St) : Lull s (releaseCapture s).
Proof.
  unfold releaseCapture, clearSilenceTimer, recorderStop, log.
  destruct s as [rec chunks stream tr flag an ctx timer last heard lis txt proc err
                   clk tms nt stops fr tks nu trc].
  simpl.
  destruct timer; simpl; destruct rec as [ [ | ] | ]; simpl;
    destruct stream; simpl; destruct ctx; simpl; lull.
Qed.

Lemma Lull_stopListening (s : St) : Lull s (stopListening s).
Proof.
  unfold stopListening. cbv zeta.
  pose proof (Lull_releaseCapture s) as H.
  remember (releaseCapture s) as s1 eqn:Es1. clear Es1.
  destruct (negb (isNil (audioChunksRef s1)) && negb (isProcessingRef s1));
    [ | exact H ].
  apply Lull_settled. eapply Lull_trans; [ exact H | apply Lull_processAudio ].
Qed.

Lemma Lull_checkAudioLevel (dataArray : list Z) (s : St) :
  Lull s (checkAudioLevel Math_sqrt dataArray s).
Proof.
  unfold Lull, checkAudioLevel. intros H. rewrite H.
  rewrite orb_true_r. auto.
Qed.

Lemma Lull_silenceTimeout (s : St) : Lull s (silenceTimeout s).
Proof.
  unfold Lull, silenceTimeout. intros H. rewrite H. simpl.
  destruct (mediaRecorderRef s) as [ [ | ] | ]; auto.
Qed.

Lemma Lull_trackEnded (s : St) : Lull s (trackEnded s).
Proof.
  unfold trackEnded. destruct (streamRef s) eqn:E; [ | lull ].
  cbv zeta. simpl. destruct (mediaRecorderRef s) as [ [ | ] | ]; lull.
Qed.

Lemma Lull_ondataavailable (data : Blob) (s : St) : Lull s (ondataavailable data s).
Proof. unfold ondataavailable. destruct (0 <? size data); lull. Qed.

Lemma Lull_step (s : St) (e : Event) : Lull s (step Math_sqrt s e).
Proof.
  destruct e; simpl.
  - destruct (clock s <=? t); lull.
  - pose proof (Lull_ondataavailable data s). pose proof (Lull_refl s).
    destruct (mediaRecorderRef s) as [ [ | ] | ]; destruct (stopEvents s); auto.
  - destruct (stopEvents s); [ apply Lull_refl | ].
    eapply Lull_trans; [ | apply Lull_onstop ]. lull.
  - destruct (frameRequested s); [ | apply Lull_refl ].
    eapply Lull_trans; [ | apply Lull_checkAudioLevel ]. lull.
  - destruct (existsb (Nat.eqb id) (timers s)); [ | apply Lull_refl ].
    eapply Lull_trans; [ | apply Lull_silenceTimeout ]. lull.
  - apply Lull_stopListening.
  - apply Lull_trackEnded.
  - lull.
  - destruct (findTask u s) as [ t | ]; [ | apply Lull_refl ].
    destruct (stage t); try apply Lull_refl.
    apply Lull_settlement with (u := u), Lull_afterArrayBuffer.
  - destruct (findTask u s) as [ t | ]; [ | apply Lull_refl ].
    destruct (stage t); try apply Lull_refl.
    apply Lull_settlement with (u := u), Lull_afterDecode.
  - destruct (findTask u s) as [ t | ]; [ | apply Lull_refl ].
    destruct (stage t); try apply Lull_refl.
    apply Lull_settlement with (u := u), Lull_afterTranscribe.
Qed.

Lemma Lull_run (evs : list Event) (s : St) : Lull s (run Math_sqrt s evs).
Proof.
  revert s. induction evs as [ | e evs IH ]; simpl; intros s; [ apply Lull_refl | ].
  eapply Lull_trans; [ apply Lull_step | apply IH ].
Qed.

(** X8. Once the stream is no longer active (after Stop, or when the capture
    device went away) it never becomes active again, and whatever happens
    afterwards the detector hears no speech, arms no timer and fires no
    boundary, and the recorder is not restarted: a timeout that was pending
    fires without effect, frames end the detection loop, a late [stop]
    event of the recorder starts nothing.  This holds after every call of
    [stopListening] and after the tracks have ended. *)
Theorem nothing_after_stream_stops (s : St) (evs : list Event) :
  streamActive s = false ->
  let s' := run Math_sqrt s evs in
  streamActive s' = false
  /\ count isSpeech (trace s') = count isSpeech (trace s)
  /\ count isSetTimeout (trace s') = count isSetTimeout (trace s)
  /\ count isBoundary (trace s') = count isBoundary (trace s)
  /\ count isRecorderStart (trace s') = count isRecorderStart (trace s)
  /\ (forall s0, streamActive (stopListening s0) = false)
  /\ (forall s0, streamActive (trackEnded s0) = false).
Proof.
  intros H. cbv zeta.
  destruct (Lull_run evs s H) as (H0 & H1 & H2 & H3 & H4).
  repeat split; try assumption.
  - intros s0. unfold stopListening. cbv zeta.
    assert (E : streamActive (releaseCapture s0) = false).
    { unfold streamActive. now destruct (releaseCapture_trace s0) as (_ & -> & _). }
    remember (releaseCapture s0) as s1 eqn:Es1. clear Es1.
    destruct (negb (isNil (audioChunksRef s1)) && negb (isProcessingRef s1));
      [ | exact E ].
    apply (Lull_settled false s1); [ apply Lull_processAudio | exact E ].
  - intros s0. unfold trackEnded, streamActive.
    destruct (streamRef s0) eqn:E; [ | now rewrite E ].
    cbv zeta. simpl. destruct (mediaRecorderRef s0) as [ [ | ] | ]; reflexivity.
Qed.

(** ** cleanup *)

Lemma cleanup_fields (s : St) :
  let c := cleanup s in
  mediaRecorderRef c = None /\ streamRef c = None /\ analyserRef c = false
  /\ audioContextRef c = false /\ silenceTimerRef c = None
  /\ audioChunksRef c = [] /\ isProcessingRef c = false /\ isListening c = false
  /\ lastSpeechTimeRef c = 0
  /\ timers c = timers (clearSilenceTimer s)
  /\ tasks c = tasks s /\ transcript c = transcript s /\ error c = error s
  /\ count isAccept (trace c) = count isAccept (trace s).
Proof.
  unfold cleanup, clearSilenceTimer, recorderStop, log, count.
  destruct s as [rec chunks stream tr flag an ctx timer last heard lis txt proc err
                   clk tms nt stops fr tks nu trc].
  simpl.
  destruct timer; simpl; destruct rec as [ [ | ] | ]; simpl;
    destruct ctx; simpl; destruct stream; simpl; repeat split.
Qed.

Lemma cleanup_twice (s : St) : cleanup (cleanup s) = log O_analyserRelease (cleanup s).
Proof.
  destruct (cleanup_fields s)
    as (H1 & H2 & H3 & H4 & H5 & H6 & H7 & H8 & H9 & _).
  remember (cleanup s) as c eqn:Ec. clear Ec.
  destruct c as [rec chunks stream tr flag an ctx timer last heard lis txt proc err
                   clk tms nt stops fr tks nu trc].
  simpl in *. subst. reflexivity.
Qed.

(** X9. [cleanup] lets go of everything and hands nothing off: after it the
    recorder, stream, context, analyser and timer refs are empty and no
    timeout is pending, the buffer is empty and the busy flag is clear,
    and no hand-off was accepted, whatever was buffered; a call of
    [processAudio] that is suspended stays suspended.  A second [cleanup]
    stops and closes nothing and changes no ref, and nothing the detector
    or the recorder does can follow. *)
Theorem cleanup_releases_everything (t0 : Z) (evs : list Event) :
  let s := run Math_sqrt (started t0) evs in
  let c := cleanup s in
  mediaRecorderRef c = None /\ streamRef c = None /\ analyserRef c = false
  /\ audioContextRef c = false /\ silenceTimerRef c = None /\ timers c = []
  /\ audioChunksRef c = [] /\ isProcessingRef c = false
  /\ count isAccept (trace c) = count isAccept (trace s)
  /\ tasks c = tasks s
  /\ cleanup c = log O_analyserRelease c
  /\ (forall evs', count isBoundary (trace (run Math_sqrt c evs'))
                   = count isBoundary (trace c)
                   /\ count isRecorderStart (trace (run Math_sqrt c evs'))
                      = count isRecorderStart (trace c)).
Proof.
  cbv zeta.
  pose proof (Tidy_run evs (started t0) (Tidy_started t0)) as HT.
  remember (run Math_sqrt (started t0) evs) as s eqn:Es. clear Es.
  destruct (cleanup_fields s)
    as (H1 & H2 & H3 & H4 & H5 & H6 & H7 & H8 & H9 & H10 & H11 & H12 & H13 & H14).
  repeat split; try assumption.
  - rewrite H10. now apply timers_cleared.
  - apply cleanup_twice.
  - assert (Hs : streamActive (cleanup s) = false)
      by (unfold streamActive; now rewrite H2).
    now destruct (Lull_run evs' (cleanup s) Hs) as (_ & _ & _ & Hb & _).
  - assert (Hs : streamActive (cleanup s) = false)
      by (unfold streamActive; now rewrite H2).
    now destruct (Lull_run evs' (cleanup s) Hs) as (_ & _ & _ & _ & Hr).
Qed.

(** ** The recorder *)

Lemma recorderLog_plain (l tr : list Obs) :
  forallb plainRec l = true -> recorderLog (l ++ tr) = recorderLog tr.
Proof.
  unfold recorderLog. induction l as [ | o l IH ]; simpl; [ reflexivity | ].
  intros H. apply andb_prop in H. destruct H as [Ho Hl]. rewrite (IH Hl).
  destruct (fold_right (fun o acc => recorderStep acc o) (Some true) tr);
    destruct o; try discriminate; reflexivity.
Qed.

Lemma RecorderOk_plain (s s' : St) :
  (exists l, trace s' = l ++ trace s /\ forallb plainRec l = true) ->
  mediaRecorderRef s' = mediaRecorderRef s ->
  (streamActive s = false -> streamActive s' = false) ->
  RecorderOk s -> RecorderOk s'.
Proof.
  intros (l & Ht & Hl) Hr Hs (on & H1 & H2 & H3).
  exists on. rewrite Ht, (recorderLog_plain l _ Hl), Hr. auto.
Qed.

Ltac added_list :=
  match goal with
  | |- exists l, ?tr = l ++ ?t /\ _ =>
      let rec go x :=
        lazymatch x with
        | t => constr:(@nil Obs)
        | ?o :: ?x' => let r := go x' in constr:(o :: r)
        end in
      let l := go tr in exists l
  end.

Ltac plain s :=
  apply (RecorderOk_plain s);
  [ simpl; added_list; split; reflexivity | reflexivity | simpl; auto | try assumption ].

Lemma RecorderOk_recorderStop (o : Obs) (s : St) :
  o = O_boundary \/ o = O_recorderStop ->
  mediaRecorderRef s = Some recording ->
  RecorderOk s -> RecorderOk (recorderStop o s).
Proof.
  intros Ho Hr (on & H1 & H2 & H3). exists false.
  unfold recorderStop, recorderLog in *. simpl. rewrite H1, (H2 Hr).
  destruct Ho; subst o; simpl; repeat split; try discriminate.
Qed.

Lemma RecorderOk_clearSilenceTimer (s : St) :
  RecorderOk s -> RecorderOk (clearSilenceTimer s).
Proof.
  intros H. unfold clearSilenceTimer. destruct (silenceTimerRef s); [ plain s | exact H ].
Qed.

Lemma RecorderOk_restartRecording (s : St) :
  RecorderOk s -> RecorderOk (restartRecording s).
Proof.
  intros H. unfold restartRecording.
  destruct (streamActive s) eqn:Hs; simpl; [ | exact H ].
  destruct (isSome (mediaRecorderRef s) && negb (isProcessingRef s)); [ | exact H ].
  destruct (mediaRecorderRef s) as [ [ | ] | ] eqn:Hr.
  - destruct H as (on & H1 & H2 & H3). exists true.
    unfold recorderLog in *. simpl. rewrite H1.
    destruct on.
    + assert (streamActive s = false) by (apply H3; congruence). congruence.
    + simpl. repeat split; congruence.
  - apply (RecorderOk_plain s); [ exists []; auto | simpl; congruence | auto | exact H ].
  - apply (RecorderOk_plain s); [ exists []; auto | simpl; congruence | auto | exact H ].
Qed.

Lemma RecorderOk_settled (c : bool) (r : St * bool) :
  RecorderOk (fst r) -> RecorderOk (settled c r).
Proof.
  destruct r as [s b]. simpl. intros H.
  destruct (b && c); [ now apply RecorderOk_restartRecording | exact H ].
Qed.

Lemma RecorderOk_processAudio (c : bool) (s : St) :
  RecorderOk s -> RecorderOk (fst (processAudio c s)).
Proof.
  intros H. unfold processAudio.
  destruct (isProcessingRef s || isNil (audioChunksRef s) || negb (transcriberRef s));
    [ exact H | ].
  cbv zeta. simpl.
  destruct (isNil (audioChunksRef s)); [ plain s | ].
  destruct (size (newBlob (audioChunksRef s)) =? 0); plain s.
Qed.

Lemma RecorderOk_catchError (u : nat) (err : JsError) (s : St) :
  RecorderOk s -> RecorderOk (catchError u err s).
Proof.
  intros H. unfold catchError. cbv zeta.
  match goal with |- context [if ?c then _ else _] => destruct c end; plain s.
Qed.

Lemma RecorderOk_afterArrayBuffer (t : Task) (b : Blob) (r : Outcome unit) (s : St) :
  RecorderOk s -> RecorderOk (fst (afterArrayBuffer t b r s)).
Proof.
  intros H. unfold afterArrayBuffer. destruct r as [ [] | err ]; simpl.
  - destruct (size b =? 0); plain s.
  - now apply RecorderOk_catchError.
Qed.

Lemma RecorderOk_afterDecode (t : Task) (r : Outcome AudioBuffer) (s : St) :
  RecorderOk s -> RecorderOk (fst (afterDecode Math_sqrt t r s)).
Proof.
  intros H. unfold afterDecode. destruct r as [ audioBuffer | err ]; [ | plain s ].
  destruct (len (channelData audioBuffer) <? 8000); [ plain s | ].
  destruct (negb (hasAudioContent Math_sqrt (channelData audioBuffer) audioFloor));
    plain s.
Qed.

Lemma RecorderOk_afterTranscribe (t : Task) (r : Outcome (option str)) (s : St) :
  RecorderOk s -> RecorderOk (fst (afterTranscribe t r s)).
Proof.
  intros H. unfold afterTranscribe. destruct r as [ result | err ]; simpl;
    [ | now apply RecorderOk_catchError ].
  destruct result as [ text | ]; [ | plain s ].
  destruct (truthy text); [ | plain s ].
  destruct (keepText (cleanText text)); plain s.
Qed.

Lemma RecorderOk_onstop (s : St) : RecorderOk s -> RecorderOk (onstop s).
Proof.
  intros H. unfold onstop.
  destruct (streamActive s && negb (isProcessingRef s)); [ | exact H ].
  unfold processAudioAndContinue. cbv zeta.
  apply RecorderOk_settled, RecorderOk_processAudio, RecorderOk_clearSilenceTimer, H.
Qed.

Lemma RecorderOk_releaseCapture (s : St) : RecorderOk s -> RecorderOk (releaseCapture s).
Proof.
  intros H. unfold releaseCapture.
  assert (H1 : RecorderOk (clearSilenceTimer (set_isListening false s))).
  { apply RecorderOk_clearSilenceTimer.
    apply (RecorderOk_plain s); [ exists []; auto | reflexivity | auto | exact H ]. }
  remember (clearSilenceTimer (set_isListening false s)) as s1 eqn:E1. clear E1 H.
  cbv zeta.
  assert (H2 : RecorderOk match mediaRecorderRef s1 with
                          | Some recording => recorderStop O_recorderStop s1
                          | _ => s1
                          end).
  { destruct (mediaRecorderRef s1) as [ [ | ] | ] eqn:Hr; try exact H1.
    apply RecorderOk_recorderStop; auto. }
  match type of H2 with RecorderOk ?x => remember x as s2 eqn:E2; clear E2 H1 end.
  assert (H3 : RecorderOk match streamRef s2 with
                          | Some _ => set_streamRef None (log O_trackStop s2)
                          | None => s2
                          end).
  { destruct (streamRef s2); [ plain s2 | exact H2 ]. }
  match type of H3 with RecorderOk ?x => remember x as s3 eqn:E3; clear E3 H2 end.
  assert (H4 : RecorderOk (if audioContextRef s3
                           then set_audioContextRef false (log O_contextClose s3)
                           else s3)).
  { destruct (audioContextRef s3); [ plain s3 | exact H3 ]. }
  match type of H4 with RecorderOk ?x => remember x as s4 eqn:E4; clear E4 H3 end.
  plain s4.
Qed.

Lemma RecorderOk_stopListening (s : St) : RecorderOk s -> RecorderOk (stopListening s).
Proof.
  intros H. unfold stopListening. cbv zeta.
  pose proof (RecorderOk_releaseCapture s H) as H1.
  remember (releaseCapture s) as s1 eqn:E1. clear E1.
  destruct (negb (isNil (audioChunksRef s1)) && negb (isProcessingRef s1));
    [ | exact H1 ].
  now apply RecorderOk_settled, RecorderOk_processAudio.
Qed.

Lemma RecorderOk_checkAudioLevel (dataArray : list Z) (s : St) :
  RecorderOk s -> RecorderOk (checkAudioLevel Math_sqrt dataArray s).
Proof.
  intros H. unfold checkAudioLevel.
  destruct (negb (analyserRef s) || negb (streamActive s)); [ exact H | ].
  cbv zeta.
  destruct (Qgtb (amplitudeOf Math_sqrt dataArray) silenceThreshold).
  - unfold clearSilenceTimer. simpl.
    destruct (silenceTimerRef s); simpl;
      match goal with |- context [if ?c then _ else _] => destruct c end; plain s.
  - match goal with
    | |- context [if ?c then armSilenceTimer _ else _] => destruct c
    end.
    + unfold armSilenceTimer. simpl.
      match goal with |- context [if ?c then _ else _] => destruct c end; plain s.
    + destruct (streamActive s); [ plain s | exact H ].
Qed.

Lemma RecorderOk_silenceTimeout (s : St) : RecorderOk s -> RecorderOk (silenceTimeout s).
Proof.
  intros H. unfold silenceTimeout.
  assert (H' : RecorderOk (set_silenceTimerRef None s)).
  { apply (RecorderOk_plain s); [ exists []; auto | reflexivity | auto | exact H ]. }
  destruct (mediaRecorderRef s) as [ [ | ] | ] eqn:Hr; try exact H'.
  destruct (streamActive s && negb (isProcessingRef s)); [ | exact H' ].
  apply RecorderOk_recorderStop; auto.
Qed.

Lemma RecorderOk_trackEnded (s : St) : RecorderOk s -> RecorderOk (trackEnded s).
Proof.
  intros (on & H1 & H2 & H3). unfold trackEnded.
  destruct (streamRef s) eqn:Hs; [ | exists on; auto ].
  cbv zeta. simpl.
  destruct (mediaRecorderRef s) as [ [ | ] | ] eqn:Hr; exists on;
    simpl; rewrite ?Hr; repeat split; auto; discriminate.
Qed.

Lemma RecorderOk_step (s : St) (e : Event) :
  RecorderOk s -> RecorderOk (step Math_sqrt s e).
Proof.
  intros H.
  assert (Hsame : forall s', trace s' = trace s -> mediaRecorderRef s' = mediaRecorderRef s ->
                             streamRef s' = streamRef s -> RecorderOk s').
  { intros s' Ht Hr Hs. apply (RecorderOk_plain s); auto.
    - exists []. auto.
    - unfold streamActive. now rewrite Hs. }
  destruct e; simpl.
  - destruct (clock s <=? t); [ now apply Hsame | exact H ].
  - assert (RecorderOk (ondataavailable data s)).
    { unfold ondataavailable. destruct (0 <? size data); [ now apply Hsame | exact H ]. }
    destruct (mediaRecorderRef s) as [ [ | ] | ]; destruct (stopEvents s); auto.
  - destruct (stopEvents s); [ exact H | ]. apply RecorderOk_onstop. now apply Hsame.
  - destruct (frameRequested s); [ | exact H ].
    apply RecorderOk_checkAudioLevel. now apply Hsame.
  - destruct (existsb (Nat.eqb id) (timers s)); [ | exact H ].
    apply RecorderOk_silenceTimeout. now apply Hsame.
  - now apply RecorderOk_stopListening.
  - now apply RecorderOk_trackEnded.
  - now apply Hsame.
  - destruct (findTask u s) as [ t | ]; [ | exact H ].
    destruct (stage t); try exact H.
    apply RecorderOk_settled, RecorderOk_afterArrayBuffer. now apply Hsame.
  - destruct (findTask u s) as [ t | ]; [ | exact H ].
    destruct (stage t); try exact H.
    apply RecorderOk_settled, RecorderOk_afterDecode. now apply Hsame.
  - destruct (findTask u s) as [ t | ]; [ | exact H ].
    destruct (stage t); try exact H.
    apply RecorderOk_settled, RecorderOk_afterTranscribe. now apply Hsame.
Qed.

Lemma RecorderOk_run (evs : list Event) (s : St) :
  RecorderOk s -> RecorderOk (run Math_sqrt s evs).
Proof.
  revert s. induction evs as [ | e evs IH ]; simpl; intros s H; [ exact H | ].
  apply IH. now apply RecorderOk_step.
Qed.

Lemma recorderLog_stopsApart (tr h2 : list Obs) (on : bool) :
  recorderLog tr = Some on ->
  stopsApart false (rev tr ++ h2) = stopsApart (negb on) h2.
Proof.
  unfold recorderLog. revert h2 on.
  induction tr as [ | o tr IH ]; simpl; intros h2 on H.
  - injection H as <-. reflexivity.
  - destruct (fold_right (fun o acc => recorderStep acc o) (Some true) tr)
      as [ on' | ] eqn:E; [ | discriminate ].
    rewrite <- app_assoc. simpl. rewrite (IH _ on' eq_refl).
    destruct o; simpl in H; try (injection H as <-; reflexivity);
      destruct on'; try discriminate; injection H as <-; reflexivity.
Qed.

(** X10. In the history of a session the calls on the recorder alternate,
    beginning with a recorder that records: a stop (by the silence timer or
    by Stop) is never followed by another stop without a start in between,
    and a start never by another start without a stop in between.  So after
    a boundary no further boundary fires before the recorder has been
    restarted.  Whenever the recorder ref says [recording], the last call
    in the history was a start, or there was none. *)
Theorem recorder_calls_legal (t0 : Z) (evs : list Event) :
  let s := run Math_sqrt (started t0) evs in
  (exists on, recorderLog (trace s) = Some on
              /\ (mediaRecorderRef s = Some recording -> on = true))
  /\ stopsApart false (history s) = true.
Proof.
  cbv zeta.
  assert (H0 : RecorderOk (started t0)).
  { exists true. simpl. repeat split. intros _ H. now elim H. }
  destruct (RecorderOk_run evs (started t0) H0) as (on & H1 & H2 & _).
  split; [ exists on; auto | ].
  unfold history. rewrite <- (app_nil_r (rev _)).
  now rewrite (recorderLog_stopsApart _ [] on H1).
Qed.

(** X13. An answer of the engine that is the blank-audio token and nothing
    else, in any mix of upper and lower case and with any white space
    around it, appends nothing: the transcript is as before. *)
Theorem blank_answer_appends_nothing
    (s : St) (u : nat) (t : Task) (w1 tok w2 : str) :
  findTask u s = Some t -> stage t = AwaitTranscribe ->
  forallb isWhiteSpace w1 = true -> forallb isWhiteSpace w2 = true ->
  matchesAt BLANK_AUDIO tok = true -> length tok = length BLANK_AUDIO ->
  let s' := step Math_sqrt s (EvTranscribed u (Resolved (Some (w1 ++ tok ++ w2)))) in
  transcript s' = transcript s
  /\ count isAppend (trace s') = count isAppend (trace s).
Proof.
  intros Hfind Hstage Hw1 Hw2 Hm Hl. cbv zeta.
  rewrite (step_transcribed Math_sqrt s u t _ Hfind Hstage). unfold afterTranscribe.
  rewrite (MoreTextFacts.cleanText_blank w1 tok w2 Hw1 Hw2 Hm Hl).
  match goal with
  | |- context [release ?v ?s0] =>
      destruct (released_returned (continueAfter t) v s0) as (Hc & _ & Ht & _)
  end.
  rewrite Ht, Hc by reflexivity.
  destruct (truthy (w1 ++ tok ++ w2)); auto.
Qed.




(** ** The silence timer *)

Lemma timers_release (u : nat) (s : St) : timers (release u s) = timers s.
Proof. reflexivity. Qed.

Lemma timers_restartRecording (s : St) : timers (restartRecording s) = timers s.
Proof.
  unfold restartRecording.
  destruct (streamActive s && isSome (mediaRecorderRef s) && negb (isProcessingRef s));
    [ | reflexivity ].
  cbv zeta. simpl. now destruct (mediaRecorderRef s) as [ [ | ] | ].
Qed.

Lemma timers_settled (c : bool) (r : St * bool) : timers (settled c r) = timers (fst r).
Proof.
  destruct r as [s b]. simpl.
  destruct (b && c); [ apply timers_restartRecording | reflexivity ].
Qed.

Lemma timers_processAudio (c : bool) (s : St) :
  timers (fst (processAudio c s)) = timers s.
Proof.
  unfold processAudio.
  destruct (isProcessingRef s || isNil (audioChunksRef s) || negb (transcriberRef s));
    [ reflexivity | ].
  cbv zeta. simpl.
  destruct (isNil (audioChunksRef s)); [ reflexivity | ].
  now destruct (size (newBlob (audioChunksRef s)) =? 0).
Qed.

Lemma timers_catchError (u : nat) (err : JsError) (s : St) :
  timers (catchError u err s) = timers s.
Proof.
  unfold catchError. cbv zeta. rewrite timers_release.
  now match goal with |- context [if ?c then _ else _] => destruct c end.
Qed.

Lemma timers_afterArrayBuffer (t : Task) (b : Blob) (r : Outcome unit) (s : St) :
  timers (fst (afterArrayBuffer t b r s)) = timers s.
Proof.
  unfold afterArrayBuffer. destruct r as [ [] | err ].
  - now destruct (size b =? 0).
  - apply timers_catchError.
Qed.

Lemma timers_afterDecode (t : Task) (r : Outcome AudioBuffer) (s : St) :
  timers (fst (afterDecode Math_sqrt t r s)) = timers s.
Proof.
  unfold afterDecode. destruct r as [ audioBuffer | err ]; [ | reflexivity ].
  destruct (len (channelData audioBuffer) <? 8000); [ reflexivity | ].
  now destruct (negb (hasAudioContent Math_sqrt (channelData audioBuffer) audioFloor)).
Qed.

Lemma timers_afterTranscribe (t : Task) (r : Outcome (option str)) (s : St) :
  timers (fst (afterTranscribe t r s)) = timers s.
Proof.
  unfold afterTranscribe. destruct r as [ result | err ];
    [ | apply timers_catchError ].
  cbn [fst]. rewrite timers_release.
  destruct result as [ text | ]; [ | reflexivity ].
  destruct (truthy text); [ | reflexivity ].
  now destruct (keepText (cleanText text)).
Qed.

Lemma timers_releaseCapture (s : St) :
  timers (releaseCapture s) = timers (clearSilenceTimer (set_isListening false s)).
Proof.
  unfold releaseCapture. cbv zeta.
  remember (clearSilenceTimer (set_isListening false s)) as s1 eqn:E1. clear E1.
  simpl.
  destruct (mediaRecorderRef s1) as [ [ | ] | ]; simpl;
    destruct (streamRef s1); simpl; destruct (audioContextRef s1); reflexivity.
Qed.

Lemma Patient_same (s s' : St) :
  timers s' = timers s -> isProcessingRef s' = isProcessingRef s ->
  clock s' = clock s -> lastSpeechTimeRef s' = lastSpeechTimeRef s ->
  audioChunksRef s' = audioChunksRef s ->
  hasRecordedSpeechRef s' = hasRecordedSpeechRef s ->
  Patient s -> Patient s'.
Proof. unfold Patient. intros -> -> -> -> -> ->. auto. Qed.

(** A call in flight has the flag set, so no timeout is pending. *)
Lemma no_timer_in_flight (s : St) (u : nat) (t : Task) :
  Serial s -> Patient s -> findTask u s = Some t -> timers s = [].
Proof.
  intros [[_ Hf] _] [ H | (H & _) ] Hfind; [ exact H | ].
  unfold findTask, inFlight in *. destruct (tasks s); [ discriminate | ].
  simpl in Hf. congruence.
Qed.

Lemma Patient_checkAudioLevel (dataArray : list Z) (s : St) :
  Tidy s -> Patient s -> Patient (checkAudioLevel Math_sqrt dataArray s).
Proof.
  intros HT HP. unfold checkAudioLevel.
  destruct (negb (analyserRef s) || negb (streamActive s)); [ exact HP | ].
  cbv zeta.
  match goal with
  | |- Patient (if streamActive ?x then _ else _) =>
      assert (H' : Patient x); [ | remember x as s1 eqn:E1; clear E1;
                                   destruct (streamActive s1);
                                   [ now apply (Patient_same s1) | exact H' ] ]
  end.
  destruct (Qgtb (amplitudeOf Math_sqrt dataArray) silenceThreshold).
  - left. apply timers_cleared. now same s.
  - match goal with |- context [if ?c then _ else _] => destruct c eqn:Ec end;
      [ | exact HP ].
    repeat (apply andb_prop in Ec; destruct Ec as [Ec ?]).
    right. unfold armSilenceTimer. simpl. repeat split.
    + now apply negb_true_iff.
    + now apply Z.leb_le.
    + now apply negb_true_iff.
    + assumption.
Qed.

Lemma filter_fired (id : nat) (s : St) :
  Tidy s -> existsb (Nat.eqb id) (timers s) = true ->
  filter (fun j => negb (Nat.eqb j id)) (timers s) = [].
Proof.
  intros (_ & _ & H3 & _) Hin.
  destruct H3 as [ E | (id' & E & _) ]; rewrite E in *; [ reflexivity | ].
  simpl in Hin. rewrite orb_false_r in Hin. apply Nat.eqb_eq in Hin. subst id'.
  simpl. now rewrite Nat.eqb_refl.
Qed.

Lemma timers_silenceTimeout (s : St) : timers (silenceTimeout s) = timers s.
Proof.
  unfold silenceTimeout.
  destruct (mediaRecorderRef s) as [ [ | ] | ]; try reflexivity.
  now destruct (streamActive s && negb (isProcessingRef s)).
Qed.

Lemma Patient_step (s : St) (e : Event) :
  Serial s -> Tidy s -> Patient s -> Patient (step Math_sqrt s e).
Proof.
  intros HS HT HP. destruct e; simpl.
  - destruct (clock s <=? t) eqn:E; [ | exact HP ].
    apply Z.leb_le in E.
    destruct HP as [ H | (H1 & H2 & H3 & H4) ]; [ now left | right ].
    simpl. repeat split; try assumption. lia.
  - assert (Patient (ondataavailable data s)).
    { unfold ondataavailable. destruct (0 <? size data); [ | exact HP ].
      destruct HP as [ H | (H1 & H2 & H3 & H4) ]; [ now left | right ].
      simpl. repeat split; try assumption.
      now destruct (audioChunksRef s). }
    destruct (mediaRecorderRef s) as [ [ | ] | ]; destruct (stopEvents s); auto.
  - destruct (stopEvents s); [ exact HP | ].
    unfold onstop.
    match goal with |- context [if ?c then _ else _] => destruct c end;
      [ | now apply (Patient_same s) ].
    left. unfold processAudioAndContinue. cbv zeta.
    rewrite timers_settled, timers_processAudio.
    apply timers_cleared. now same s.
  - destruct (frameRequested s); [ | exact HP ].
    apply Patient_checkAudioLevel; [ now same s | now apply (Patient_same s) ].
  - destruct (existsb (Nat.eqb id) (timers s)) eqn:E; [ | exact HP ].
    left. rewrite timers_silenceTimeout. simpl. now apply filter_fired.
  - left. unfold stopListening. cbv zeta.
    assert (H0 : timers (releaseCapture s) = []).
    { rewrite timers_releaseCapture. apply timers_cleared. now same s. }
    remember (releaseCapture s) as s1 eqn:E1. clear E1.
    destruct (negb (isNil (audioChunksRef s1)) && negb (isProcessingRef s1));
      [ | exact H0 ].
    now rewrite timers_settled, timers_processAudio.
  - unfold trackEnded. destruct (streamRef s); [ | exact HP ].
    cbv zeta. simpl.
    destruct (mediaRecorderRef s) as [ [ | ] | ]; now apply (Patient_same s).
  - now apply (Patient_same s).
  - destruct (findTask u s) as [ t | ] eqn:Hfind; [ | exact HP ].
    destruct (stage t); try exact HP.
    left. rewrite timers_settled, timers_afterArrayBuffer. simpl.
    exact (no_timer_in_flight s u t HS HP Hfind).
  - destruct (findTask u s) as [ t | ] eqn:Hfind; [ | exact HP ].
    destruct (stage t); try exact HP.
    left. rewrite timers_settled, timers_afterDecode. simpl.
    exact (no_timer_in_flight s u t HS HP Hfind).
  - destruct (findTask u s) as [ t | ] eqn:Hfind; [ | exact HP ].
    destruct (stage t); try exact HP.
    left. rewrite timers_settled, timers_afterTranscribe. simpl.
    exact (no_timer_in_flight s u t HS HP Hfind).
Qed.

Lemma Patient_run (evs : list Event) (s : St) :
  Serial s -> Tidy s -> Patient s -> Patient (run Math_sqrt s evs).
Proof.
  revert s. induction evs as [ | e evs IH ]; simpl; intros s HS HT HP; [ exact HP | ].
  apply IH; [ now apply Serial_step | now apply Tidy_step | now apply Patient_step ].
Qed.

(** X15. A timeout of the silence timer stops the recorder (a boundary)
    exactly when it is the pending one, the recorder records and the stream
    is active.  Whenever it does, the detector's conditions still hold: at
    least 1500 ms have passed on the clock since [lastSpeechTimeRef] was set
    (speech heard, or the recorder restarted), something is buffered, speech
    has been heard and nothing is being processed. *)
Theorem boundary_only_after_silence (t0 : Z) (evs : list Event) (id : nat) :
  let s := run Math_sqrt (started t0) evs in
  let s' := step Math_sqrt s (EvTimeout id) in
  if existsb (Nat.eqb id) (timers s) && isRecording s && streamActive s
  then count isBoundary (trace s') = S (count isBoundary (trace s))
       /\ silenceDuration <= clock s - lastSpeechTimeRef s
       /\ isNil (audioChunksRef s) = false
       /\ hasRecordedSpeechRef s = true
       /\ isProcessingRef s = false
  else trace s' = trace s.
Proof.
  cbv zeta.
  pose proof (Serial_run Math_sqrt evs _ (Serial_started t0)) as HS.
  pose proof (Tidy_run evs _ (Tidy_started t0)) as HT.
  assert (HP : Patient (run Math_sqrt (started t0) evs)).
  { apply Patient_run; [ apply Serial_started | apply Tidy_started | now left ]. }
  remember (run Math_sqrt (started t0) evs) as s eqn:Es. clear Es.
  simpl. unfold isRecording, silenceTimeout.
  destruct (existsb (Nat.eqb id) (timers s)) eqn:E; [ | reflexivity ].
  change (streamActive (set_timers (filter (fun j => negb (Nat.eqb j id)) (timers s)) s))
    with (streamActive s).
  cbn [mediaRecorderRef set_timers isProcessingRef andb].
  destruct (mediaRecorderRef s) as [ [ | ] | ]; try reflexivity.
  destruct (streamActive s); [ | reflexivity ].
  destruct HP as [ H | (H1 & H2 & H3 & H4) ].
  { rewrite H in E. discriminate. }
  rewrite H1. simpl. auto.
Qed.

(** X16. A frame is heard as speech exactly when the loop was waiting for
    it, the analyser and an active stream are there and the amplitude is
    above the threshold of 20.  Speech cancels the pending cut: afterwards
    no timeout is pending and the timer ref is empty, the time of the last
    speech is the clock's, and a timeout that fires late changes nothing.
    Any other frame leaves the has-speech flag and the time of the last
    speech as they are. *)
Theorem speech_cancels_pending_timeout (t0 : Z) (evs : list Event) (dataArray : list Z) :
  let s := run Math_sqrt (started t0) evs in
  let s' := step Math_sqrt s (EvFrame dataArray) in
  if frameRequested s && analyserRef s && streamActive s
     && Qgtb (amplitudeOf Math_sqrt dataArray) silenceThreshold
  then trace s' = match silenceTimerRef s with
                  | Some id => [O_clearTimeout id]
                  | None => []
                  end ++ O_speech :: trace s
       /\ timers s' = [] /\ silenceTimerRef s' = None
       /\ lastSpeechTimeRef s' = clock s
       /\ hasRecordedSpeechRef s' = true
       /\ (forall id, step Math_sqrt s' (EvTimeout id) = s')
  else count isSpeech (trace s') = count isSpeech (trace s)
       /\ hasRecordedSpeechRef s' = hasRecordedSpeechRef s
       /\ lastSpeechTimeRef s' = lastSpeechTimeRef s.
Proof.
  cbv zeta.
  pose proof (Tidy_run evs _ (Tidy_started t0)) as HT.
  remember (run Math_sqrt (started t0) evs) as s eqn:Es. clear Es.
  simpl. destruct (frameRequested s); [ | cbn [andb]; auto ].
  unfold checkAudioLevel.
  change (analyserRef (set_frameRequested false s)) with (analyserRef s).
  change (streamActive (set_frameRequested false s)) with (streamActive s).
  destruct (analyserRef s); [ | cbn [negb orb andb]; auto ].
  destruct (streamActive s) eqn:Ea; [ | cbn [negb orb andb]; auto ].
  cbv zeta. cbn [negb orb andb].
  destruct (Qgtb (amplitudeOf Math_sqrt dataArray) silenceThreshold).
  - assert (HT' : Tidy (set_hasRecordedSpeechRef true
                          (log O_speech
                             (set_lastSpeechTimeRef (clock (set_frameRequested false s))
                                (set_frameRequested false s)))))
      by now same s.
    pose proof (timers_cleared _ HT') as Hc.
    match type of Hc with
    | timers (clearSilenceTimer ?x) = _ => remember x as s1 eqn:E1
    end.
    assert (Hs : streamActive (clearSilenceTimer s1) = true).
    { unfold clearSilenceTimer. destruct (silenceTimerRef s1); subst s1; exact Ea. }
    rewrite Hs.
    assert (Hr : silenceTimerRef s1 = silenceTimerRef s) by (subst s1; reflexivity).
    repeat split.
    + unfold clearSilenceTimer. rewrite Hr.
      destruct (silenceTimerRef s); subst s1; reflexivity.
    + exact Hc.
    + unfold clearSilenceTimer. destruct (silenceTimerRef s1) eqn:E; [ reflexivity | ].
      simpl. exact E.
    + unfold clearSilenceTimer. destruct (silenceTimerRef s1); subst s1; reflexivity.
    + unfold clearSilenceTimer. destruct (silenceTimerRef s1); subst s1; reflexivity.
    + intros id. simpl. cbn [timers] in *.
      change (timers (set_frameRequested true (clearSilenceTimer s1)))
        with (timers (clearSilenceTimer s1)).
      now rewrite Hc.
  - match goal with
    | |- context [if ?c then armSilenceTimer ?x else _] =>
        assert (Hq : forall y, (y = if c then armSilenceTimer x else x) ->
                     count isSpeech (trace y) = count isSpeech (trace s)
                     /\ hasRecordedSpeechRef y = hasRecordedSpeechRef s
                     /\ lastSpeechTimeRef y = lastSpeechTimeRef s
                     /\ streamActive y = true)
    end.
    { intros y ->.
      match goal with |- context [if ?c then _ else _] => destruct c end;
        repeat split; exact Ea. }
    match goal with
    | |- context [if ?c then armSilenceTimer ?x else _] =>
        destruct (Hq (if c then armSilenceTimer x else x) eq_refl) as (Q1 & Q2 & Q3 & Q4);
        remember (if c then armSilenceTimer x else x) as y eqn:Ey; clear Ey Hq
    end.
    rewrite Q4. auto.
Qed.

End MoreSessionFacts.

(* ================================================================== *)
(** ** The further properties at concrete inputs *)

Lemma flag_released_on_every_exit_witness :
  let s' := run sqrtApprox flushing
              [EvArrayBuffer 0 (Resolved tt); EvDecoded 0 (Rejected decodeFailure);
               EvTranscribed 0 (Resolved None)] in
  findTask 0 flushing = Some flushingTask
  /\ isProcessingRef flushing = true
  /\ isProcessingRef s' = false
  /\ findTask 0 s' = None.
Proof.
  cbv zeta.
  destruct (flag_released_on_every_exit sqrtApprox flushing 0 flushingTask someChunk
              (Resolved tt) (Rejected decodeFailure) (Resolved None) eq_refl eq_refl)
    as (H1 & H2 & _).
  exact (conj eq_refl (conj eq_refl (conj H1 H2))).
Defined.

Lemma engine_failure_reported_witness :
  let s' := step sqrtApprox awaitingTranscribe (EvTranscribed 0 (Rejected engineFailure)) in
  findTask 0 awaitingTranscribe = Some transcribingTask
  /\ includes (messageOf engineFailure) (lit "decode") = false
  /\ error s' = Some (lit "Transcription error: Network request failed")
  /\ isProcessingRef s' = false.
Proof.
  cbv zeta.
  destruct (engine_failure_reported sqrtApprox awaitingTranscribe 0 transcribingTask
              engineFailure (EvTranscribed 0 (Rejected engineFailure))
              eq_refl (or_introl (conj eq_refl eq_refl)) eq_refl)
    as (H1 & _ & _ & _ & H5 & _).
  exact (conj eq_refl (conj eq_refl (conj H1 H5))).
Defined.

Lemma decode_worded_failure_hidden_witness :
  let s' := step sqrtApprox awaitingTranscribe (EvTranscribed 0 (Rejected decodeFailure)) in
  findTask 0 awaitingTranscribe = Some transcribingTask
  /\ includes (messageOf decodeFailure) (lit "decode") = true
  /\ error s' = error awaitingTranscribe
  /\ count isWarn (trace s') = S (count isWarn (trace awaitingTranscribe)).
Proof.
  cbv zeta.
  destruct (decode_worded_failure_hidden sqrtApprox awaitingTranscribe 0 transcribingTask
              decodeFailure (EvTranscribed 0 (Rejected decodeFailure))
              eq_refl (or_introl (conj eq_refl eq_refl)) eq_refl)
    as (H1 & _ & H3 & _).
  exact (conj eq_refl (conj eq_refl (conj H1 H3))).
Defined.

Lemma nothing_after_stream_stops_witness :
  streamActive flushing = false
  /\ count isBoundary (trace (run sqrtApprox flushing lateEvents))
     = count isBoundary (trace flushing)
  /\ count isRecorderStart (trace (run sqrtApprox flushing lateEvents))
     = count isRecorderStart (trace flushing).
Proof.
  destruct (nothing_after_stream_stops sqrtApprox flushing lateEvents eq_refl)
    as (_ & _ & _ & H4 & H5 & _).
  exact (conj eq_refl (conj H4 H5)).
Defined.

Lemma blank_answer_appends_nothing_witness :
  let answer := Some (lit "  " ++ lit "[Blank_Audio]" ++ lit " ") in
  let s' := step sqrtApprox awaitingTranscribe (EvTranscribed 0 (Resolved answer)) in
  findTask 0 awaitingTranscribe = Some transcribingTask
  /\ matchesAt BLANK_AUDIO (lit "[Blank_Audio]") = true
  /\ transcript s' = transcript awaitingTranscribe.
Proof.
  cbv zeta.
  destruct (blank_answer_appends_nothing sqrtApprox awaitingTranscribe 0 transcribingTask
              (lit "  ") (lit "[Blank_Audio]") (lit " ")
              eq_refl eq_refl eq_refl eq_refl eq_refl eq_refl)
    as (H1 & _).
  exact (conj eq_refl (conj eq_refl H1)).
Defined.


Lemma resampleAudio_within_range_witness :
  (0 < 48000)%Q /\ (0 < 16000)%Q
  /\ within 1 6 sixSamples
  /\ within 1 6 (resampleAudio sixSamples 48000 16000).
Proof.
  assert (H1 : (0 < 48000)%Q) by reflexivity.
  assert (H2 : (0 < 16000)%Q) by reflexivity.
  assert (H3 : within 1 6 sixSamples).
  { unfold within, sixSamples.
    repeat (apply Forall_cons; [ split; discriminate | ]). apply Forall_nil. }
  exact (conj H1 (conj H2 (conj H3
    (MoreResampleFacts.resampleAudio_within_range sixSamples 48000 16000 1 6 H1 H2 H3)))).
Defined.

Lemma resampleAudio_decimates_witness :
  (0 < 16000)%Q /\ 1 <= 3 /\ (48000 == inject_Z 3 * 16000)%Q
  /\ (nth 1 (resampleAudio sixSamples 48000 16000) 0 == 4)%Q.
Proof.
  assert (H1 : (0 < 16000)%Q) by reflexivity.
  assert (H2 : 1 <= 3) by discriminate.
  assert (H3 : (48000 == inject_Z 3 * 16000)%Q) by reflexivity.
  destruct (MoreResampleFacts.resampleAudio_decimates sixSamples 48000 16000 3 1 H1 H2 H3)
    as [_ H].
  exact (conj H1 (conj H2 (conj H3 (H eq_refl)))).
Defined.
